(** * Stacks address utilities (src/src/address.ts)

    A shallow embedding of the address module of stacks-utils: validation,
    parsing, shortening, network detection, encoding and comparison of
    Stacks addresses, together with the c32check codec the module imports
    ([c32address], [c32addressDecode]) and the SHA-256 function the codec's
    checksum is built on.

    JavaScript strings are modelled as [string] (ASCII text, one character
    per code unit), JavaScript integers as [Z], and a call that may throw as
    a value of [outcome].

    The string utilities of the other modules follow the address module:
    the contract identifiers of the API helpers, the contract names and
    literals of contracts.ts, the memos of memo.ts, the names of bns.ts,
    the transaction ids of format.ts and the Bitcoin reward addresses of the
    stacking utilities. *)

From Stdlib Require Import ZArith List String Ascii Bool Lia.
Import ListNotations.
Open Scope Z_scope.

(** ** Calls that may throw *)

Inductive outcome (A : Type) : Type :=
| Returned (a : A)
| Thrown (msg : string).
Arguments Returned {A} a.
Arguments Thrown {A} msg.

Definition bind {A B : Type} (m : outcome A) (k : A -> outcome B) : outcome B :=
  match m with
  | Returned a => k a
  | Thrown e => Thrown e
  end.

Notation "'let*' x ':=' m 'in' k" := (bind m (fun x => k))
  (at level 10, x pattern, m at level 100, k at level 200).

(** [try { body } catch { handler }] *)
Definition try_catch {A : Type} (body : outcome A) (handler : outcome A) : outcome A :=
  match body with
  | Returned a => Returned a
  | Thrown _ => handler
  end.

Definition returns {A : Type} (m : outcome A) : bool :=
  match m with Returned _ => true | Thrown _ => false end.

(** ** JavaScript strings *)

Module Js.

Definition chars (s : string) : list ascii := list_ascii_of_string s.
Definition str (l : list ascii) : string := string_of_list_ascii l.

Definition length (s : string) : Z := Z.of_nat (String.length s).

(** [s.startsWith(p)] *)
Definition startsWith (s p : string) : bool := String.prefix p s.

(** Relative index of [slice]: negative counts from the end, then clamp. *)
Definition relative (len i : Z) : Z :=
  if i <? 0 then Z.max (len + i) 0 else Z.min i len.

(** [s.slice(b, e)] *)
Definition slice (s : string) (b e : Z) : string :=
  let len := length s in
  let from := relative len b in
  let to := relative len e in
  String.substring (Z.to_nat from) (Z.to_nat (Z.max (to - from) 0)) s.

(** [s.slice(b)] *)
Definition slice_from (s : string) (b : Z) : string := slice s b (length s).

(** [s.substring(b, e)]: arguments clamped to [0, length], swapped if needed. *)
Definition substring (s : string) (b e : Z) : string :=
  let len := length s in
  let b' := Z.min (Z.max b 0) len in
  let e' := Z.min (Z.max e 0) len in
  String.substring (Z.to_nat (Z.min b' e')) (Z.to_nat (Z.max b' e' - Z.min b' e')) s.

(** [s[i]], [None] standing for [undefined]. *)
Definition at_ (s : string) (i : Z) : option ascii :=
  if i <? 0 then None else String.get (Z.to_nat i) s.

(** [s[i] == c] for a one-character [c]. *)
Definition char_is (o : option ascii) (c : ascii) : bool :=
  match o with
  | Some x => Ascii.eqb x c
  | None => false
  end.

Definition is_upper (c : ascii) : bool :=
  let n := Z.of_nat (nat_of_ascii c) in (65 <=? n) && (n <=? 90).
Definition is_lower (c : ascii) : bool :=
  let n := Z.of_nat (nat_of_ascii c) in (97 <=? n) && (n <=? 122).

Definition upper_char (c : ascii) : ascii :=
  if is_lower c then ascii_of_nat (nat_of_ascii c - 32) else c.
Definition lower_char (c : ascii) : ascii :=
  if is_upper c then ascii_of_nat (nat_of_ascii c + 32) else c.

(** [toUpperCase] and [toLowerCase] on ASCII text: the letters A-Z and a-z
    change case, every other character is left as it is. *)
Fixpoint toUpperCase (s : string) : string :=
  match s with
  | EmptyString => EmptyString
  | String c r => String (upper_char c) (toUpperCase r)
  end.

Fixpoint toLowerCase (s : string) : string :=
  match s with
  | EmptyString => EmptyString
  | String c r => String (lower_char c) (toLowerCase r)
  end.

(** [alphabet.indexOf(c)] for a one-character [c]; [-1] when absent. *)
Fixpoint index_from (i : Z) (l : list ascii) (c : ascii) : Z :=
  match l with
  | [] => -1
  | x :: r => if Ascii.eqb x c then i else index_from (i + 1) r c
  end.
Definition indexOf (alphabet : string) (c : ascii) : Z :=
  index_from 0 (chars alphabet) c.

(** [!s] for a string: only the empty string is falsy. *)
Definition falsy (s : string) : bool :=
  match s with EmptyString => true | _ => false end.

(** [Number.prototype.toString(16)] on an integer. *)
Definition hex_digit_char (d : Z) : ascii :=
  nth (Z.to_nat d) (chars "0123456789abcdef") "0"%char.

Fixpoint pos_hex (fuel : nat) (n : Z) (acc : list ascii) : list ascii :=
  match fuel with
  | O => acc
  | S f =>
      let acc' := hex_digit_char (n mod 16) :: acc in
      if n / 16 =? 0 then acc' else pos_hex f (n / 16) acc'
  end.

Definition toString16 (n : Z) : string :=
  if n <? 0 then String "-" (str (pos_hex (Z.to_nat (- n)) (- n) []))
  else str (pos_hex (S (Z.to_nat n)) n []).

End Js.

(** ** SHA-256 (FIPS 180-4), on bytes given as integers in [0, 256) *)

Module Sha256.

Definition w32 (x : Z) : Z := x mod 4294967296.
Definition add32 (x y : Z) : Z := w32 (x + y).
Definition rotr (n x : Z) : Z := Z.lor (Z.shiftr x n) (w32 (Z.shiftl x (32 - n))).
Definition shr (n x : Z) : Z := Z.shiftr x n.
Definition not32 (x : Z) : Z := 4294967295 - x.

Definition Ch (x y z : Z) : Z := Z.lxor (Z.land x y) (Z.land (not32 x) z).
Definition Maj (x y z : Z) : Z :=
  Z.lxor (Z.lxor (Z.land x y) (Z.land x z)) (Z.land y z).
Definition bsig0 (x : Z) : Z := Z.lxor (Z.lxor (rotr 2 x) (rotr 13 x)) (rotr 22 x).
Definition bsig1 (x : Z) : Z := Z.lxor (Z.lxor (rotr 6 x) (rotr 11 x)) (rotr 25 x).
Definition ssig0 (x : Z) : Z := Z.lxor (Z.lxor (rotr 7 x) (rotr 18 x)) (shr 3 x).
Definition ssig1 (x : Z) : Z := Z.lxor (Z.lxor (rotr 17 x) (rotr 19 x)) (shr 10 x).

(** The round constants: the first 32 bits of the fractional parts of the
    cube roots of the first 64 primes. *)
Definition K : list Z :=
  [
    1116352408; 1899447441; 3049323471; 3921009573;
    961987163; 1508970993; 2453635748; 2870763221;
    3624381080; 310598401; 607225278; 1426881987;
    1925078388; 2162078206; 2614888103; 3248222580;
    3835390401; 4022224774; 264347078; 604807628;
    770255983; 1249150122; 1555081692; 1996064986;
    2554220882; 2821834349; 2952996808; 3210313671;
    3336571891; 3584528711; 113926993; 338241895;
    666307205; 773529912; 1294757372; 1396182291;
    1695183700; 1986661051; 2177026350; 2456956037;
    2730485921; 2820302411; 3259730800; 3345764771;
    3516065817; 3600352804; 4094571909; 275423344;
    430227734; 506948616; 659060556; 883997877;
    958139571; 1322822218; 1537002063; 1747873779;
    1955562222; 2024104815; 2227730452; 2361852424;
    2428436474; 2756734187; 3204031479; 3329325298
  ].

(** The eight working variables a..h, also the running hash value. *)
Record state : Type := State {
  sa : Z; sb : Z; sc : Z; sd : Z; se : Z; sf : Z; sg : Z; sh : Z
}.

Definition init : state :=
  {| sa := 1779033703; sb := 3144134277; sc := 1013904242; sd := 2773480762;
     se := 1359893119; sf := 2600822924; sg := 528734635; sh := 1541459225 |}.

(** Padding: a 1 bit, zeros up to 56 mod 64 bytes, the bit length on 8 bytes. *)
Fixpoint be_bytes (n : nat) (x : Z) : list Z :=
  match n with
  | O => []
  | S m => (x / 256 ^ Z.of_nat m) mod 256 :: be_bytes m x
  end.

Definition pad (msg : list Z) : list Z :=
  let len := Z.of_nat (List.length msg) in
  let zeros := (55 - len) mod 64 in
  msg ++ 128 :: repeat 0 (Z.to_nat zeros) ++ be_bytes 8 (8 * len).

(** Big-endian 32-bit words of a byte list. *)
Fixpoint words (fuel : nat) (l : list Z) : list Z :=
  match fuel, l with
  | S f, b0 :: b1 :: b2 :: b3 :: r =>
      (((b0 * 256 + b1) * 256 + b2) * 256 + b3) :: words f r
  | _, _ => []
  end.

(** Message schedule, most recent word first: from W(t-1) .. W(t-16)
    compute W(t). *)
Definition next_w (sched : list Z) : Z :=
  add32 (add32 (ssig1 (nth 1 sched 0)) (nth 6 sched 0))
        (add32 (ssig0 (nth 14 sched 0)) (nth 15 sched 0)).

Fixpoint extend (n : nat) (sched : list Z) : list Z :=
  match n with
  | O => sched
  | S m => extend m (next_w sched :: sched)
  end.

Definition schedule (block : list Z) : list Z := rev (extend 48 (rev block)).

Definition round (s : state) (kw : Z * Z) : state :=
  let t1 := add32 (add32 (add32 (sh s) (bsig1 (se s)))
                         (add32 (Ch (se s) (sf s) (sg s)) (fst kw))) (snd kw) in
  let t2 := add32 (bsig0 (sa s)) (Maj (sa s) (sb s) (sc s)) in
  State (add32 t1 t2) (sa s) (sb s) (sc s) (add32 (sd s) t1) (se s) (sf s) (sg s).

Definition compress (hv : state) (block : list Z) : state :=
  let s := fold_left round (combine K (schedule block)) hv in
  State (add32 (sa hv) (sa s)) (add32 (sb hv) (sb s))
        (add32 (sc hv) (sc s)) (add32 (sd hv) (sd s))
        (add32 (se hv) (se s)) (add32 (sf hv) (sf s))
        (add32 (sg hv) (sg s)) (add32 (sh hv) (sh s)).

Fixpoint blocks (fuel : nat) (hv : state) (ws : list Z) : state :=
  match fuel with
  | O => hv
  | S f =>
      match ws with
      | [] => hv
      | _ => blocks f (compress hv (firstn 16 ws)) (skipn 16 ws)
      end
  end.

Definition digest_bytes (s : state) : list Z :=
  be_bytes 4 (sa s) ++ be_bytes 4 (sb s) ++ be_bytes 4 (sc s) ++ be_bytes 4 (sd s) ++
  be_bytes 4 (se s) ++ be_bytes 4 (sf s) ++ be_bytes 4 (sg s) ++ be_bytes 4 (sh s).

Definition sha256 (msg : list Z) : list Z :=
  let p := pad msg in
  let ws := words (List.length p) p in
  digest_bytes (blocks (List.length ws) init ws).

End Sha256.

(** ** The c32check codec

    [c32address] and [c32addressDecode] are imported by address.ts from the
    c32check package, which is not part of the repository.  The definitions
    below are modelled on that package's algorithm, function by function:
    the Crockford-style base-32 alphabet, the digit loops of [c32encode]
    and [c32decode], the four-byte double SHA-256 checksum, and the version
    character.  The addresses that appear in the repository's tests and
    constants are run through them in the test vectors below. *)

Module C32.

Definition c32 : string := "0123456789ABCDEFGHJKMNPQRSTVWXYZ".
Definition hex : string := "0123456789abcdef".

(** [c32[i]] and [hex[i]]; every index used below lies inside the alphabet
    (lemmas [enc_digits_range] and [dec_digits_spec]). *)
Definition c32_at (i : Z) : ascii := nth (Z.to_nat i) (Js.chars c32) "0"%char.
Definition hex_at (i : Z) : ascii := nth (Z.to_nat i) (Js.chars hex) "0"%char.

(** [/^[0-9a-fA-F]*$/] *)
Definition is_hex_char (c : ascii) : bool :=
  let n := Z.of_nat (nat_of_ascii c) in
  ((48 <=? n) && (n <=? 57)) || ((97 <=? n) && (n <=? 102)) ||
  ((65 <=? n) && (n <=? 70)).
Definition is_hex_string (s : string) : bool := forallb is_hex_char (Js.chars s).

(** [^[0123456789ABCDEFGHJKMNPQRSTVWXYZ]*$] *)
Definition is_c32_char (c : ascii) : bool := 0 <=? Js.indexOf c32 c.
Definition is_c32_string (s : string) : bool := forallb is_c32_char (Js.chars s).

(** Number of leading elements equal to [z]. *)
Fixpoint leading {A : Type} (eqb : A -> A -> bool) (z : A) (l : list A) : nat :=
  match l with
  | x :: r => if eqb x z then S (leading eqb z r) else O
  | [] => O
  end.

(** [hexToBytes]: throws on an odd length or a character that is no hex
    digit. *)
Definition hex_value (c : ascii) : Z := Js.indexOf hex (Js.lower_char c).

Fixpoint hexToBytes_chars (l : list ascii) : outcome (list Z) :=
  match l with
  | [] => Returned []
  | hi :: lo :: r =>
      if is_hex_char hi && is_hex_char lo then
        let* bs := hexToBytes_chars r in
        Returned ((16 * hex_value hi + hex_value lo) :: bs)
      else Thrown "Invalid byte sequence"
  | [_] => Thrown "hex string is invalid: unpadded"
  end.
Definition hexToBytes (s : string) : outcome (list Z) := hexToBytes_chars (Js.chars s).

Definition bytesToHex_chars (bs : list Z) : list ascii :=
  flat_map (fun b => [hex_at (b / 16); hex_at (b mod 16)]) bs.
Definition bytesToHex (bs : list Z) : string := Js.str (bytesToHex_chars bs).

(** The loop of [c32encode], from the last hex digit to the first;
    [res.unshift(c)] is [c :: res]. *)
Fixpoint encode_loop (carry : Z) (rev_input : list ascii) (res : list ascii)
  : list ascii :=
  match rev_input with
  | [] => res
  | ch :: before =>
      if carry <? 4 then
        let currentCode := Z.shiftr (Js.indexOf hex ch) carry in
        let nextCode :=
          match before with
          | [] => 0
          | ch' :: _ => Js.indexOf hex ch'
          end in
        let nextBits := 1 + carry in
        let nextLowBits :=
          Z.shiftl (nextCode mod Z.shiftl 1 nextBits) (5 - nextBits) in
        let curC32Digit := c32_at (currentCode + nextLowBits) in
        encode_loop nextBits before (curC32Digit :: res)
      else encode_loop 0 before res
  end.

(** [numLeadingZeroBytesInHex] is the number of leading zero bytes of the
    input: the package reads it off the bytes decoded as text. *)
Definition c32encode (inputHex : string) : outcome string :=
  if negb (is_hex_string inputHex) then Thrown "Not a hex-encoded string" else
  let inputHex :=
    if Js.length inputHex mod 2 =? 0 then inputHex else String "0" inputHex in
  let inputHex := Js.toLowerCase inputHex in
  let res := encode_loop 0 (rev (Js.chars inputHex)) [] in
  let C32leadingZeros := leading Ascii.eqb "0"%char res in
  let res := skipn C32leadingZeros res in
  let* bytes := hexToBytes inputHex in
  let numLeadingZeroBytesInHex := leading Z.eqb 0 bytes in
  Returned (Js.str (repeat "0"%char numLeadingZeroBytesInHex ++ res)).

Definition normalize_char (c : ascii) : ascii :=
  let u := Js.upper_char c in
  if Ascii.eqb u "O" then "0"%char
  else if Ascii.eqb u "L" || Ascii.eqb u "I" then "1"%char
  else u.

(** [toUpperCase], then O to 0, then L and I to 1. *)
Fixpoint c32normalize (s : string) : string :=
  match s with
  | EmptyString => EmptyString
  | String c r => String (normalize_char c) (c32normalize r)
  end.

(** The loop of [c32decode], from the last c32 digit to the first; returns
    the digits unshifted so far and the pending carry. *)
Fixpoint decode_loop (carry carryBits : Z) (rev_input : list ascii)
  (res : list ascii) : outcome (list ascii * Z) :=
  match rev_input with
  | [] => Returned (res, carry)
  | ch :: before =>
      let '(res, carry, carryBits) :=
        if carryBits =? 4 then (hex_at carry :: res, 0, 0)
        else (res, carry, carryBits) in
      let currentCode := Z.shiftl (Js.indexOf c32 ch) carryBits in
      let currentValue := currentCode + carry in
      let currentHexDigit := hex_at (currentValue mod 16) in
      let carryBits := carryBits + 1 in
      let carry := Z.shiftr currentValue 4 in
      if carry >? Z.shiftl 1 carryBits then Thrown "Panic error in decoding."
      else decode_loop carry carryBits before (currentHexDigit :: res)
  end.

Definition c32decode (c32input : string) : outcome string :=
  let c32input := c32normalize c32input in
  if negb (is_c32_string c32input) then Thrown "Not a c32-encoded string" else
  let numLeadingZeroBytes := leading Ascii.eqb "0"%char (Js.chars c32input) in
  let* (res, carry) := decode_loop 0 0 (rev (Js.chars c32input)) [] in
  let res := hex_at carry :: res in
  let res := if Nat.odd (List.length res) then "0"%char :: res else res in
  let hexLeadingZeros := leading Ascii.eqb "0"%char res in
  let res := skipn (hexLeadingZeros - Nat.modulo hexLeadingZeros 2)%nat res in
  Returned (Js.str (List.concat (repeat (Js.chars "00") numLeadingZeroBytes) ++ res)).

(** First four bytes of the double SHA-256 of the decoded bytes, in hex. *)
Definition c32checksum (dataHex : string) : outcome string :=
  let* bytes := hexToBytes dataHex in
  Returned (bytesToHex (firstn 4 (Sha256.sha256 (Sha256.sha256 bytes)))).

(** [version.toString(16)], left-padded to two characters. *)
Definition versionHex (version : Z) : string :=
  let h := Js.toString16 version in
  if Js.length h =? 1 then String "0" h else h.

Definition c32checkEncode (version : Z) (data : string) : outcome string :=
  if (version <? 0) || (version >=? 32) then
    Thrown "Invalid version (must be between 0 and 31)"
  else if negb (is_hex_string data) then Thrown "Invalid data (not a hex string)"
  else
    let data := Js.toLowerCase data in
    let data := if Js.length data mod 2 =? 0 then data else String "0" data in
    let* checksumHex := c32checksum (versionHex version ++ data) in
    let* c32str := c32encode (data ++ checksumHex) in
    Returned (String (c32_at version) c32str).

Definition c32checkDecode (c32data : string) : outcome (Z * string) :=
  let c32data := c32normalize c32data in
  let* dataHex := c32decode (Js.slice_from c32data 1) in
  let version :=
    match Js.at_ c32data 0 with
    | Some versionChar => Js.indexOf c32 versionChar
    | None => -1
    end in
  let checksum := Js.slice_from dataHex (-8) in
  let payload := Js.substring dataHex 0 (Js.length dataHex - 8) in
  let* expected := c32checksum (versionHex version ++ payload) in
  if negb (String.eqb expected checksum) then
    Thrown "Invalid c32check string: checksum mismatch"
  else Returned (version, payload).

(** [/^[0-9a-fA-F]{40}$/] *)
Definition is_hash160_hex (s : string) : bool :=
  is_hex_string s && (Js.length s =? 40).

Definition c32address (version : Z) (hash160hex : string) : outcome string :=
  if negb (is_hash160_hex hash160hex) then
    Thrown "Invalid argument: not a hash160 hex string"
  else
    let* c32string := c32checkEncode version hash160hex in
    Returned (String "S" c32string).

Definition c32addressDecode (c32addr : string) : outcome (Z * string) :=
  if Js.length c32addr <=? 5 then Thrown "Invalid c32 address: invalid length"
  else if negb (Js.char_is (Js.at_ c32addr 0) "S") then
    Thrown "Invalid c32 address: must start with S"
  else c32checkDecode (Js.slice_from c32addr 1).

End C32.

Open Scope string_scope.

(** ** src/src/address.ts *)

Module ADDRESS_VERSION.
Definition MAINNET_SINGLE_SIG : Z := 22.
Definition MAINNET_MULTI_SIG : Z := 20.
Definition TESTNET_SINGLE_SIG : Z := 26.
Definition TESTNET_MULTI_SIG : Z := 21.
End ADDRESS_VERSION.

Inductive NetworkType : Type := mainnet | testnet.
Inductive AddressType : Type := single_sig | multi_sig.

Record AddressInfo : Type := {
  address : string;
  network : NetworkType;
  type : AddressType;
  version : Z;
  hash160 : string;
  isValid : bool
}.

(** A value a caller may pass where the signature says [string]. *)
Inductive js_value : Type :=
| JsUndefined
| JsNull
| JsBoolean (b : bool)
| JsNumber (n : Z)
| JsObject
| JsString (s : string).

(** [!v] *)
Definition js_not (v : js_value) : bool :=
  match v with
  | JsUndefined | JsNull => true
  | JsBoolean b => negb b
  | JsNumber n => (n =? 0)%Z
  | JsObject => false
  | JsString s => Js.falsy s
  end.

Definition typeof (v : js_value) : string :=
  match v with
  | JsUndefined => "undefined"
  | JsNull | JsObject => "object"
  | JsBoolean _ => "boolean"
  | JsNumber _ => "number"
  | JsString _ => "string"
  end.

(** The [switch (version)] of [parseStacksAddress]; [None] is its
    [default: return null]. *)
Definition classify (version : Z) : option (NetworkType * AddressType) :=
  if (version =? ADDRESS_VERSION.MAINNET_SINGLE_SIG)%Z then Some (mainnet, single_sig)
  else if (version =? ADDRESS_VERSION.MAINNET_MULTI_SIG)%Z then Some (mainnet, multi_sig)
  else if (version =? ADDRESS_VERSION.TESTNET_SINGLE_SIG)%Z then Some (testnet, single_sig)
  else if (version =? ADDRESS_VERSION.TESTNET_MULTI_SIG)%Z then Some (testnet, multi_sig)
  else None.

Definition isMainnetAddress (address : string) : bool :=
  Js.startsWith address "SP" || Js.startsWith address "SM".

Definition isTestnetAddress (address : string) : bool :=
  Js.startsWith address "ST" || Js.startsWith address "SN".

Definition getNetworkFromAddress (address : string) : option NetworkType :=
  if isMainnetAddress address then Some mainnet
  else if isTestnetAddress address then Some testnet
  else None.

Definition shortenAddress (address : string) (startChars endChars : Z) : string :=
  if Js.falsy address || (Js.length address <=? startChars + endChars + 3)%Z then
    address
  else
    Js.slice address 0 startChars ++ "..." ++ Js.slice_from address (- endChars)%Z.

(** [shortenAddress(address)] with the default [startChars = 5] and
    [endChars = 4]. *)
Definition shortenAddress_default (address : string) : string :=
  shortenAddress address 5 4.

Definition addressesEqual (address1 address2 : string) : bool :=
  if Js.falsy address1 || Js.falsy address2 then false
  else String.eqb (Js.toUpperCase address1) (Js.toUpperCase address2).

(** The version selected by [hash160ToAddress]. *)
Definition address_version (network : NetworkType) (type : AddressType) : Z :=
  match network with
  | mainnet =>
      match type with
      | single_sig => ADDRESS_VERSION.MAINNET_SINGLE_SIG
      | multi_sig => ADDRESS_VERSION.MAINNET_MULTI_SIG
      end
  | testnet =>
      match type with
      | single_sig => ADDRESS_VERSION.TESTNET_SINGLE_SIG
      | multi_sig => ADDRESS_VERSION.TESTNET_MULTI_SIG
      end
  end.

(** The functions that call into c32check, over any implementation of the
    two imported functions. *)
Section WithCodec.

Variable c32addressDecode : string -> outcome (Z * string).
Variable c32address : Z -> string -> outcome string.

Definition isValidStacksAddress (address : js_value) : outcome bool :=
  try_catch
    (if js_not address || negb (String.eqb (typeof address) "string") then
       Returned false
     else
       match address with
       | JsString s =>
           if negb (Js.startsWith s "SP") && negb (Js.startsWith s "ST") &&
              negb (Js.startsWith s "SM") && negb (Js.startsWith s "SN")
           then Returned false
           else
             let* _ := c32addressDecode s in
             Returned true
       | _ => Thrown "TypeError: address.startsWith is not a function"
       end)
    (Returned false).

Definition parseStacksAddress (address : string) : outcome (option AddressInfo) :=
  try_catch
    (let* (version, hash160) := c32addressDecode address in
     match classify version with
     | Some (network, type) =>
         Returned (Some {| address := address;
                           network := network;
                           type := type;
                           version := version;
                           hash160 := hash160;
                           isValid := true |})
     | None => Returned None
     end)
    (Returned None).

Definition hash160ToAddress (hash160 : string) (network : NetworkType)
  (type : AddressType) : outcome string :=
  let version := address_version network type in
  c32address version hash160.

End WithCodec.


(** ** Reference definitions, written from the specification's words *)

(** The four address prefixes. *)
Definition has_known_prefix (s : string) : bool :=
  Js.startsWith s "SP" || Js.startsWith s "ST" ||
  Js.startsWith s "SM" || Js.startsWith s "SN".

(** NetworkOf, read off the first two characters. *)
Definition NetworkOf_spec (a : string) : option NetworkType :=
  match a with
  | String c0 (String c1 _) =>
      if Ascii.eqb c0 "S" && (Ascii.eqb c1 "P" || Ascii.eqb c1 "M") then Some mainnet
      else if Ascii.eqb c0 "S" && (Ascii.eqb c1 "T" || Ascii.eqb c1 "N") then Some testnet
      else None
  | _ => None
  end.

(** Two characters are the same letter up to case: equal, or one is the
    upper-case letter whose lower-case form is the other. *)
Definition same_char_ignoring_case (c d : ascii) : bool :=
  Ascii.eqb c d ||
  (Js.is_upper c && Ascii.eqb (Js.lower_char c) d) ||
  (Js.is_upper d && Ascii.eqb c (Js.lower_char d)).

Fixpoint equal_ignoring_case (a b : string) : bool :=
  match a, b with
  | EmptyString, EmptyString => true
  | String c a', String d b' =>
      same_char_ignoring_case c d && equal_ignoring_case a' b'
  | _, _ => false
  end.

(** The first [n] and the last [n] characters of a string. *)
Definition first_chars (n : nat) (a : string) : string := String.substring 0 n a.
Definition last_chars (n : nat) (a : string) : string :=
  String.substring (String.length a - n) n a.

(** Every character, to settle facts about single characters by
    enumeration. *)
Definition all_ascii : list ascii := map ascii_of_nat (seq 0 256).

(** The second character is a lower-case p, m, t or n. *)
Definition second_char_lower_pmtn (s : string) : bool :=
  match s with
  | String _ (String c _) =>
      Ascii.eqb c "p" || Ascii.eqb c "m" || Ascii.eqb c "t" || Ascii.eqb c "n"
  | _ => false
  end.

Definition is_some {A : Type} (o : option A) : bool :=
  match o with Some _ => true | None => false end.

(** ** Digit sequences, to reason about the codec's loops *)

(** Value of a digit list in base [b], least significant digit first. *)
Fixpoint val_le (b : Z) (ds : list Z) : Z :=
  match ds with
  | [] => 0
  | d :: r => d + b * val_le b r
  end.

(** Most significant digit first. *)
Definition val_be (b : Z) (ds : list Z) : Z := val_le b (rev ds).

Definition in_range (b : Z) (ds : list Z) : Prop :=
  Forall (fun d => 0 <= d < b)%Z ds.

(** Without the leading zeros. *)
Definition strip0 (ds : list Z) : list Z :=
  skipn (C32.leading Z.eqb 0%Z ds) ds.

(** Without the leading zeros, an even number of them. *)
Definition strip_pairs (ds : list Z) : list Z :=
  let hz := C32.leading Z.eqb 0%Z ds in
  skipn (hz - Nat.modulo hz 2) ds.

(** Number of leading zero bytes of a list of hex digits. *)
Fixpoint lead_pairs (ds : list Z) : nat :=
  match ds with
  | hi :: lo :: r =>
      if ((16 * hi + lo)%Z =? 0)%Z then S (lead_pairs r) else O
  | _ => O
  end.

(** The digits [C32.encode_loop] emits, in the order it emits them. *)
Fixpoint enc_digits (carry : Z) (ds : list Z) : list Z :=
  match ds with
  | [] => []
  | d :: before =>
      if (carry <? 4)%Z then
        let nextCode := match before with [] => 0%Z | d' :: _ => d' end in
        (Z.shiftr d carry +
         Z.shiftl (nextCode mod Z.shiftl 1 (1 + carry)) (5 - (1 + carry)))%Z
        :: enc_digits (1 + carry) before
      else enc_digits 0 before
  end.

(** The digits [C32.decode_loop] emits, followed by the last carry. *)
Fixpoint dec_digits (carry carryBits : Z) (cs : list Z) : list Z :=
  match cs with
  | [] => [carry]
  | c :: before =>
      let flushed := if (carryBits =? 4)%Z then [carry] else [] in
      let carry0 := if (carryBits =? 4)%Z then 0%Z else carry in
      let bits0 := if (carryBits =? 4)%Z then 0%Z else carryBits in
      let currentValue := (Z.shiftl c bits0 + carry0)%Z in
      flushed ++ (currentValue mod 16)%Z ::
        dec_digits (Z.shiftr currentValue 4) (bits0 + 1) before
  end.

(** Integers [0 .. n-1], to settle facts about single digits by
    enumeration. *)
Definition below (n : nat) : list Z := map Z.of_nat (seq 0 n).

(** A digit list with no leading zero. *)
Definition stripped (ds : list Z) : Prop :=
  match ds with
  | [] => True
  | d :: _ => d <> 0%Z
  end.


(** What the digits emitted by the encoding loop are worth: the pending
    hex digit without its [carry] consumed bits, then the digits before
    it. *)
Definition enc_value (carry : Z) (ds : list Z) : Z :=
  match ds with
  | [] => 0%Z
  | d :: r => (d / 2 ^ carry + 2 ^ (4 - carry) * val_le 16 r)%Z
  end.

(** One more leading zero when the number of digits is odd. *)
Definition even_pad (ds : list Z) : list Z :=
  if Nat.odd (List.length ds) then 0%Z :: ds else ds.

(** The bytes of a list of hex digits, two digits a byte. *)
Fixpoint pair_bytes (ds : list Z) : list Z :=
  match ds with
  | hi :: lo :: r => (16 * hi + lo)%Z :: pair_bytes r
  | _ => []
  end.

(** The c32 digits of [c32encode] for a list of hex digits, and the hex
    digits of [c32decode] for a list of c32 digits. *)
Definition encoded_digits (H : list Z) : list Z :=
  repeat 0%Z (lead_pairs H) ++ strip0 (rev (enc_digits 0 (rev H))).

Definition decoded_digits (C : list Z) : list Z :=
  repeat 0%Z (2 * C32.leading Z.eqb 0%Z C) ++
  strip_pairs (even_pad (rev (dec_digits 0 0 (rev C)))).

(** The two hex digits of each byte. *)
Definition byte_digits (bs : list Z) : list Z :=
  flat_map (fun b => [b / 16; b mod 16]%Z) bs.

(** The eight hex digits of the c32check checksum of the bytes written by
    the hex digits [D]. *)
Definition checksum_digits (D : list Z) : list Z :=
  byte_digits (firstn 4 (Sha256.sha256 (Sha256.sha256 (pair_bytes D)))).

(** The two hex digits of a version below 256. *)
Definition version_digits (version : Z) : list Z :=
  [version / 16; version mod 16]%Z.

(** The c32 digits after the version character in the address of the
    version and the payload digits [D]. *)
Definition address_digits (version : Z) (D : list Z) : list Z :=
  encoded_digits (D ++ checksum_digits (version_digits version ++ D)).

(** The two-letter prefix of the addresses of a network and type. *)
Definition address_prefix (n : NetworkType) (t : AddressType) : string :=
  match n, t with
  | mainnet, single_sig => "SP"
  | mainnet, multi_sig => "SM"
  | testnet, single_sig => "ST"
  | testnet, multi_sig => "SN"
  end.

(** * The string utilities beside the address module

    The contract identifiers of the API helpers, the contract names of
    contracts.ts, the memos of memo.ts, the names of bns.ts, the
    transaction ids of format.ts and the Bitcoin reward addresses of the
    stacking utilities. *)

(** ** More of the JavaScript string library *)

Module Text.

(** White space and line terminators, among the first 256 code units. *)
Definition is_space (c : ascii) : bool :=
  let n := Z.of_nat (nat_of_ascii c) in
  ((9 <=? n) && (n <=? 13) || (n =? 32) || (n =? 160))%Z.

Fixpoint trimStart (s : string) : string :=
  match s with
  | EmptyString => EmptyString
  | String c r => if is_space c then trimStart r else s
  end.

Fixpoint trimEnd (s : string) : string :=
  match s with
  | EmptyString => EmptyString
  | String c r =>
      match trimEnd r with
      | EmptyString => if is_space c then EmptyString else String c EmptyString
      | r' => String c r'
      end
  end.

(** [s.trim()] *)
Definition trim (s : string) : string := trimEnd (trimStart s).

(** [s.split(sep)] for a one-character separator: the pieces between the
    occurrences of the separator, one piece more than there are
    occurrences. *)
Fixpoint split (sep : ascii) (s : string) : list string :=
  match s with
  | EmptyString => [EmptyString]
  | String c r =>
      if Ascii.eqb c sep then EmptyString :: split sep r
      else
        match split sep r with
        | piece :: pieces => String c piece :: pieces
        | [] => [String c EmptyString]
        end
  end.

(** [s.repeat(n)] *)
Fixpoint repeat (s : string) (n : nat) : string :=
  match n with
  | O => EmptyString
  | S k => s ++ repeat s k
  end.

(** [s.padStart(n, fill)] and [s.padEnd(n, fill)] for a one-character
    [fill]. *)
Definition padStart (s : string) (n : Z) (fill : ascii) : string :=
  repeat (String fill EmptyString) (Z.to_nat (n - Js.length s)) ++ s.

Definition padEnd (s : string) (n : Z) (fill : ascii) : string :=
  s ++ repeat (String fill EmptyString) (Z.to_nat (n - Js.length s)).

(** The character code of a character. *)
Definition code (c : ascii) : Z := Z.of_nat (nat_of_ascii c).

Definition between (lo hi c : ascii) : bool :=
  ((code lo <=? code c) && (code c <=? code hi))%Z.

End Text.

(** ** Regular expressions, matched by derivatives *)

Module Regex.

Inductive regex : Type :=
| Empty                        (* matches no string *)
| Eps                          (* matches the empty string *)
| Class (p : ascii -> bool)    (* a character class [[...]] *)
| Seq (r1 r2 : regex)          (* [r1 r2] *)
| Alt (r1 r2 : regex)          (* [r1|r2] *)
| Star (r : regex).            (* [r*] *)

(** [r+] *)
Definition Plus (r : regex) : regex := Seq r (Star r).

Fixpoint nullable (r : regex) : bool :=
  match r with
  | Empty => false
  | Eps => true
  | Class _ => false
  | Seq r1 r2 => nullable r1 && nullable r2
  | Alt r1 r2 => nullable r1 || nullable r2
  | Star _ => true
  end.

Fixpoint deriv (c : ascii) (r : regex) : regex :=
  match r with
  | Empty => Empty
  | Eps => Empty
  | Class p => if p c then Eps else Empty
  | Seq r1 r2 =>
      Alt (Seq (deriv c r1) r2) (if nullable r1 then deriv c r2 else Empty)
  | Alt r1 r2 => Alt (deriv c r1) (deriv c r2)
  | Star r1 => Seq (deriv c r1) (Star r1)
  end.

(** The whole of [s] matches [r]. *)
Fixpoint matches (r : regex) (s : string) : bool :=
  match s with
  | EmptyString => nullable r
  | String c s' => matches (deriv c r) s'
  end.

(** [/^r$/.test(s)]: without the [m] flag the anchors are the two ends of
    the string. *)
Definition test (r : regex) (s : string) : bool := matches r s.

(** The characters of [w], then [r]. *)
Fixpoint Lit (w : string) (r : regex) : regex :=
  match w with
  | EmptyString => r
  | String c w' => Seq (Class (Ascii.eqb c)) (Lit w' r)
  end.

(** [r{lo,hi}]: [lo] times [r], then up to [hi - lo] times more. *)
Fixpoint AtMost (n : nat) (r : regex) : regex :=
  match n with
  | O => Eps
  | S k => Alt Eps (Seq r (AtMost k r))
  end.

Fixpoint Counted (lo extra : nat) (r : regex) : regex :=
  match lo with
  | O => AtMost extra r
  | S k => Seq r (Counted k extra r)
  end.

Definition Repeat (lo hi : nat) (r : regex) : regex := Counted lo (hi - lo) r.

End Regex.

(** ** Contract identifiers (the API helpers) *)

Module Api.

Record ContractId : Type := {
  address : string;
  contractName : string
}.

Definition parseContractId (contractId : string) : option ContractId :=
  let parts := Text.split "." contractId in
  if negb (Nat.eqb (List.length parts) 2) then None
  else Some {| address := nth 0 parts EmptyString;
               contractName := nth 1 parts EmptyString |}.

Definition buildContractId (address contractName : string) : string :=
  address ++ "." ++ contractName.

End Api.

(** ** Contract names and Clarity literals (contracts.ts) *)

Module Contracts.

(** [[a-zA-Z]] and [[a-zA-Z0-9-]] *)
Definition letter (c : ascii) : bool :=
  Text.between "a" "z" c || Text.between "A" "Z" c.

Definition letter_digit_hyphen (c : ascii) : bool :=
  Text.between "a" "z" c || Text.between "A" "Z" c ||
  Text.between "0" "9" c || Ascii.eqb c "-".

(** [/^[a-zA-Z][a-zA-Z0-9-]*$/] *)
Definition name_regex : Regex.regex :=
  Regex.Seq (Regex.Class letter) (Regex.Star (Regex.Class letter_digit_hyphen)).

(** The parameter is a string by its signature, so that the [typeof] test
    of the guard always passes. *)
Definition isValidContractName (name : string) : bool :=
  if Js.falsy name || negb (String.eqb (typeof (JsString name)) "string") then false
  else Regex.test name_regex name && (Js.length name <=? 128)%Z.

Definition isValidFunctionName (name : string) : bool :=
  if Js.falsy name || negb (String.eqb (typeof (JsString name)) "string") then false
  else Regex.test name_regex name && (Js.length name <=? 128)%Z.

(** [contractName] is optional: [None] is a call without it. *)
Definition toClarityPrincipal (address : string) (contractName : option string)
  : string :=
  match contractName with
  | Some n =>
      if negb (Js.falsy n) then "'" ++ address ++ "." ++ n else "'" ++ address
  | None => "'" ++ address
  end.

Definition toClarityBuff (hex : string) : string :=
  let cleaned := if Js.startsWith hex "0x" then Js.slice_from hex 2 else hex in
  "0x" ++ cleaned.

End Contracts.

(** The string has a dot in it. *)
Definition has_dot (s : string) : bool := existsb (Ascii.eqb ".") (Js.chars s).

(** The number of occurrences of a character in a string. *)
Fixpoint count_char (sep : ascii) (s : string) : nat :=
  match s with
  | EmptyString => O
  | String c r => ((if Ascii.eqb c sep then 1 else 0) + count_char sep r)%nat
  end.

(** ** Transaction memos (memo.ts) *)

Module Memo.

Definition MAX_MEMO_LENGTH : Z := 34.

(** [new TextEncoder().encode(s)], the UTF-8 bytes of a string: one byte
    for a character below 128, two for a character from 128 to 255. *)
Definition utf8_char (c : ascii) : list Z :=
  let n := Text.code c in
  if (n <? 128)%Z then [n] else [192 + n / 64; 128 + n mod 64]%Z.

Definition encode (s : string) : list Z := flat_map utf8_char (Js.chars s).

Definition byte_length (s : string) : Z := Z.of_nat (List.length (encode s)).

(** [b.toString(16).padStart(2, '0')] *)
Definition byte_hex (b : Z) : string := Text.padStart (Js.toString16 b) 2 "0".

Definition encodeMemo (message : string) (padToLength : bool) : string :=
  if Js.falsy message then
    if padToLength then Text.repeat "00" (Z.to_nat MAX_MEMO_LENGTH) else ""
  else
    let bytes := encode message in
    let bytes :=
      if (Z.of_nat (List.length bytes) >? MAX_MEMO_LENGTH)%Z
      then firstn (Z.to_nat MAX_MEMO_LENGTH) bytes else bytes in
    let hex := String.concat "" (map byte_hex bytes) in
    if padToLength then Text.padEnd hex (MAX_MEMO_LENGTH * 2) "0" else hex.

(** The value of the longest run of hex digits at the start of a string;
    [None] when there is no digit. *)
Fixpoint hex_run (s : string) (acc : option Z) : option Z :=
  match s with
  | EmptyString => acc
  | String c r =>
      if C32.is_hex_char c then
        hex_run r (Some (16 * match acc with Some a => a | None => 0 end
                         + C32.hex_value c)%Z)
      else acc
  end.

(** [parseInt(s, 16)]: white space, a sign and a [0x] are skipped, then the
    hex digits are read as far as they go; [None] is [NaN]. *)
Definition parseInt16 (s : string) : option Z :=
  let s := Text.trimStart s in
  let negative := Js.char_is (Js.at_ s 0) "-" in
  let s :=
    if Js.char_is (Js.at_ s 0) "-" || Js.char_is (Js.at_ s 0) "+"
    then Js.slice_from s 1 else s in
  let s :=
    if Js.startsWith s "0x" || Js.startsWith s "0X" then Js.slice_from s 2 else s in
  match hex_run s None with
  | Some v => Some (if negative then - v else v)%Z
  | None => None
  end.

(** [byte !== 0], which holds of [NaN] *)
Definition nonzero (byte : option Z) : bool :=
  match byte with
  | Some n => negb (n =? 0)%Z
  | None => true
  end.

(** The loop of [decodeMemo]: [rest] is [cleanHex.slice(i)], two characters
    shorter at every turn, and [bytes.push(byte)] is [bytes ++ [byte]]. *)
Fixpoint decode_loop (rest : list ascii) (bytes : list (option Z))
  : list (option Z) :=
  match rest with
  | [] => bytes
  | _ :: tail =>
      let byte := parseInt16 (Js.str (firstn 2 rest)) in
      let next :=
        match tail with
        | [] => (bytes ++ [byte])%list
        | _ :: rest' => decode_loop rest' (bytes ++ [byte])%list
        end in
      if nonzero byte then next
      else if String.eqb (Js.str rest) (Text.repeat "0" (List.length rest))
      then bytes
      else next
  end.

(** An element of [new Uint8Array(bytes)] *)
Definition to_uint8 (byte : option Z) : Z :=
  match byte with
  | Some n => (n mod 256)%Z
  | None => 0%Z
  end.

(** [new TextDecoder('utf-8', { fatal: false }).decode(bytes)] for bytes
    below 128, which are the characters of the text.  With a byte from 128
    on the text has characters outside ASCII, for which this model of
    strings has no value: the result is then [None]. *)
Definition decode (bytes : list Z) : option string :=
  if forallb (fun b => (b <? 128)%Z) bytes
  then Some (Js.str (map (fun b => ascii_of_nat (Z.to_nat b)) bytes))
  else None.

Definition decodeMemo (hex : string) : option string :=
  if Js.falsy hex then Some ""
  else
    let cleanHex := if Js.startsWith hex "0x" then Js.slice_from hex 2 else hex in
    let bytes := decode_loop (Js.chars cleanHex) [] in
    match decode (map to_uint8 bytes) with
    | Some text => Some (Text.trim text)
    | None => None
    end.

Definition isValidMemo (message : string) : bool :=
  if Js.falsy message then true
  else (byte_length message <=? MAX_MEMO_LENGTH)%Z.

Definition getMemoByteLength (message : string) : Z :=
  if Js.falsy message then 0%Z else byte_length message.

(** The [while] loop of [truncateMemo], which drops the last character as
    long as the text is too long; it runs at most once for every character
    of the message. *)
Fixpoint truncate_loop (turns : nat) (truncated : string) (maxLength : Z) : string :=
  match turns with
  | O => truncated
  | S turns' =>
      if (byte_length truncated >? maxLength)%Z && (Js.length truncated >? 0)%Z
      then truncate_loop turns' (Js.slice truncated 0 (-1)) maxLength
      else truncated
  end.

Definition truncateMemo (message : string) (ellipsis : bool) : string :=
  if Js.falsy message then ""
  else if (byte_length message <=? MAX_MEMO_LENGTH)%Z then message
  else
    let maxLength := if ellipsis then (MAX_MEMO_LENGTH - 3)%Z else MAX_MEMO_LENGTH in
    let truncated :=
      truncate_loop (String.length message) message maxLength in
    if ellipsis then truncated ++ "..." else truncated.

Inductive MemoPrefix : Type :=
| EXCHANGE_ID | INVOICE | ORDER | TIP | STACK | BRIDGE.

Definition MEMO_PREFIXES (key : MemoPrefix) : string :=
  match key with
  | EXCHANGE_ID => "EX:"
  | INVOICE => "INV:"
  | ORDER => "ORD:"
  | TIP => "TIP:"
  | STACK => "STK:"
  | BRIDGE => "BRG:"
  end.

(** [Object.entries(MEMO_PREFIXES)], in the order of the declaration *)
Definition entries : list (MemoPrefix * string) :=
  map (fun key => (key, MEMO_PREFIXES key))
      [EXCHANGE_ID; INVOICE; ORDER; TIP; STACK; BRIDGE].

Definition createPrefixedMemo (prefix : MemoPrefix) (content : string) : string :=
  let fullMemo := MEMO_PREFIXES prefix ++ content in
  truncateMemo fullMemo false.

Record PrefixedMemo : Type := {
  prefix : option MemoPrefix;
  content : string
}.

Fixpoint parse_loop (entries : list (MemoPrefix * string)) (memo : string)
  : PrefixedMemo :=
  match entries with
  | [] => {| prefix := None; content := memo |}
  | (key, p) :: more =>
      if Js.startsWith memo p
      then {| prefix := Some key; content := Js.slice_from memo (Js.length p) |}
      else parse_loop more memo
  end.

Definition parsePrefixedMemo (memo : string) : PrefixedMemo :=
  parse_loop entries memo.

End Memo.

(** Text within ASCII: every character is below 128. *)
Definition is_ascii (s : string) : bool :=
  forallb (fun c => (Text.code c <? 128)%Z) (Js.chars s).

(** [p] is the beginning of [s]. *)
Definition begins (s p : string) : Prop := exists rest, s = p ++ rest.

(** The last character of the string is the character of code 0. *)
Definition ends_in_nul (s : string) : bool :=
  Ascii.eqb (List.last (Js.chars s) " "%char) Ascii.zero.

(** ** Names of the Blockchain Naming System (bns.ts) *)

Module Bns.

Definition MAX_NAME_LENGTH : Z := 48.
Definition MAX_NAMESPACE_LENGTH : Z := 20.

(** [BNS_CONSTANTS.NAMESPACES], the values in the order of the
    declaration *)
Definition NAMESPACES : list string := ["btc"; "stx"; "id"; "app"; "mega"].

(** [[a-z0-9]] and [[a-z0-9-]] *)
Definition lower_digit (c : ascii) : bool :=
  Text.between "a" "z" c || Text.between "0" "9" c.

Definition lower_digit_hyphen (c : ascii) : bool :=
  Text.between "a" "z" c || Text.between "0" "9" c || Ascii.eqb c "-".

(** [/^[a-z0-9][a-z0-9-]*[a-z0-9]$|^[a-z0-9]$/] *)
Definition name_regex : Regex.regex :=
  Regex.Alt
    (Regex.Seq (Regex.Class lower_digit)
       (Regex.Seq (Regex.Star (Regex.Class lower_digit_hyphen))
          (Regex.Class lower_digit)))
    (Regex.Class lower_digit).

(** [/^[a-z0-9]+$/] *)
Definition namespace_regex : Regex.regex := Regex.Plus (Regex.Class lower_digit).

(** The parameters are strings by their signatures, so that the [typeof]
    tests of the guards always pass. *)
Definition isValidBnsName (name : string) : bool :=
  if Js.falsy name || negb (String.eqb (typeof (JsString name)) "string") then false
  else if (Js.length name >? MAX_NAME_LENGTH)%Z then false
  else if (Js.length name <? 1)%Z then false
  else Regex.test name_regex name.

Definition isValidBnsNamespace (namespace : string) : bool :=
  if Js.falsy namespace || negb (String.eqb (typeof (JsString namespace)) "string")
  then false
  else if (Js.length namespace >? MAX_NAMESPACE_LENGTH)%Z then false
  else if (Js.length namespace <? 1)%Z then false
  else Regex.test namespace_regex namespace.

(** [error] is [None] where the object has no such property. *)
Record ParsedName : Type := {
  name : string;
  namespace : string;
  isValid : bool;
  error : option string
}.

(** The character of code 34, which stands in the second error message. *)
Definition quote : string := String (ascii_of_nat 34) EmptyString.

Definition parseBnsName (fullName : string) : ParsedName :=
  if Js.falsy fullName || negb (String.eqb (typeof (JsString fullName)) "string")
  then {| name := ""; namespace := ""; isValid := false;
          error := Some "Invalid input" |}
  else
    let parts := Text.split "." (Text.trim (Js.toLowerCase fullName)) in
    if negb (Nat.eqb (List.length parts) 2) then
      {| name := ""; namespace := ""; isValid := false;
         error := Some ("Name must be in format " ++ quote ++ "name.namespace"
                        ++ quote) |}
    else
      let name := nth 0 parts EmptyString in
      let namespace := nth 1 parts EmptyString in
      if negb (isValidBnsName name) then
        {| name := name; namespace := namespace; isValid := false;
           error := Some "Invalid name format" |}
      else if negb (isValidBnsNamespace namespace) then
        {| name := name; namespace := namespace; isValid := false;
           error := Some "Invalid namespace format" |}
      else
        {| name := name; namespace := namespace; isValid := true; error := None |}.

Definition isValidFullBnsName (fullName : string) : bool :=
  isValid (parseBnsName fullName).

Definition constructBnsName (name namespace : string) : string :=
  Js.toLowerCase name ++ "." ++ Js.toLowerCase namespace.

Definition getBnsLookupUrl (fullName : string) (network : NetworkType)
  : outcome string :=
  let parsed := parseBnsName fullName in
  if negb (isValid parsed) then Thrown "Invalid BNS name"
  else
    let baseUrl :=
      match network with
      | mainnet => "https://api.hiro.so"
      | testnet => "https://api.testnet.hiro.so"
      end in
    Returned (baseUrl ++ "/v1/names/" ++ fullName).

(** [knownNamespaces.includes(x)] *)
Definition isKnownNamespace (namespace : string) : bool :=
  existsb (String.eqb (Js.toLowerCase namespace)) NAMESPACES.

(** What [basePrices[key]] evaluates to: a price of the table, or one of
    the properties every object inherits from [Object.prototype], which are
    functions and objects. *)
Inductive table_value : Type :=
| Price (n : Z)
| Inherited.

Definition object_prototype_keys : list string :=
  ["constructor"; "__defineGetter__"; "__defineSetter__"; "hasOwnProperty";
   "__lookupGetter__"; "__lookupSetter__"; "isPrototypeOf";
   "propertyIsEnumerable"; "toString"; "valueOf"; "__proto__";
   "toLocaleString"].

(** [basePrices[key]]; [None] is [undefined]. *)
Definition basePrices (key : string) : option table_value :=
  if String.eqb key "btc" then Some (Price 2000000)
  else if String.eqb key "stx" then Some (Price 2000000)
  else if String.eqb key "id" then Some (Price 1000000)
  else if String.eqb key "app" then Some (Price 5000000)
  else if existsb (String.eqb key) object_prototype_keys then Some Inherited
  else None.

(** [basePrice * factor]: a value that is no bigint cannot be multiplied
    by one. *)
Definition times (basePrice : table_value) (factor : Z) : outcome table_value :=
  match basePrice with
  | Price n => Returned (Price (n * factor))
  | Inherited => Thrown "TypeError: Cannot mix BigInt and other types"
  end.

Definition estimateNamePrice (name namespace : string) : outcome table_value :=
  let length := Js.length name in
  let basePrice :=
    match basePrices (Js.toLowerCase namespace) with
    | Some (Price n) => if (n =? 0)%Z then Price 10000000 else Price n
    | Some Inherited => Inherited
    | None => Price 10000000
    end in
  if (length <=? 3)%Z then times basePrice 100
  else if (length <=? 5)%Z then times basePrice 10
  else if (length <=? 8)%Z then times basePrice 5
  else Returned basePrice.

End Bns.

(** A name begins, or ends, with a hyphen. *)
Definition begins_with_hyphen (s : string) : bool := Js.startsWith s "-".
Definition ends_with_hyphen (s : string) : bool :=
  Ascii.eqb (List.last (Js.chars s) " "%char) "-".

(** ** Transaction ids and hex strings (format.ts) *)

Module Format.

Definition formatTxId (txId : string) (length : Z) : string :=
  if Js.falsy txId then ""
  else
    let cleaned := if Js.startsWith txId "0x" then Js.slice_from txId 2 else txId in
    if (Js.length cleaned <=? length * 2 + 3)%Z then txId
    else
      "0x" ++ Js.slice cleaned 0 length ++ "..." ++ Js.slice_from cleaned (- length).

(** [formatTxId(txId)] with the default [length = 8]. *)
Definition formatTxId_default (txId : string) : string := formatTxId txId 8.

Definition padHex (hex : string) (length : Z) : string :=
  let cleaned := if Js.startsWith hex "0x" then Js.slice_from hex 2 else hex in
  "0x" ++ Text.padStart cleaned length "0".

End Format.

(** The string without the [0x] it may begin with. *)
Definition without_0x (s : string) : string :=
  match s with
  | String c0 (String c1 rest) =>
      if Ascii.eqb c0 "0" && Ascii.eqb c1 "x" then rest else s
  | _ => s
  end.

(** ** Bitcoin reward addresses (the stacking utilities) *)

Module Stacking.

(** [[a-km-zA-HJ-NP-Z1-9]] and [[a-z0-9]] *)
Definition base58 (c : ascii) : bool :=
  Text.between "a" "k" c || Text.between "m" "z" c ||
  Text.between "A" "H" c || Text.between "J" "N" c ||
  Text.between "P" "Z" c || Text.between "1" "9" c.

Definition lower_digit (c : ascii) : bool :=
  Text.between "a" "z" c || Text.between "0" "9" c.

(** [/^1[a-km-zA-HJ-NP-Z1-9]{25,34}$/], [/^3[a-km-zA-HJ-NP-Z1-9]{25,34}$/],
    [/^bc1q[a-z0-9]{38,58}$/] and [/^bc1p[a-z0-9]{58}$/] *)
Definition p2pkh : Regex.regex :=
  Regex.Lit "1" (Regex.Repeat 25 34 (Regex.Class base58)).
Definition p2sh : Regex.regex :=
  Regex.Lit "3" (Regex.Repeat 25 34 (Regex.Class base58)).
Definition bech32 : Regex.regex :=
  Regex.Lit "bc1q" (Regex.Repeat 38 58 (Regex.Class lower_digit)).
Definition bech32m : Regex.regex :=
  Regex.Lit "bc1p" (Regex.Repeat 58 58 (Regex.Class lower_digit)).

(** The parameter is a string by its signature, so that the [typeof] test
    of the guard always passes. *)
Definition isValidPoxBtcAddress (btcAddress : string) : bool :=
  if Js.falsy btcAddress ||
     negb (String.eqb (typeof (JsString btcAddress)) "string") then false
  else if Regex.test p2pkh btcAddress then true
  else if Regex.test p2sh btcAddress then true
  else if Regex.test bech32 btcAddress then true
  else if Regex.test bech32m btcAddress then true
  else false.

End Stacking.
(** * Test vectors *)

(** SHA-256 of "abc" (FIPS 180-4 example). *)
Example sha256_abc :
  Sha256.sha256 [97; 98; 99] =
  [0xba; 0x78; 0x16; 0xbf; 0x8f; 0x01; 0xcf; 0xea; 0x41; 0x41; 0x40; 0xde;
   0x5d; 0xae; 0x22; 0x23; 0xb0; 0x03; 0x61; 0xa3; 0x96; 0x17; 0x7a; 0x9c;
   0xb4; 0x10; 0xff; 0x61; 0xf2; 0x00; 0x15; 0xad].
Proof. vm_compute. reflexivity. Qed.

(** Addresses found in the repository's tests and constants, run through
    the codec. *)
Example decode_test_mainnet :
  C32.c32addressDecode "SP2J6ZY48GV1EZ5V2V5RB9MP66SW86PYKKNRV9EJ7" =
  Returned (22, "a46ff88886c2ef9762d970b4d2c63678835bd39d").
Proof. vm_compute. reflexivity. Qed.

Example decode_test_testnet :
  C32.c32addressDecode "ST2J6ZY48GV1EZ5V2V5RB9MP66SW86PYKKQYAC0RQ" =
  Returned (26, "a46ff88886c2ef9762d970b4d2c63678835bd39d").
Proof. vm_compute. reflexivity. Qed.

Example encode_pox_mainnet :
  hash160ToAddress C32.c32address "0000000000000000000000000000000000000000"
    mainnet single_sig = Returned "SP000000000000000000002Q6VF78".
Proof. vm_compute. reflexivity. Qed.

Example encode_pox_testnet :
  hash160ToAddress C32.c32address "0000000000000000000000000000000000000000"
    testnet single_sig = Returned "ST000000000000000000002AMW42H".
Proof. vm_compute. reflexivity. Qed.

Example validate_tests :
  isValidStacksAddress C32.c32addressDecode
    (JsString "SP2J6ZY48GV1EZ5V2V5RB9MP66SW86PYKKNRV9EJ7") = Returned true /\
  isValidStacksAddress C32.c32addressDecode
    (JsString "ST2J6ZY48GV1EZ5V2V5RB9MP66SW86PYKKQYAC0RQ") = Returned true /\
  isValidStacksAddress C32.c32addressDecode (JsString "") = Returned false /\
  isValidStacksAddress C32.c32addressDecode (JsString "invalid") = Returned false /\
  isValidStacksAddress C32.c32addressDecode (JsString "0x1234") = Returned false /\
  isValidStacksAddress C32.c32addressDecode
    (JsString "bc1qar0srrr7xfkvy5l643lydnw9re59gtzzwf5mdq") = Returned false.
Proof. vm_compute. repeat split; reflexivity. Qed.

Example shorten_custom_lengths :
  shortenAddress "SP2J6ZY48GV1EZ5V2V5RB9MP66SW86PYKKNRV9EJ7" 8 6 = "SP2J6ZY4...RV9EJ7".
Proof. vm_compute. reflexivity. Qed.

(** * Facts settled by enumeration *)

Lemma in_all_ascii (c : ascii) : In c all_ascii.
Proof.
  unfold all_ascii. rewrite <- (ascii_nat_embedding c).
  apply in_map, in_seq. pose proof (nat_ascii_bounded c). lia.
Qed.

Lemma forall_ascii (P : ascii -> bool) :
  forallb P all_ascii = true -> forall c, P c = true.
Proof.
  intros H c. rewrite forallb_forall in H. apply H, in_all_ascii.
Qed.

Lemma forall_ascii2 (P : ascii -> ascii -> bool) :
  forallb (fun c => forallb (P c) all_ascii) all_ascii = true ->
  forall c d, P c d = true.
Proof.
  intros H c d.
  apply (forall_ascii (P c)).
  apply (forall_ascii (fun c => forallb (P c) all_ascii) H).
Qed.

Lemma forall_below (P : Z -> bool) (n : nat) :
  forallb P (below n) = true ->
  forall d, (0 <= d < Z.of_nat n)%Z -> P d = true.
Proof.
  intros H d Hd. rewrite forallb_forall in H. apply H.
  unfold below. rewrite <- (Z2Nat.id d) by lia.
  apply in_map, in_seq. lia.
Qed.


(** * Digit sequences *)

Open Scope list_scope.
Open Scope Z_scope.

Section Digits.

Variable b : Z.
Hypothesis b_gt1 : (1 < b)%Z.

Lemma val_le_app (l1 l2 : list Z) :
  val_le b (l1 ++ l2) = (val_le b l1 + b ^ Z.of_nat (List.length l1) * val_le b l2)%Z.
Proof.
  induction l1 as [|d l1 IH].
  - cbn [app val_le List.length]. change (Z.of_nat 0) with 0%Z.
    rewrite Z.pow_0_r. lia.
  - cbn [app val_le List.length]. rewrite IH, Nat2Z.inj_succ, Z.pow_succ_r by lia.
    lia.
Qed.

Lemma val_le_bound (ds : list Z) :
  in_range b ds -> (0 <= val_le b ds < b ^ Z.of_nat (List.length ds))%Z.
Proof.
  induction 1 as [|d ds Hd _ IH].
  - cbn [val_le List.length]. change (Z.of_nat 0) with 0%Z.
    rewrite Z.pow_0_r. lia.
  - cbn [val_le List.length]. rewrite Nat2Z.inj_succ, Z.pow_succ_r by lia. nia.
Qed.

Lemma val_be_cons (d : Z) (ds : list Z) :
  val_be b (d :: ds) = (d * b ^ Z.of_nat (List.length ds) + val_be b ds)%Z.
Proof.
  unfold val_be. cbn [rev]. rewrite val_le_app, length_rev.
  cbn [val_le]. lia.
Qed.

Lemma val_be_snoc (ds : list Z) (d : Z) :
  val_be b (ds ++ [d]) = (d + b * val_be b ds)%Z.
Proof. unfold val_be. rewrite rev_app_distr. reflexivity. Qed.

Lemma val_be_bound (ds : list Z) :
  in_range b ds -> (0 <= val_be b ds < b ^ Z.of_nat (List.length ds))%Z.
Proof.
  intro H. unfold val_be. rewrite <- length_rev.
  apply val_le_bound. apply Forall_rev, H.
Qed.

Lemma val_be_zero_cons (ds : list Z) : val_be b (0%Z :: ds) = val_be b ds.
Proof. rewrite val_be_cons. lia. Qed.

Lemma val_be_zeros (k : nat) (ds : list Z) :
  val_be b (repeat 0%Z k ++ ds) = val_be b ds.
Proof.
  induction k as [|k IH]; [reflexivity|].
  cbn [repeat app]. rewrite val_be_zero_cons. exact IH.
Qed.

(** Equal length and equal value: equal digits. *)
Lemma val_le_inj (l1 l2 : list Z) :
  in_range b l1 -> in_range b l2 -> List.length l1 = List.length l2 ->
  val_le b l1 = val_le b l2 -> l1 = l2.
Proof.
  intros H1. revert l2. induction H1 as [|d l1 Hd _ IH]; intros l2 H2 L E.
  - destruct l2; [reflexivity|discriminate].
  - destruct H2 as [|e l2 He H2]; [discriminate|].
    cbn [val_le] in E. injection L as L.
    assert (V : val_le b l1 = val_le b l2).
    { destruct (Z.lt_trichotomy (val_le b l1) (val_le b l2)) as [T|[T|T]];
        [exfalso; nia|exact T|exfalso; nia]. }
    rewrite V in E. assert (d = e) by lia. subst e.
    f_equal. apply IH; assumption.
Qed.

Lemma val_be_inj (l1 l2 : list Z) :
  in_range b l1 -> in_range b l2 -> List.length l1 = List.length l2 ->
  val_be b l1 = val_be b l2 -> l1 = l2.
Proof.
  intros H1 H2 L E. rewrite <- (rev_involutive l1), <- (rev_involutive l2).
  f_equal. apply val_le_inj; try (apply Forall_rev; assumption).
  - rewrite !length_rev. exact L.
  - exact E.
Qed.

(** A list that does not start with zero has as many digits as its
    value needs. *)
Lemma val_be_lower (d : Z) (ds : list Z) :
  in_range b (d :: ds) -> d <> 0%Z ->
  (b ^ Z.of_nat (List.length ds) <= val_be b (d :: ds))%Z.
Proof.
  intros H Hd. inversion H as [|? ? Hd' Hds]; subst.
  rewrite val_be_cons. pose proof (val_be_bound ds Hds).
  assert (0 < b ^ Z.of_nat (List.length ds))%Z by (apply Z.pow_pos_nonneg; lia).
  nia.
Qed.

End Digits.

Lemma strip0_cons_zero (ds : list Z) : strip0 (0%Z :: ds) = strip0 ds.
Proof. reflexivity. Qed.

Lemma strip0_cons_nonzero (d : Z) (ds : list Z) :
  d <> 0%Z -> strip0 (d :: ds) = d :: ds.
Proof.
  intro H. unfold strip0. cbn [C32.leading].
  destruct (Z.eqb_spec d 0); [contradiction|reflexivity].
Qed.

Lemma strip0_stripped (ds : list Z) : stripped (strip0 ds).
Proof.
  induction ds as [|d ds IH]; [exact I|].
  destruct (Z.eq_dec d 0) as [->|n].
  - rewrite strip0_cons_zero. exact IH.
  - rewrite strip0_cons_nonzero by assumption. exact n.
Qed.

Lemma strip0_id (ds : list Z) : stripped ds -> strip0 ds = ds.
Proof.
  destruct ds as [|d ds]; [reflexivity|].
  intro H. apply strip0_cons_nonzero, H.
Qed.

Lemma strip0_split (ds : list Z) :
  ds = repeat 0%Z (C32.leading Z.eqb 0%Z ds) ++ strip0 ds.
Proof.
  induction ds as [|d ds IH]; [reflexivity|].
  destruct (Z.eq_dec d 0) as [->|n].
  - rewrite strip0_cons_zero. cbn [C32.leading Z.eqb repeat app]. f_equal. exact IH.
  - rewrite strip0_cons_nonzero by assumption. cbn [C32.leading].
    destruct (Z.eqb_spec d 0); [contradiction|reflexivity].
Qed.

Lemma strip0_in_range (b : Z) (ds : list Z) : in_range b ds -> in_range b (strip0 ds).
Proof.
  intro H. unfold in_range in *. rewrite (strip0_split ds) in H.
  apply Forall_app in H. apply H.
Qed.

Lemma val_be_strip0 (b : Z) (ds : list Z) : val_be b (strip0 ds) = val_be b ds.
Proof.
  rewrite (strip0_split ds) at 2. rewrite val_be_zeros. reflexivity.
Qed.

Lemma leading_zeros_app (k : nat) (ds : list Z) :
  stripped ds -> C32.leading Z.eqb 0%Z (repeat 0%Z k ++ ds) = k.
Proof.
  intro H. induction k as [|k IH].
  - destruct ds as [|d ds]; [reflexivity|]. cbn [repeat app C32.leading].
    destruct (Z.eqb_spec d 0); [contradiction|reflexivity].
  - cbn [repeat app C32.leading Z.eqb]. f_equal. exact IH.
Qed.

(** The stripped digit list of a number is unique. *)
Lemma stripped_unique (b : Z) (l1 l2 : list Z) :
  (1 < b)%Z -> in_range b l1 -> in_range b l2 -> stripped l1 -> stripped l2 ->
  val_be b l1 = val_be b l2 -> l1 = l2.
Proof.
  intros Hb R1 R2 S1 S2 E.
  apply (val_be_inj b Hb); try assumption.
  pose proof (val_be_bound b Hb l1 R1) as B1.
  pose proof (val_be_bound b Hb l2 R2) as B2.
  destruct (Nat.lt_trichotomy (List.length l1) (List.length l2)) as [L|[L|L]];
    [exfalso|exact L|exfalso].
  - destruct l2 as [|d l2]; [simpl in L; lia|].
    pose proof (val_be_lower b Hb d l2 R2 S2) as Lo.
    assert (b ^ Z.of_nat (List.length l1) <= b ^ Z.of_nat (List.length l2))%Z
      by (apply Z.pow_le_mono_r; simpl in L; lia).
    lia.
  - destruct l1 as [|d l1]; [simpl in L; lia|].
    pose proof (val_be_lower b Hb d l1 R1 S1) as Lo.
    assert (b ^ Z.of_nat (List.length l2) <= b ^ Z.of_nat (List.length l1))%Z
      by (apply Z.pow_le_mono_r; simpl in L; lia).
    lia.
Qed.

Lemma strip0_unique (b : Z) (l1 l2 : list Z) :
  (1 < b)%Z -> in_range b l1 -> in_range b l2 ->
  val_be b l1 = val_be b l2 -> strip0 l1 = strip0 l2.
Proof.
  intros Hb R1 R2 E.
  apply (stripped_unique b); auto using strip0_in_range, strip0_stripped.
  rewrite !val_be_strip0. exact E.
Qed.

(** ** The two digit loops compute a change of base *)

(** Evaluate the closed powers of two of the goal and the hypotheses. *)
Ltac pow2_consts :=
  repeat match goal with
  | |- context [Z.pow 2 ?e] =>
      let v := eval vm_compute in (Z.pow 2 e) in change (Z.pow 2 e) with v
  | H : context [Z.pow 2 ?e] |- _ =>
      let v := eval vm_compute in (Z.pow 2 e) in change (Z.pow 2 e) with v in H
  end.

Ltac small_cases c :=
  let H := fresh "Hc" in
  assert (H : c = 0 \/ c = 1 \/ c = 2 \/ c = 3 \/ c = 4) by lia;
  destruct H as [H|[H|[H|[H|H]]]]; subst c.

Lemma enc_digits_value (ds : list Z) :
  forall carry, 0 <= carry <= 4 -> in_range 16 ds ->
  val_le 32 (enc_digits carry ds) = enc_value carry ds.
Proof.
  induction ds as [|d ds IH]; intros carry Hc R; [reflexivity|].
  inversion R as [|? ? Hd Rds]; subst.
  cbn [enc_digits].
  destruct (Z.ltb_spec carry 4) as [L|L].
  - cbn [val_le]. rewrite IH by (assumption || lia).
    rewrite Z.shiftr_div_pow2, !Z.shiftl_mul_pow2 by lia.
    destruct ds as [|d' ds'].
    + cbn [enc_value val_le]. rewrite Z.mod_0_l by (small_cases carry; lia). lia.
    + inversion Rds as [|? ? Hd' _]; subst.
      cbn [enc_value val_le].
      small_cases carry; try lia;
        pow2_consts;
        Z.div_mod_to_equations; lia.
  - assert (carry = 4) by lia. subst carry.
    rewrite IH by (assumption || lia).
    cbn [enc_value]. change (2 ^ (4 - 4)) with 1. change (2 ^ 4) with 16.
    rewrite (Z.div_small d 16) by lia.
    destruct ds as [|d' ds']; cbn [enc_value val_le].
    + lia.
    + change (2 ^ 0) with 1. change (2 ^ (4 - 0)) with 16.
      rewrite Z.div_1_r. lia.
Qed.

Lemma enc_digits_range (ds : list Z) :
  forall carry, 0 <= carry <= 4 -> in_range 16 ds ->
  in_range 32 (enc_digits carry ds).
Proof.
  induction ds as [|d ds IH]; intros carry Hc R; [constructor|].
  inversion R as [|? ? Hd Rds]; subst.
  cbn [enc_digits].
  destruct (Z.ltb_spec carry 4) as [L|L].
  - constructor; [|apply IH; (assumption || lia)].
    rewrite Z.shiftr_div_pow2, !Z.shiftl_mul_pow2 by lia.
    assert (N : 0 <= match ds with [] => 0 | d' :: _ => d' end < 16).
    { destruct Rds; lia. }
    revert N. generalize (match ds with [] => 0 | d' :: _ => d' end). intros n N.
    small_cases carry; try lia;
      pow2_consts;
      Z.div_mod_to_equations; lia.
  - apply IH; (assumption || lia).
Qed.

Lemma dec_digits_spec (cs : list Z) :
  forall carry carryBits,
    0 <= carryBits <= 4 -> 0 <= carry < 2 ^ carryBits -> in_range 32 cs ->
    val_le 16 (dec_digits carry carryBits cs) = carry + 2 ^ carryBits * val_le 32 cs /\
    in_range 16 (dec_digits carry carryBits cs).
Proof.
  induction cs as [|c cs IH]; intros carry bits Hb Hc R.
  - cbn [dec_digits val_le]. split; [lia|].
    constructor; [|constructor].
    assert (2 ^ bits <= 2 ^ 4) by (apply Z.pow_le_mono_r; lia).
    change (2 ^ 4) with 16 in *. lia.
  - inversion R as [|? ? Hd Rcs]; subst.
    cbn [dec_digits].
    destruct (Z.eqb_spec bits 4) as [->|N].
    + change (2 ^ 4) with 16 in *.
      rewrite Z.shiftl_mul_pow2, Z.shiftr_div_pow2 by lia.
      change (2 ^ 0) with 1. change (2 ^ 4) with 16. change (0 + 1) with 1.
      destruct (IH ((c * 1 + 0) / 16) 1) as [V Rg]; [lia| |assumption|].
      { change (2 ^ 1) with 2. Z.div_mod_to_equations; lia. }
      cbn [app val_le]. rewrite V. change (2 ^ 1) with 2.
      split.
      * Z.div_mod_to_equations; lia.
      * constructor; [lia|]. constructor; [Z.div_mod_to_equations; lia|exact Rg].
    + rewrite Z.shiftl_mul_pow2, Z.shiftr_div_pow2 by lia.
      change (2 ^ 4) with 16.
      destruct (IH ((c * 2 ^ bits + carry) / 16) (bits + 1)) as [V Rg];
        [lia| |assumption|].
      { small_cases bits; try lia;
          pow2_consts;
          Z.div_mod_to_equations; lia. }
      cbn [app val_le]. rewrite V.
      split.
      * small_cases bits; try lia;
          pow2_consts;
          Z.div_mod_to_equations; lia.
      * constructor; [Z.div_mod_to_equations; lia|exact Rg].
Qed.

(** * The codec's loops, read as digit sequences *)

Lemma chars_str (l : list ascii) : Js.chars (Js.str l) = l.
Proof. apply list_ascii_of_string_of_list_ascii. Qed.

Lemma str_chars (s : string) : Js.str (Js.chars s) = s.
Proof. apply string_of_list_ascii_of_string. Qed.

Lemma length_str (l : list ascii) : Js.length (Js.str l) = Z.of_nat (List.length l).
Proof.
  unfold Js.length. f_equal.
  induction l as [|c l IH]; [reflexivity|]. simpl. f_equal. exact IH.
Qed.

Lemma length_nonneg (s : string) : (0 <= Js.length s)%Z.
Proof. unfold Js.length. lia. Qed.

Lemma str_app (l1 l2 : list ascii) : Js.str (l1 ++ l2) = (Js.str l1 ++ Js.str l2)%string.
Proof.
  induction l1 as [|c l1 IH]; [reflexivity|].
  cbn [app Js.str string_of_list_ascii String.append]. f_equal. exact IH.
Qed.

Lemma str_cons (c : ascii) (l : list ascii) : Js.str (c :: l) = String c (Js.str l).
Proof. reflexivity. Qed.

(** ** Digits and their characters *)

Ltac bool_facts :=
  repeat match goal with
  | H : Z.eqb _ _ = true |- _ => apply Z.eqb_eq in H
  | H : Ascii.eqb _ _ = true |- _ => apply Ascii.eqb_eq in H
  | H : Bool.eqb _ _ = true |- _ => apply eqb_prop in H
  | H : Z.leb _ _ = true |- _ => apply Z.leb_le in H
  | H : Z.ltb _ _ = true |- _ => apply Z.ltb_lt in H
  end.

Lemma hex_at_facts (d : Z) :
  0 <= d < 16 ->
  Js.indexOf C32.hex (C32.hex_at d) = d /\
  C32.is_hex_char (C32.hex_at d) = true /\
  Js.lower_char (C32.hex_at d) = C32.hex_at d /\
  C32.hex_value (C32.hex_at d) = d /\
  Ascii.eqb (C32.hex_at d) "0" = (d =? 0).
Proof.
  intro H.
  pose proof (forall_below
    (fun d => (Js.indexOf C32.hex (C32.hex_at d) =? d) &&
              C32.is_hex_char (C32.hex_at d) &&
              Ascii.eqb (Js.lower_char (C32.hex_at d)) (C32.hex_at d) &&
              (C32.hex_value (C32.hex_at d) =? d) &&
              Bool.eqb (Ascii.eqb (C32.hex_at d) "0") (d =? 0))
    16 eq_refl d H) as F.
  cbv beta in F.
  repeat (apply andb_true_iff in F; destruct F as [F ?]).
  bool_facts. repeat split; assumption.
Qed.

Lemma hex_char_facts (c : ascii) :
  C32.is_hex_char c = true -> Js.lower_char c = c ->
  C32.hex_at (Js.indexOf C32.hex c) = c /\ 0 <= Js.indexOf C32.hex c < 16.
Proof.
  intros H L.
  pose proof (forall_ascii
    (fun c => implb (C32.is_hex_char c && Ascii.eqb (Js.lower_char c) c)
                (Ascii.eqb (C32.hex_at (Js.indexOf C32.hex c)) c &&
                 (0 <=? Js.indexOf C32.hex c) && (Js.indexOf C32.hex c <? 16)))
    eq_refl c) as F.
  cbv beta in F. rewrite H, L, Ascii.eqb_refl in F. cbn [andb implb] in F.
  repeat (apply andb_true_iff in F; destruct F as [F ?]).
  bool_facts. split; [exact F|lia].
Qed.

Lemma c32_at_facts (d : Z) :
  0 <= d < 32 ->
  Js.indexOf C32.c32 (C32.c32_at d) = d /\
  C32.is_c32_char (C32.c32_at d) = true /\
  C32.normalize_char (C32.c32_at d) = C32.c32_at d /\
  Ascii.eqb (C32.c32_at d) "0" = (d =? 0).
Proof.
  intro H.
  pose proof (forall_below
    (fun d => (Js.indexOf C32.c32 (C32.c32_at d) =? d) &&
              C32.is_c32_char (C32.c32_at d) &&
              Ascii.eqb (C32.normalize_char (C32.c32_at d)) (C32.c32_at d) &&
              Bool.eqb (Ascii.eqb (C32.c32_at d) "0") (d =? 0))
    32 eq_refl d H) as F.
  cbv beta in F.
  repeat (apply andb_true_iff in F; destruct F as [F ?]).
  bool_facts. repeat split; assumption.
Qed.

Lemma c32_char_facts (c : ascii) :
  C32.is_c32_char c = true ->
  C32.c32_at (Js.indexOf C32.c32 c) = c /\ 0 <= Js.indexOf C32.c32 c < 32.
Proof.
  intros H.
  pose proof (forall_ascii
    (fun c => implb (C32.is_c32_char c)
                (Ascii.eqb (C32.c32_at (Js.indexOf C32.c32 c)) c &&
                 (0 <=? Js.indexOf C32.c32 c) && (Js.indexOf C32.c32 c <? 32)))
    eq_refl c) as F.
  cbv beta in F. rewrite H in F. cbn [implb] in F.
  repeat (apply andb_true_iff in F; destruct F as [F ?]).
  bool_facts. split; [exact F|lia].
Qed.

Lemma normalize_char_idem (c : ascii) :
  C32.normalize_char (C32.normalize_char c) = C32.normalize_char c.
Proof.
  apply Ascii.eqb_eq.
  apply (forall_ascii
    (fun c => Ascii.eqb (C32.normalize_char (C32.normalize_char c))
                        (C32.normalize_char c))).
  reflexivity.
Qed.

Lemma map_hex_index (H : list Z) :
  in_range 16 H -> map (Js.indexOf C32.hex) (map C32.hex_at H) = H.
Proof.
  induction 1 as [|d H Hd _ IH]; [reflexivity|].
  cbn [map]. rewrite IH. f_equal. apply (hex_at_facts d Hd).
Qed.

Lemma map_c32_index (C : list Z) :
  in_range 32 C -> map (Js.indexOf C32.c32) (map C32.c32_at C) = C.
Proof.
  induction 1 as [|d C Hd _ IH]; [reflexivity|].
  cbn [map]. rewrite IH. f_equal. apply (c32_at_facts d Hd).
Qed.

Lemma leading_hex_chars (H : list Z) :
  in_range 16 H ->
  C32.leading Ascii.eqb "0"%char (map C32.hex_at H) = C32.leading Z.eqb 0 H.
Proof.
  induction 1 as [|d H Hd _ IH]; [reflexivity|].
  cbn [map C32.leading].
  destruct (hex_at_facts d Hd) as (_ & _ & _ & _ & E). rewrite E, IH. reflexivity.
Qed.

Lemma leading_c32_chars (C : list Z) :
  in_range 32 C ->
  C32.leading Ascii.eqb "0"%char (map C32.c32_at C) = C32.leading Z.eqb 0 C.
Proof.
  induction 1 as [|d C Hd _ IH]; [reflexivity|].
  cbn [map C32.leading].
  destruct (c32_at_facts d Hd) as (_ & _ & _ & E). rewrite E, IH. reflexivity.
Qed.

(** ** The loops *)

Lemma encode_loop_digits (rin : list ascii) :
  forall carry res,
    C32.encode_loop carry rin res =
    rev (map C32.c32_at (enc_digits carry (map (Js.indexOf C32.hex) rin))) ++ res.
Proof.
  induction rin as [|ch before IH]; intros carry res; [reflexivity|].
  cbn [C32.encode_loop enc_digits map].
  destruct (carry <? 4).
  - rewrite IH. cbn [map rev]. rewrite <- app_assoc. cbn [app].
    destruct before; reflexivity.
  - apply IH.
Qed.

Lemma dec_carry_bound (c carry bits : Z) :
  0 <= c < 32 -> 0 <= bits < 4 -> 0 <= carry < 2 ^ bits ->
  0 <= (c * 2 ^ bits + carry) / 16 < 2 ^ (bits + 1).
Proof.
  intros Hc Hb Hcarry.
  assert (Hb' : bits = 0 \/ bits = 1 \/ bits = 2 \/ bits = 3) by lia.
  destruct Hb' as [-> | [-> | [-> | ->]]]; pow2_consts;
    Z.div_mod_to_equations; lia.
Qed.

Lemma decode_loop_digits (rin : list ascii) :
  forall carry bits res,
    0 <= bits <= 4 -> 0 <= carry < 2 ^ bits ->
    in_range 32 (map (Js.indexOf C32.c32) rin) ->
    bind (C32.decode_loop carry bits rin res)
         (fun p => Returned (C32.hex_at (snd p) :: fst p)) =
    Returned (rev (map C32.hex_at
                     (dec_digits carry bits (map (Js.indexOf C32.c32) rin))) ++ res).
Proof.
  induction rin as [|ch before IH]; intros carry bits res Hb Hc R; [reflexivity|].
  cbn [map] in R. inversion R as [|? ? Hd Rb]; subst.
  cbn [C32.decode_loop dec_digits map].
  destruct (Z.eqb_spec bits 4) as [->|N].
  - rewrite !Z.shiftl_mul_pow2, !Z.shiftr_div_pow2 by lia.
    change (2 ^ 0) with 1. change (0 + 1) with 1. change (2 ^ 1) with 2.
    change (1 * 2) with 2.
    destruct (Z.gtb_spec ((Js.indexOf C32.c32 ch * 1 + 0) / 2 ^ 4) 2) as [G|G].
    { exfalso. change (2 ^ 4) with 16 in G. Z.div_mod_to_equations; lia. }
    rewrite IH; [|lia| |assumption].
    + cbn [app map rev]. rewrite <- !app_assoc. reflexivity.
    + change (2 ^ 4) with 16. change (2 ^ 1) with 2. Z.div_mod_to_equations; lia.
  - rewrite !Z.shiftl_mul_pow2, !Z.shiftr_div_pow2 by lia.
    change (2 ^ 4) with 16.
    pose proof (dec_carry_bound (Js.indexOf C32.c32 ch) carry bits Hd
                  ltac:(lia) Hc) as B.
    rewrite Z.mul_1_l.
    destruct (Z.gtb_spec ((Js.indexOf C32.c32 ch * 2 ^ bits + carry) / 16)
                (2 ^ (bits + 1))) as [G|G]; [lia|].
    rewrite IH; [|lia|exact B|assumption].
    cbn [app map rev]. rewrite <- !app_assoc. reflexivity.
Qed.

(** * Bytes as pairs of hex digits *)

Lemma pair_ind (P : list Z -> Prop) :
  P [] -> (forall x, P [x]) -> (forall x y r, P r -> P (x :: y :: r)) ->
  forall l, P l.
Proof.
  intros H0 H1 H2 l.
  enough (P l /\ forall x, P (x :: l)) by tauto.
  induction l as [|y l [IH1 IH2]]; split; auto.
Qed.

Lemma even_length_cons2 (x y : Z) (r : list Z) :
  Nat.even (List.length (x :: y :: r)) = Nat.even (List.length r).
Proof. reflexivity. Qed.

Lemma odd_length_cons (x : Z) (r : list Z) :
  Nat.odd (List.length (x :: r)) = Nat.even (List.length r).
Proof. cbn [List.length]. rewrite Nat.odd_succ. reflexivity. Qed.

Lemma even_pad_even (ds : list Z) : Nat.even (List.length (even_pad ds)) = true.
Proof.
  unfold even_pad. destruct (Nat.odd (List.length ds)) eqn:O.
  - cbn [List.length]. rewrite Nat.even_succ. exact O.
  - rewrite <- Nat.negb_odd, O. reflexivity.
Qed.

Lemma even_pad_value (b : Z) (ds : list Z) : val_be b (even_pad ds) = val_be b ds.
Proof.
  unfold even_pad. destruct (Nat.odd (List.length ds)); [|reflexivity].
  unfold val_be. cbn [rev]. rewrite val_le_app. cbn [val_le]. lia.
Qed.

Lemma even_pad_range (b : Z) (ds : list Z) :
  1 < b -> in_range b ds -> in_range b (even_pad ds).
Proof.
  intros Hb H. unfold even_pad. destruct (Nat.odd (List.length ds)); [|exact H].
  constructor; [lia|exact H].
Qed.

Lemma even_pad_id (ds : list Z) :
  Nat.even (List.length ds) = true -> even_pad ds = ds.
Proof.
  intro E. unfold even_pad. rewrite <- Nat.negb_even, E. reflexivity.
Qed.

Lemma strip_pairs_cons00 (r : list Z) : strip_pairs (0 :: 0 :: r) = strip_pairs r.
Proof.
  unfold strip_pairs. cbn [C32.leading Z.eqb].
  set (h := C32.leading Z.eqb 0 r).
  replace (S (S h) - Nat.modulo (S (S h)) 2)%nat
    with (S (S (h - Nat.modulo h 2)))%nat.
  - reflexivity.
  - assert (Nat.modulo (S (S h)) 2 = Nat.modulo h 2) as ->.
    { replace (S (S h)) with (h + 1 * 2)%nat by lia. apply Nat.Div0.mod_add. }
    pose proof (Nat.mod_upper_bound h 2 ltac:(lia)).
    pose proof (Nat.Div0.mod_le h 2). lia.
Qed.

Lemma strip_pairs_nonzero_byte (x y : Z) (r : list Z) :
  x <> 0 \/ y <> 0 -> strip_pairs (x :: y :: r) = x :: y :: r.
Proof.
  intro H. unfold strip_pairs. cbn [C32.leading].
  destruct (Z.eqb_spec x 0) as [->|Nx]; [|reflexivity].
  destruct (Z.eqb_spec y 0) as [->|Ny]; [lia|reflexivity].
Qed.

Lemma zero_byte (x y : Z) :
  0 <= x < 16 -> 0 <= y < 16 -> (16 * x + y =? 0) = true -> x = 0 /\ y = 0.
Proof. intros Hx Hy E. apply Z.eqb_eq in E. lia. Qed.

Lemma nonzero_byte (x y : Z) :
  0 <= x < 16 -> 0 <= y < 16 -> (16 * x + y =? 0) = false -> x <> 0 \/ y <> 0.
Proof. intros Hx Hy E. apply Z.eqb_neq in E. lia. Qed.

(** A hex digit list is its leading zero bytes followed by the rest. *)
Lemma split_pairs (A : list Z) :
  in_range 16 A -> A = repeat 0 (2 * lead_pairs A) ++ strip_pairs A.
Proof.
  induction A as [| x | x y r IH] using pair_ind; intro R.
  - reflexivity.
  - cbn [lead_pairs Nat.mul repeat app]. unfold strip_pairs. cbn [C32.leading].
    destruct (x =? 0); reflexivity.
  - inversion R as [|? ? Hx R']; subst. inversion R' as [|? ? Hy Rr]; subst.
    cbn [lead_pairs]. destruct (16 * x + y =? 0) eqn:E.
    + destruct (zero_byte x y Hx Hy E) as [-> ->].
      rewrite strip_pairs_cons00.
      replace (2 * S (lead_pairs r))%nat with (S (S (2 * lead_pairs r))) by lia.
      cbn [repeat app]. do 2 f_equal. apply IH, Rr.
    + rewrite strip_pairs_nonzero_byte by (apply nonzero_byte; assumption).
      reflexivity.
Qed.

Lemma strip_pairs_even_pad (A : list Z) :
  Nat.even (List.length A) = true -> strip_pairs A = even_pad (strip0 A).
Proof.
  induction A as [| x | x y r IH] using pair_ind; intro E.
  - reflexivity.
  - discriminate.
  - rewrite even_length_cons2 in E.
    destruct (Z.eq_dec x 0) as [->|Nx].
    + destruct (Z.eq_dec y 0) as [->|Ny].
      * rewrite strip_pairs_cons00, !strip0_cons_zero. apply IH, E.
      * rewrite strip_pairs_nonzero_byte by auto.
        rewrite strip0_cons_zero, strip0_cons_nonzero by assumption.
        unfold even_pad. rewrite odd_length_cons, E. reflexivity.
    + rewrite strip_pairs_nonzero_byte by auto.
      rewrite strip0_cons_nonzero by assumption.
      symmetry. apply even_pad_id. rewrite even_length_cons2. exact E.
Qed.

Lemma strip_pairs_unique (A B : list Z) :
  in_range 16 A -> in_range 16 B ->
  Nat.even (List.length A) = true -> Nat.even (List.length B) = true ->
  val_be 16 A = val_be 16 B -> strip_pairs A = strip_pairs B.
Proof.
  intros RA RB EA EB V.
  rewrite !strip_pairs_even_pad by assumption.
  f_equal. apply (strip0_unique 16); (assumption || lia).
Qed.

Lemma strip_pairs_value (A : list Z) :
  in_range 16 A -> val_be 16 (strip_pairs A) = val_be 16 A.
Proof.
  intro R. rewrite (split_pairs A R) at 2. rewrite val_be_zeros. reflexivity.
Qed.

Lemma strip_pairs_range (A : list Z) : in_range 16 A -> in_range 16 (strip_pairs A).
Proof.
  intro R. pose proof R as R'. unfold in_range in *.
  rewrite (split_pairs A R') in R. apply Forall_app in R. apply R.
Qed.

Lemma strip_pairs_even (A : list Z) :
  Nat.even (List.length A) = true -> Nat.even (List.length (strip_pairs A)) = true.
Proof. intro E. rewrite strip_pairs_even_pad by exact E. apply even_pad_even. Qed.

Lemma lead_pairs_zeros (k : nat) (T : list Z) :
  lead_pairs (repeat 0 (2 * k) ++ T) = (k + lead_pairs T)%nat.
Proof.
  induction k as [|k IH]; [reflexivity|].
  replace (2 * S k)%nat with (S (S (2 * k))) by lia.
  cbn [repeat app lead_pairs]. change (16 * 0 + 0 =? 0) with true. cbn iota.
  rewrite IH. reflexivity.
Qed.

Lemma lead_pairs_stripped (S : list Z) :
  in_range 16 S -> stripped S -> lead_pairs (even_pad S) = 0%nat.
Proof.
  intros R St. unfold even_pad.
  destruct S as [|s [|s' S']].
  - reflexivity.
  - cbn [List.length Nat.odd Nat.even negb lead_pairs].
    destruct (Z.eqb_spec (16 * 0 + s) 0); [|reflexivity].
    cbn [stripped] in St. lia.
  - inversion R as [|? ? Hs R']; subst. inversion R' as [|? ? Hs' _]; subst.
    cbn [stripped] in St.
    destruct (Nat.odd (List.length (s :: s' :: S'))); cbn [lead_pairs].
    + destruct (Z.eqb_spec (16 * 0 + s) 0); [lia|reflexivity].
    + destruct (Z.eqb_spec (16 * s + s') 0); [lia|reflexivity].
Qed.

Lemma lead_pairs_bytes (H : list Z) :
  C32.leading Z.eqb 0 (pair_bytes H) = lead_pairs H.
Proof.
  induction H as [| x | x y r IH] using pair_ind; try reflexivity.
  cbn [pair_bytes C32.leading lead_pairs]. rewrite IH. reflexivity.
Qed.

Lemma hexToBytes_digits (H : list Z) :
  in_range 16 H -> Nat.even (List.length H) = true ->
  C32.hexToBytes_chars (map C32.hex_at H) = Returned (pair_bytes H).
Proof.
  induction H as [| x | x y r IH] using pair_ind; intros R E.
  - reflexivity.
  - discriminate.
  - inversion R as [|? ? Hx R']; subst. inversion R' as [|? ? Hy Rr]; subst.
    cbn [map C32.hexToBytes_chars pair_bytes].
    destruct (hex_at_facts x Hx) as (_ & -> & _ & -> & _).
    destruct (hex_at_facts y Hy) as (_ & -> & _ & -> & _).
    cbn [andb]. rewrite IH by assumption. reflexivity.
Qed.

(** * [c32encode] and [c32decode] on digit sequences *)

Lemma toLowerCase_str (l : list ascii) :
  Js.toLowerCase (Js.str l) = Js.str (map Js.lower_char l).
Proof.
  induction l as [|c l IH]; [reflexivity|].
  cbn [map]. rewrite !str_cons. cbn [Js.toLowerCase]. rewrite IH. reflexivity.
Qed.

Lemma c32normalize_str (l : list ascii) :
  C32.c32normalize (Js.str l) = Js.str (map C32.normalize_char l).
Proof.
  induction l as [|c l IH]; [reflexivity|].
  cbn [map]. rewrite !str_cons. cbn [C32.c32normalize]. rewrite IH. reflexivity.
Qed.

Lemma hex_digits_lower (H : list Z) :
  in_range 16 H -> map Js.lower_char (map C32.hex_at H) = map C32.hex_at H.
Proof.
  induction 1 as [|d H Hd _ IH]; [reflexivity|].
  cbn [map]. rewrite IH. f_equal. apply (hex_at_facts d Hd).
Qed.

Lemma hex_digits_are_hex (H : list Z) :
  in_range 16 H -> forallb C32.is_hex_char (map C32.hex_at H) = true.
Proof.
  induction 1 as [|d H Hd _ IH]; [reflexivity|].
  cbn [map forallb]. rewrite IH.
  destruct (hex_at_facts d Hd) as (_ & -> & _). reflexivity.
Qed.

Lemma c32_digits_normal (C : list Z) :
  in_range 32 C -> map C32.normalize_char (map C32.c32_at C) = map C32.c32_at C.
Proof.
  induction 1 as [|d C Hd _ IH]; [reflexivity|].
  cbn [map]. rewrite IH. f_equal. apply (c32_at_facts d Hd).
Qed.

Lemma c32_digits_are_c32 (C : list Z) :
  in_range 32 C -> forallb C32.is_c32_char (map C32.c32_at C) = true.
Proof.
  induction 1 as [|d C Hd _ IH]; [reflexivity|].
  cbn [map forallb]. rewrite IH.
  destruct (c32_at_facts d Hd) as (_ & -> & _). reflexivity.
Qed.

Lemma even_mod2 (n : nat) : Nat.even n = true -> (Z.of_nat n mod 2 =? 0) = true.
Proof.
  intro E. apply Nat.even_spec in E. destruct E as [k ->].
  apply Z.eqb_eq. rewrite Nat2Z.inj_mul. change (Z.of_nat 2) with 2.
  rewrite Z.mul_comm. apply Z.mod_mul. lia.
Qed.

(** The c32 digits [c32encode] computes for the hex digits [H]. *)
Lemma c32encode_digits (H : list Z) :
  in_range 16 H -> Nat.even (List.length H) = true ->
  C32.c32encode (Js.str (map C32.hex_at H)) =
  Returned (Js.str (map C32.c32_at (encoded_digits H))).
Proof.
  intros R E. unfold encoded_digits, C32.c32encode, C32.is_hex_string, C32.hexToBytes.
  rewrite chars_str, hex_digits_are_hex by exact R. cbn [negb].
  rewrite length_str, length_map, even_mod2 by exact E.
  rewrite toLowerCase_str, hex_digits_lower by exact R.
  rewrite chars_str, hexToBytes_digits by assumption. cbn [bind].
  rewrite encode_loop_digits, app_nil_r.
  rewrite <- (map_rev C32.hex_at H), map_hex_index by (apply Forall_rev; exact R).
  rewrite <- map_rev.
  assert (RE : in_range 32 (rev (enc_digits 0 (rev H)))).
  { apply Forall_rev, enc_digits_range; [lia|apply Forall_rev; exact R]. }
  rewrite leading_c32_chars by exact RE.
  rewrite skipn_map. fold (strip0 (rev (enc_digits 0 (rev H)))).
  rewrite lead_pairs_bytes.
  rewrite map_app, map_repeat. reflexivity.
Qed.

(** The hex digits [c32decode] computes for a string whose normal form is
    the c32 digits [C]. *)
Lemma c32decode_digits (Y : string) (C : list Z) :
  in_range 32 C -> C32.c32normalize Y = Js.str (map C32.c32_at C) ->
  C32.c32decode Y =
  Returned (Js.str (map C32.hex_at (decoded_digits C))).
Proof.
  intros R N. unfold decoded_digits, C32.c32decode, C32.is_c32_string.
  rewrite N, chars_str, c32_digits_are_c32 by exact R. cbn [negb].
  rewrite leading_c32_chars by exact R.
  pose proof (decode_loop_digits (rev (map C32.c32_at C)) 0 0 []) as L.
  rewrite <- map_rev, map_c32_index in L by (apply Forall_rev; exact R).
  specialize (L ltac:(lia) ltac:(change (2 ^ 0) with 1; lia)
                (Forall_rev R)).
  rewrite app_nil_r, <- map_rev in L.
  rewrite <- map_rev.
  destruct (C32.decode_loop 0 0 (map C32.c32_at (rev C)) []) as [[res carry]|e];
    [|discriminate].
  cbn [bind fst snd] in L. injection L as L. cbn [bind]. rewrite L.
  set (D := rev (dec_digits 0 0 (rev C))).
  assert (RD : in_range 16 D).
  { apply Forall_rev, dec_digits_spec;
      [lia|change (2 ^ 0) with 1; lia|apply Forall_rev; exact R]. }
  assert (P : (if Nat.odd (List.length (map C32.hex_at D))
               then "0"%char :: map C32.hex_at D else map C32.hex_at D) =
              map C32.hex_at (even_pad D)).
  { unfold even_pad. rewrite length_map.
    destruct (Nat.odd (List.length D)); reflexivity. }
  rewrite P.
  rewrite leading_hex_chars by (apply even_pad_range; [lia|exact RD]).
  rewrite skipn_map. fold (strip_pairs (even_pad D)).
  f_equal. f_equal. rewrite map_app. f_equal.
  clear. induction (C32.leading Z.eqb 0 C) as [|k IH]; [reflexivity|].
  replace (2 * S k)%nat with (S (S (2 * k))) by lia.
  cbn [repeat List.concat map]. rewrite IH. reflexivity.
Qed.

Lemma enc_value_zero (ds : list Z) : enc_value 0 ds = val_le 16 ds.
Proof.
  destruct ds as [|d r]; [reflexivity|].
  cbn [enc_value val_le]. change (2 ^ 0) with 1. change (2 ^ (4 - 0)) with 16.
  rewrite Z.div_1_r. reflexivity.
Qed.

Lemma enc_digits_be (H : list Z) :
  in_range 16 H ->
  val_be 32 (rev (enc_digits 0 (rev H))) = val_be 16 H /\
  in_range 32 (rev (enc_digits 0 (rev H))).
Proof.
  intro R. split.
  - unfold val_be. rewrite rev_involutive.
    rewrite enc_digits_value by (lia || apply Forall_rev; exact R).
    apply enc_value_zero.
  - apply Forall_rev, enc_digits_range; [lia|apply Forall_rev; exact R].
Qed.

Lemma dec_digits_be (C : list Z) :
  in_range 32 C ->
  val_be 16 (rev (dec_digits 0 0 (rev C))) = val_be 32 C /\
  in_range 16 (rev (dec_digits 0 0 (rev C))).
Proof.
  intro R.
  destruct (dec_digits_spec (rev C) 0 0) as [V Rg];
    [lia|change (2 ^ 0) with 1; lia|apply Forall_rev; exact R|].
  split.
  - unfold val_be. rewrite rev_involutive, V. change (2 ^ 0) with 1.
    lia.
  - apply Forall_rev, Rg.
Qed.

Lemma zeros_range (b : Z) (k : nat) (ds : list Z) :
  1 < b -> in_range b ds -> in_range b (repeat 0 k ++ ds).
Proof.
  intros Hb R. apply Forall_app. split; [|exact R].
  apply Forall_forall. intros x Hx. apply repeat_spec in Hx. lia.
Qed.

Lemma encoded_digits_range (H : list Z) :
  in_range 16 H -> in_range 32 (encoded_digits H).
Proof.
  intro R. apply zeros_range; [lia|].
  apply strip0_in_range, enc_digits_be, R.
Qed.

Lemma decoded_digits_range (C : list Z) :
  in_range 32 C -> in_range 16 (decoded_digits C).
Proof.
  intro R. apply zeros_range; [lia|].
  apply strip_pairs_range, even_pad_range; [lia|]. apply dec_digits_be, R.
Qed.

Lemma decoded_digits_even (C : list Z) :
  Nat.even (List.length (decoded_digits C)) = true.
Proof.
  unfold decoded_digits. rewrite length_app, repeat_length, Nat.even_add.
  rewrite Nat.even_mul. cbn [Nat.even orb].
  rewrite strip_pairs_even by apply even_pad_even. reflexivity.
Qed.

(** Decoding the encoded digits gives the hex digits back. *)
Lemma decoded_encoded (H : list Z) :
  in_range 16 H -> Nat.even (List.length H) = true ->
  decoded_digits (encoded_digits H) = H.
Proof.
  intros R E.
  destruct (enc_digits_be H R) as [VE RE].
  pose proof (encoded_digits_range H R) as RC.
  destruct (dec_digits_be (encoded_digits H) RC) as [VD RD].
  unfold decoded_digits.
  set (D := rev (dec_digits 0 0 (rev (encoded_digits H)))) in *.
  unfold encoded_digits at 1. rewrite leading_zeros_app by apply strip0_stripped.
  assert (V : val_be 16 (even_pad D) = val_be 16 H).
  { rewrite even_pad_value, VD. unfold encoded_digits.
    rewrite val_be_zeros, val_be_strip0. exact VE. }
  rewrite (strip_pairs_unique (even_pad D) H);
    [|apply even_pad_range; [lia|exact RD]|exact R|apply even_pad_even
     |exact E|exact V].
  symmetry. apply split_pairs, R.
Qed.

(** Encoding the decoded digits gives the c32 digits back. *)
Lemma encoded_decoded (C : list Z) :
  in_range 32 C -> encoded_digits (decoded_digits C) = C.
Proof.
  intro RC.
  destruct (dec_digits_be C RC) as [VD RD].
  pose proof (decoded_digits_range C RC) as RH.
  destruct (enc_digits_be (decoded_digits C) RH) as [VE RE].
  unfold encoded_digits.
  set (En := rev (enc_digits 0 (rev (decoded_digits C)))) in *.
  set (D := rev (dec_digits 0 0 (rev C))) in *.
  assert (RP : in_range 16 (even_pad D)) by (apply even_pad_range; [lia|exact RD]).
  assert (LP : lead_pairs (decoded_digits C) = C32.leading Z.eqb 0 C).
  { unfold decoded_digits. fold D. rewrite lead_pairs_zeros.
    rewrite strip_pairs_even_pad by apply even_pad_even.
    rewrite lead_pairs_stripped;
      [lia|apply strip0_in_range, RP|apply strip0_stripped]. }
  rewrite LP.
  rewrite (strip0_unique 32 En C); [|lia|exact RE|exact RC|].
  - symmetry. apply strip0_split.
  - rewrite VE. unfold decoded_digits. fold D.
    rewrite val_be_zeros, strip_pairs_value by exact RP.
    rewrite even_pad_value. exact VD.
Qed.

Lemma c32_digits_of_string (Y : string) :
  C32.is_c32_string Y = true ->
  exists C, in_range 32 C /\ Y = Js.str (map C32.c32_at C).
Proof.
  intro A. exists (map (Js.indexOf C32.c32) (Js.chars Y)).
  unfold C32.is_c32_string in A.
  rewrite <- (str_chars Y) at 2.
  induction (Js.chars Y) as [|c l IH]; [split; [constructor|reflexivity]|].
  cbn [forallb] in A. apply andb_true_iff in A as [Ac Al].
  destruct (IH Al) as [IR IM]. destruct (c32_char_facts c Ac) as [F B].
  split; [constructor; assumption|].
  cbn [map]. rewrite !str_cons, F. f_equal. exact IM.
Qed.

(** Decoding what [c32encode] produced gives the hex string back. *)
Lemma c32decode_c32encode (H : list Z) :
  in_range 16 H -> Nat.even (List.length H) = true ->
  bind (C32.c32encode (Js.str (map C32.hex_at H))) C32.c32decode =
  Returned (Js.str (map C32.hex_at H)).
Proof.
  intros R E. rewrite c32encode_digits by assumption. cbn [bind].
  pose proof (encoded_digits_range H R) as RC.
  rewrite (c32decode_digits _ (encoded_digits H) RC)
    by (rewrite c32normalize_str, c32_digits_normal by exact RC; reflexivity).
  rewrite decoded_encoded by assumption. reflexivity.
Qed.

(** Encoding what [c32decode] produced gives the normal form of the
    input back. *)
Lemma c32encode_c32decode (Y : string) :
  C32.is_c32_string (C32.c32normalize Y) = true ->
  bind (C32.c32decode Y) C32.c32encode = Returned (C32.c32normalize Y).
Proof.
  intro A. destruct (c32_digits_of_string _ A) as (C & RC & N).
  rewrite (c32decode_digits Y C RC N). cbn [bind].
  rewrite c32encode_digits
    by (apply decoded_digits_range, RC || apply decoded_digits_even).
  rewrite encoded_decoded by exact RC. rewrite N. reflexivity.
Qed.

(** * The checksummed codec *)

(** ** Slices of strings *)

Lemma substring_str (L : list ascii) :
  forall n m, String.substring n m (Js.str L) = Js.str (firstn m (skipn n L)).
Proof.
  induction L as [|c L IH]; intros [|n] [|m]; try reflexivity.
  - rewrite str_cons. cbn [String.substring skipn firstn]. rewrite str_cons.
    f_equal. apply (IH 0%nat m).
  - rewrite str_cons. cbn [String.substring skipn]. apply IH.
  - rewrite str_cons. cbn [String.substring skipn]. apply IH.
Qed.

Lemma slice_from_str (L : list ascii) (k : nat) :
  Js.slice_from (Js.str L) (- Z.of_nat (S k)) =
  Js.str (skipn (List.length L - S k) L).
Proof.
  unfold Js.slice_from, Js.slice, Js.relative.
  rewrite length_str.
  destruct (Z.ltb_spec (- Z.of_nat (S k)) 0) as [_|G]; [|lia].
  destruct (Z.ltb_spec (Z.of_nat (List.length L)) 0) as [G|_]; [lia|].
  rewrite substring_str. f_equal.
  replace (Z.to_nat (Z.max (Z.of_nat (List.length L) + - Z.of_nat (S k)) 0))
    with (List.length L - S k)%nat by lia.
  apply firstn_all2. rewrite length_skipn. lia.
Qed.

Lemma substring_to_str (L : list ascii) (e : Z) :
  Js.substring (Js.str L) 0 e = Js.str (firstn (Z.to_nat e) L).
Proof.
  unfold Js.substring. rewrite length_str, substring_str.
  f_equal.
  replace (Z.to_nat (Z.min (Z.min (Z.max 0 0) (Z.of_nat (List.length L)))
                       (Z.min (Z.max e 0) (Z.of_nat (List.length L)))))
    with 0%nat by lia.
  cbn [skipn].
  destruct (Z.le_gt_cases e (Z.of_nat (List.length L))) as [Le|Gt].
  - f_equal. lia.
  - rewrite !firstn_all2 by lia. reflexivity.
Qed.

Lemma substring_full (s : string) : String.substring 0 (String.length s) s = s.
Proof.
  induction s as [|c s IH]; [reflexivity|].
  cbn [String.length String.substring]. f_equal. exact IH.
Qed.

Lemma slice_from_1 (c : ascii) (r : string) : Js.slice_from (String c r) 1 = r.
Proof.
  unfold Js.slice_from, Js.slice, Js.relative.
  pose proof (length_nonneg r) as P.
  assert (E : Js.length (String c r) = Js.length r + 1).
  { unfold Js.length. cbn [String.length]. lia. }
  rewrite E.
  destruct (Z.ltb_spec 1 0) as [G|_]; [lia|].
  destruct (Z.ltb_spec (Js.length r + 1) 0) as [G|_]; [lia|].
  replace (Z.to_nat (Z.min 1 (Js.length r + 1))) with 1%nat by lia.
  replace (Z.to_nat (Z.max (Z.min (Js.length r + 1) (Js.length r + 1) -
                            Z.min 1 (Js.length r + 1)) 0))
    with (String.length r) by (unfold Js.length in *; lia).
  cbn [String.substring]. apply substring_full.
Qed.

(** A slice of the last eight characters that has eight characters, and
    the characters before it, make up the string. *)
Lemma payload_checksum_split (L : list ascii) :
  Js.length (Js.slice_from (Js.str L) (-8)) = 8 ->
  List.length L = (List.length (firstn (List.length L - 8) L) + 8)%nat /\
  Js.substring (Js.str L) 0 (Js.length (Js.str L) - 8) =
    Js.str (firstn (List.length L - 8) L) /\
  Js.slice_from (Js.str L) (-8) = Js.str (skipn (List.length L - 8) L).
Proof.
  change (-8) with (- Z.of_nat 8). rewrite slice_from_str, length_str, length_skipn.
  intro E. assert (G : (8 <= List.length L)%nat) by lia.
  rewrite substring_to_str, length_str, length_firstn.
  repeat split; [lia|]. do 2 f_equal. lia.
Qed.

(** ** SHA-256 returns 32 bytes *)

Lemma be_bytes_spec (n : nat) (x : Z) :
  List.length (Sha256.be_bytes n x) = n /\
  Forall (fun b => 0 <= b < 256) (Sha256.be_bytes n x).
Proof.
  induction n as [|n [IL IR]]; [split; [reflexivity|constructor]|].
  cbn [Sha256.be_bytes List.length]. split; [lia|].
  constructor; [apply Z.mod_pos_bound; lia|exact IR].
Qed.

Lemma sha256_bytes (msg : list Z) :
  List.length (Sha256.sha256 msg) = 32%nat /\
  Forall (fun b => 0 <= b < 256) (Sha256.sha256 msg).
Proof.
  unfold Sha256.sha256, Sha256.digest_bytes. split.
  - rewrite !length_app, !(proj1 (be_bytes_spec 4 _)). reflexivity.
  - repeat (apply Forall_app; split); apply be_bytes_spec.
Qed.

Lemma byte_digits_spec (bs : list Z) :
  Forall (fun b => 0 <= b < 256) bs ->
  List.length (byte_digits bs) = (2 * List.length bs)%nat /\
  in_range 16 (byte_digits bs).
Proof.
  induction 1 as [|b bs Hb _ [IL IR]]; [split; [reflexivity|constructor]|].
  cbn [byte_digits flat_map app List.length]. fold (byte_digits bs).
  split; [lia|].
  constructor; [Z.div_mod_to_equations; lia|].
  constructor; [Z.div_mod_to_equations; lia|exact IR].
Qed.

Lemma checksum_digits_spec (D : list Z) :
  List.length (checksum_digits D) = 8%nat /\ in_range 16 (checksum_digits D).
Proof.
  unfold checksum_digits.
  set (hash := Sha256.sha256 (Sha256.sha256 (pair_bytes D))).
  destruct (sha256_bytes (Sha256.sha256 (pair_bytes D))) as [HL HR]. fold hash in HL, HR.
  destruct (byte_digits_spec (firstn 4 hash)) as [L R].
  { rewrite <- (firstn_skipn 4 hash) in HR. apply Forall_app in HR. apply HR. }
  split; [|exact R]. rewrite L, length_firstn, HL. reflexivity.
Qed.

Lemma bytesToHex_digits (bs : list Z) :
  C32.bytesToHex bs = Js.str (map C32.hex_at (byte_digits bs)).
Proof.
  unfold C32.bytesToHex, C32.bytesToHex_chars, byte_digits. f_equal.
  induction bs as [|b bs IH]; [reflexivity|].
  cbn [flat_map]. rewrite map_app, IH. reflexivity.
Qed.

Lemma c32checksum_digits (D : list Z) :
  in_range 16 D -> Nat.even (List.length D) = true ->
  C32.c32checksum (Js.str (map C32.hex_at D)) =
  Returned (Js.str (map C32.hex_at (checksum_digits D))).
Proof.
  intros R E. unfold C32.c32checksum, C32.hexToBytes.
  rewrite chars_str, hexToBytes_digits by assumption. cbn [bind].
  rewrite bytesToHex_digits. reflexivity.
Qed.

(** ** The version *)

Lemma versionHex_digits (v : Z) :
  0 <= v < 32 ->
  C32.versionHex v = Js.str (map C32.hex_at (version_digits v)) /\
  in_range 16 (version_digits v).
Proof.
  intro H.
  pose proof (forall_below
    (fun v => String.eqb (C32.versionHex v)
                (Js.str (map C32.hex_at (version_digits v))))
    32 eq_refl v H) as F.
  cbv beta in F. apply String.eqb_eq in F. split; [exact F|].
  unfold version_digits.
  constructor; [Z.div_mod_to_equations; lia|].
  constructor; [Z.div_mod_to_equations; lia|constructor].
Qed.

Lemma version_payload_digits (v : Z) (D : list Z) :
  0 <= v < 32 -> in_range 16 D -> Nat.even (List.length D) = true ->
  (C32.versionHex v ++ Js.str (map C32.hex_at D))%string =
    Js.str (map C32.hex_at (version_digits v ++ D)) /\
  in_range 16 (version_digits v ++ D) /\
  Nat.even (List.length (version_digits v ++ D)) = true.
Proof.
  intros Hv R E. destruct (versionHex_digits v Hv) as [-> RV].
  rewrite map_app, str_app. split; [reflexivity|].
  split; [apply Forall_app; split; assumption|].
  cbn [version_digits app List.length Nat.even]. exact E.
Qed.

(** ** [c32checkEncode] and [c32checkDecode] *)

Lemma c32checkEncode_digits (v : Z) (D : list Z) :
  0 <= v < 32 -> in_range 16 D -> Nat.even (List.length D) = true ->
  C32.c32checkEncode v (Js.str (map C32.hex_at D)) =
  Returned (String (C32.c32_at v) (Js.str (map C32.c32_at (address_digits v D)))).
Proof.
  intros Hv R E. unfold C32.c32checkEncode.
  destruct (Z.ltb_spec v 0) as [G|_]; [lia|].
  destruct (Z.geb_spec v 32) as [G|_]; [lia|]. cbn [orb].
  unfold C32.is_hex_string.
  rewrite chars_str, hex_digits_are_hex by exact R. cbn [negb].
  rewrite toLowerCase_str, hex_digits_lower by exact R.
  rewrite length_str, length_map, even_mod2 by exact E.
  destruct (version_payload_digits v D Hv R E) as (-> & RV & EV).
  rewrite c32checksum_digits by assumption. cbn [bind].
  destruct (checksum_digits_spec (version_digits v ++ D)) as [CL CR].
  rewrite <- str_app, <- map_app.
  rewrite c32encode_digits; [reflexivity|apply Forall_app; split; assumption|].
  rewrite length_app, CL, Nat.even_add, E. reflexivity.
Qed.

Lemma c32normalize_idem (s : string) :
  C32.c32normalize (C32.c32normalize s) = C32.c32normalize s.
Proof.
  induction s as [|c s IH]; [reflexivity|].
  cbn [C32.c32normalize]. rewrite normalize_char_idem, IH. reflexivity.
Qed.

Lemma c32checkDecode_digits (v : Z) (D : list Z) :
  0 <= v < 32 -> in_range 16 D -> Nat.even (List.length D) = true ->
  C32.c32checkDecode
    (String (C32.c32_at v) (Js.str (map C32.c32_at (address_digits v D)))) =
  Returned (v, Js.str (map C32.hex_at D)).
Proof.
  intros Hv R E. unfold C32.c32checkDecode.
  destruct (checksum_digits_spec (version_digits v ++ D)) as [CL CR].
  set (cs := checksum_digits (version_digits v ++ D)) in *.
  assert (RX : in_range 16 (D ++ cs)) by (apply Forall_app; split; assumption).
  assert (EX : Nat.even (List.length (D ++ cs)) = true).
  { rewrite length_app, CL, Nat.even_add, E. reflexivity. }
  pose proof (encoded_digits_range (D ++ cs) RX) as RC.
  cbn [C32.c32normalize].
  destruct (c32_at_facts v Hv) as (IX & _ & NV & _). rewrite NV.
  rewrite slice_from_1.
  unfold address_digits. fold cs.
  rewrite (c32decode_digits _ (encoded_digits (D ++ cs)) RC)
    by (rewrite c32normalize_idem, c32normalize_str, c32_digits_normal by exact RC;
        reflexivity).
  cbn [bind]. rewrite decoded_encoded by assumption.
  change (Js.at_ (String (C32.c32_at v) ?r) 0) with (Some (C32.c32_at v)).
  cbv iota beta. rewrite IX.
  change (-8) with (- Z.of_nat 8). rewrite slice_from_str, substring_to_str.
  rewrite length_str, !length_map, length_app, CL.
  replace (Z.to_nat (Z.of_nat (List.length D + 8) - 8)) with (List.length D) by lia.
  replace (List.length D + 8 - 8)%nat with (List.length D) by lia.
  rewrite map_app, firstn_app, length_map, Nat.sub_diag, firstn_O, app_nil_r.
  rewrite firstn_all2 by (rewrite length_map; lia).
  rewrite skipn_app, length_map, Nat.sub_diag, skipn_O.
  rewrite skipn_all2 by (rewrite length_map; lia). cbn [app].
  destruct (version_payload_digits v D Hv R E) as (-> & RV & EV).
  rewrite c32checksum_digits by assumption. cbn [bind]. fold cs.
  rewrite String.eqb_refl. reflexivity.
Qed.

(** * [c32address] and [c32addressDecode] *)

Lemma dec_digits_length (cs : list Z) :
  forall carry bits,
    (List.length (dec_digits carry bits cs) <= 2 * List.length cs + 1)%nat.
Proof.
  induction cs as [|c cs IH]; intros carry bits; [cbn; lia|].
  cbn [dec_digits List.length]. rewrite length_app. cbn [List.length].
  specialize (IH (Z.shiftr
                    (Z.shiftl c (if bits =? 4 then 0 else bits) +
                     (if bits =? 4 then 0 else carry)) 4)
                 ((if bits =? 4 then 0 else bits) + 1)).
  destruct (bits =? 4); cbn [List.length]; lia.
Qed.

Lemma leading_le_length (C : list Z) :
  (C32.leading Z.eqb 0%Z C <= List.length C)%nat.
Proof.
  induction C as [|c C IH]; [apply Nat.le_refl|].
  cbn [C32.leading List.length]. destruct (c =? 0); lia.
Qed.

Lemma decoded_digits_length (C : list Z) :
  (List.length (decoded_digits C) <= 4 * List.length C + 2)%nat.
Proof.
  unfold decoded_digits, strip_pairs, even_pad.
  rewrite length_app, repeat_length, length_skipn.
  pose proof (leading_le_length C).
  pose proof (dec_digits_length (rev C) 0 0) as L.
  rewrite length_rev in L.
  destruct (Nat.odd (List.length (rev (dec_digits 0 0 (rev C)))));
    cbn [List.length]; rewrite length_rev; lia.
Qed.

(** An address is never shorter than a quarter of its payload. *)
Lemma encoded_digits_length (H : list Z) :
  in_range 16 H -> Nat.even (List.length H) = true ->
  (List.length H <= 4 * List.length (encoded_digits H) + 2)%nat.
Proof.
  intros R E. rewrite <- (decoded_encoded H R E) at 1.
  apply decoded_digits_length.
Qed.

Lemma address_digits_spec (v : Z) (D : list Z) :
  in_range 16 D -> List.length D = 40%nat ->
  in_range 32 (address_digits v D) /\
  (12 <= List.length (address_digits v D))%nat.
Proof.
  intros R L. unfold address_digits.
  destruct (checksum_digits_spec (version_digits v ++ D)) as [CL CR].
  assert (RX : in_range 16 (D ++ checksum_digits (version_digits v ++ D)))
    by (apply Forall_app; split; assumption).
  split; [apply encoded_digits_range, RX|].
  pose proof (encoded_digits_length _ RX) as B.
  rewrite length_app, CL, L in B. specialize (B eq_refl). lia.
Qed.

Lemma c32address_digits (v : Z) (D : list Z) :
  0 <= v < 32 -> in_range 16 D -> List.length D = 40%nat ->
  C32.c32address v (Js.str (map C32.hex_at D)) =
  Returned (String "S" (String (C32.c32_at v)
                          (Js.str (map C32.c32_at (address_digits v D))))).
Proof.
  intros Hv R L. unfold C32.c32address, C32.is_hash160_hex, C32.is_hex_string.
  rewrite chars_str, hex_digits_are_hex by exact R.
  rewrite length_str, length_map, L. cbn [andb Z.eqb Z.of_nat negb].
  change (Z.of_nat 40 =? 40) with true. cbn [andb negb].
  rewrite c32checkEncode_digits by (assumption || rewrite L; reflexivity).
  reflexivity.
Qed.

Lemma c32addressDecode_digits (v : Z) (D : list Z) :
  0 <= v < 32 -> in_range 16 D -> List.length D = 40%nat ->
  C32.c32addressDecode
    (String "S" (String (C32.c32_at v)
                   (Js.str (map C32.c32_at (address_digits v D))))) =
  Returned (v, Js.str (map C32.hex_at D)).
Proof.
  intros Hv R L. unfold C32.c32addressDecode.
  destruct (address_digits_spec v D R L) as [RA LA].
  assert (E : Js.length (String "S" (String (C32.c32_at v)
                (Js.str (map C32.c32_at (address_digits v D))))) =
              Z.of_nat (List.length (address_digits v D)) + 2).
  { unfold Js.length at 1. cbn [String.length].
    pose proof (length_str (map C32.c32_at (address_digits v D))) as LS.
    unfold Js.length in LS. rewrite length_map in LS. lia. }
  rewrite E.
  destruct (Z.leb_spec (Z.of_nat (List.length (address_digits v D)) + 2) 5) as [G|_];
    [lia|].
  change (Js.at_ (String "S" ?r) 0) with (Some "S"%char).
  cbn [Js.char_is]. change (Ascii.eqb "S" "S") with true. cbn [negb].
  rewrite slice_from_1.
  apply c32checkDecode_digits; [assumption|assumption|rewrite L; reflexivity].
Qed.

(** ** Hex strings and their digits *)

Lemma lower_hex_char (c : ascii) :
  C32.is_hex_char c = true ->
  C32.is_hex_char (Js.lower_char c) = true /\
  Js.lower_char (Js.lower_char c) = Js.lower_char c.
Proof.
  intro H.
  pose proof (forall_ascii
    (fun c => implb (C32.is_hex_char c)
                (C32.is_hex_char (Js.lower_char c) &&
                 Ascii.eqb (Js.lower_char (Js.lower_char c)) (Js.lower_char c)))
    eq_refl c) as F.
  cbv beta in F. rewrite H in F. cbn [implb] in F.
  apply andb_true_iff in F as [F1 F2]. bool_facts. split; assumption.
Qed.

(** The digits of a hex string, read case-insensitively. *)
Lemma hex_digits_of_chars (l : list ascii) :
  forallb C32.is_hex_char l = true ->
  exists D, in_range 16 D /\ List.length D = List.length l /\
            map Js.lower_char l = map C32.hex_at D.
Proof.
  induction l as [|c l IH]; intro A.
  - exists []. repeat split. constructor.
  - cbn [forallb] in A. apply andb_true_iff in A as [Ac Al].
    destruct (IH Al) as (D & IR & IL & IM).
    destruct (lower_hex_char c Ac) as [Lh Ll].
    destruct (hex_char_facts _ Lh Ll) as [F B].
    exists (Js.indexOf C32.hex (Js.lower_char c) :: D).
    split; [constructor; assumption|].
    split; [cbn [List.length]; f_equal; exact IL|].
    cbn [map]. rewrite F, IM. reflexivity.
Qed.

Lemma hex_digits_of_string (h : string) :
  C32.is_hex_string h = true ->
  exists D, in_range 16 D /\ Z.of_nat (List.length D) = Js.length h /\
            Js.toLowerCase h = Js.str (map C32.hex_at D).
Proof.
  intro A. destruct (hex_digits_of_chars _ A) as (D & R & L & M).
  exists D. split; [exact R|].
  rewrite <- (str_chars h). rewrite length_str, toLowerCase_str, M, L.
  split; reflexivity.
Qed.

Lemma is_hex_string_lower (h : string) :
  C32.is_hex_string h = true -> C32.is_hex_string (Js.toLowerCase h) = true.
Proof.
  intro A. destruct (hex_digits_of_string h A) as (D & R & _ & ->).
  unfold C32.is_hex_string. rewrite chars_str. apply hex_digits_are_hex, R.
Qed.

Lemma toLowerCase_idem (h : string) :
  C32.is_hex_string h = true -> Js.toLowerCase (Js.toLowerCase h) = Js.toLowerCase h.
Proof.
  intro A. destruct (hex_digits_of_string h A) as (D & R & _ & ->).
  rewrite toLowerCase_str, hex_digits_lower by exact R. reflexivity.
Qed.

Lemma length_toLowerCase (h : string) : Js.length (Js.toLowerCase h) = Js.length h.
Proof.
  unfold Js.length. f_equal.
  induction h as [|c h IH]; [reflexivity|]. cbn. f_equal. exact IH.
Qed.

(** [c32address] reads its hex argument case-insensitively. *)
Lemma c32address_lower (v : Z) (h : string) :
  C32.c32address v h = C32.c32address v (Js.toLowerCase h).
Proof.
  unfold C32.c32address, C32.is_hash160_hex, C32.c32checkEncode.
  rewrite length_toLowerCase.
  destruct (C32.is_hex_string h) eqn:A.
  - rewrite (is_hex_string_lower h A), (toLowerCase_idem h A).
    rewrite !length_toLowerCase. reflexivity.
  - cbn [andb negb].
    destruct (C32.is_hex_string (Js.toLowerCase h)) eqn:B; [|reflexivity].
    exfalso. revert A B. unfold C32.is_hex_string.
    rewrite <- (str_chars h) at 2. rewrite toLowerCase_str, chars_str.
    induction (Js.chars h) as [|c l IH]; [discriminate|].
    cbn [map forallb]. intros A B. apply andb_true_iff in B as [Bc Bl].
    pose proof (forall_ascii
      (fun c => implb (C32.is_hex_char (Js.lower_char c)) (C32.is_hex_char c))
      eq_refl c) as F.
    cbv beta in F. rewrite Bc in F. cbn [implb] in F. rewrite F in A.
    cbn [andb] in A. exact (IH A Bl).
Qed.

(** Encoding a 40-digit hex string, then decoding: the version and the
    lower-case hex string; the address validates. *)
Lemma c32address_roundtrip (v : Z) (h : string) :
  0 <= v < 32 -> C32.is_hash160_hex h = true ->
  exists rest,
    C32.c32address v h = Returned (String "S" (String (C32.c32_at v) rest)) /\
    C32.c32addressDecode (String "S" (String (C32.c32_at v) rest)) =
      Returned (v, Js.toLowerCase h).
Proof.
  intros Hv A. unfold C32.is_hash160_hex in A.
  apply andb_true_iff in A as [A1 A2]. apply Z.eqb_eq in A2.
  destruct (hex_digits_of_string h A1) as (D & R & L & E).
  assert (L40 : List.length D = 40%nat) by lia.
  exists (Js.str (map C32.c32_at (address_digits v D))).
  rewrite c32address_lower, E.
  split; [apply c32address_digits|apply c32addressDecode_digits]; assumption.
Qed.

(** * What a successful decode says about the address *)

Lemma Returned_inj {A : Type} (a b : A) : Returned a = Returned b -> a = b.
Proof. intros [= ->]. reflexivity. Qed.

Lemma str_inj (a b : list ascii) : Js.str a = Js.str b -> a = b.
Proof. intro E. rewrite <- (chars_str a), <- (chars_str b), E. reflexivity. Qed.

Lemma map_hex_at_inj (A B : list Z) :
  in_range 16 A -> in_range 16 B -> map C32.hex_at A = map C32.hex_at B -> A = B.
Proof.
  intros RA RB E.
  rewrite <- (map_hex_index A RA), <- (map_hex_index B RB), E. reflexivity.
Qed.

Lemma c32decode_returned (Y x : string) :
  C32.c32decode Y = Returned x -> C32.is_c32_string (C32.c32normalize Y) = true.
Proof.
  unfold C32.c32decode.
  destruct (C32.is_c32_string (C32.c32normalize Y)); [reflexivity|discriminate].
Qed.

Lemma c32checksum_length (x e : string) :
  C32.c32checksum x = Returned e -> Js.length e = 8.
Proof.
  unfold C32.c32checksum.
  destruct (C32.hexToBytes x) as [bs|]; [|discriminate].
  cbn [bind]. intro E. apply Returned_inj in E. subst e.
  rewrite bytesToHex_digits, length_str, length_map.
  destruct (sha256_bytes (Sha256.sha256 bs)) as [HL HR].
  rewrite <- (firstn_skipn 4 (Sha256.sha256 (Sha256.sha256 bs))) in HR.
  apply Forall_app in HR as [HR _].
  destruct (byte_digits_spec _ HR) as [L _].
  rewrite L, length_firstn, HL. reflexivity.
Qed.

Lemma c32checksum_no_version (p : string) :
  returns (C32.c32checksum (C32.versionHex (-1) ++ p)%string) = false.
Proof.
  change (C32.versionHex (-1)) with "-1"%string.
  cbn [String.append]. unfold C32.c32checksum, C32.hexToBytes.
  cbn [Js.chars list_ascii_of_string C32.hexToBytes_chars].
  change (C32.is_hex_char "-") with false. reflexivity.
Qed.

Lemma c32_index_bounds (c : ascii) :
  Js.indexOf C32.c32 c = -1 \/
  (0 <= Js.indexOf C32.c32 c < 32 /\ C32.is_c32_char c = true).
Proof.
  pose proof (forall_ascii
    (fun c => (Js.indexOf C32.c32 c =? -1) ||
              ((0 <=? Js.indexOf C32.c32 c) && (Js.indexOf C32.c32 c <? 32) &&
               C32.is_c32_char c))
    eq_refl c) as F.
  cbv beta in F. apply orb_true_iff in F as [F|F].
  - left. bool_facts. exact F.
  - right. repeat (apply andb_true_iff in F; destruct F as [F ?]).
    bool_facts. split; [lia|assumption].
Qed.

Lemma even_minus_8 (n : nat) :
  (8 <= n)%nat -> Nat.even n = true -> Nat.even (n - 8) = true.
Proof.
  intros L E. rewrite Nat.even_sub by exact L. rewrite E. reflexivity.
Qed.

(** A decoded address is S, a version character, and c32 digits that
    decode to the payload followed by its checksum. *)
Lemma c32addressDecode_inv (s : string) (v : Z) (h : string) :
  C32.c32addressDecode s = Returned (v, h) ->
  exists c1 body C Dp,
    s = String "S" (String c1 body) /\
    v = Js.indexOf C32.c32 (C32.normalize_char c1) /\
    0 <= v < 32 /\
    C32.c32_at v = C32.normalize_char c1 /\
    in_range 32 C /\
    C32.c32normalize body = Js.str (map C32.c32_at C) /\
    in_range 16 Dp /\ Nat.even (List.length Dp) = true /\
    h = Js.str (map C32.hex_at Dp) /\
    decoded_digits C = Dp ++ checksum_digits (version_digits v ++ Dp).
Proof.
  intro H. unfold C32.c32addressDecode in H.
  destruct (Js.length s <=? 5) eqn:L; [discriminate|].
  destruct s as [|c0 [|c1 body]]; try discriminate L.
  change (Js.at_ (String c0 ?r) 0) with (Some c0) in H.
  cbn [Js.char_is] in H.
  destruct (Ascii.eqb_spec c0 "S") as [->|]; [|discriminate].
  cbn [negb] in H. rewrite slice_from_1 in H.
  unfold C32.c32checkDecode in H. cbn [C32.c32normalize] in H.
  rewrite slice_from_1 in H.
  change (Js.at_ (String ?c ?r) 0) with (Some c) in H. cbv iota beta in H.
  destruct (C32.c32decode (C32.c32normalize body)) as [dataHex|] eqn:DEC;
    [|discriminate].
  cbn [bind] in H.
  pose proof (c32decode_returned _ _ DEC) as A. rewrite c32normalize_idem in A.
  destruct (c32_digits_of_string _ A) as (C & RC & N).
  rewrite (c32decode_digits _ C RC) in DEC by (rewrite c32normalize_idem; exact N).
  apply Returned_inj in DEC. subst dataHex.
  set (version := Js.indexOf C32.c32 (C32.normalize_char c1)) in *.
  set (DD := decoded_digits C) in *.
  destruct (C32.c32checksum _) as [expected|] eqn:CS in H; [|discriminate].
  cbn [bind] in H.
  destruct (String.eqb_spec expected
              (Js.slice_from (Js.str (map C32.hex_at DD)) (-8))) as [EQ|];
    [|discriminate].
  cbn [negb] in H. apply Returned_inj in H.
  assert (Hv : version = v) by congruence.
  assert (Hh : Js.substring (Js.str (map C32.hex_at DD)) 0
                 (Js.length (Js.str (map C32.hex_at DD)) - 8) = h) by congruence.
  clear H.
  (* the version is a c32 digit *)
  assert (VB : 0 <= version < 32 /\ C32.is_c32_char (C32.normalize_char c1) = true).
  { destruct (c32_index_bounds (C32.normalize_char c1)) as [M|B]; [|exact B].
    exfalso. fold version in M. rewrite M in CS.
    pose proof (c32checksum_no_version
                  (Js.substring (Js.str (map C32.hex_at DD)) 0
                     (Js.length (Js.str (map C32.hex_at DD)) - 8))) as T.
    rewrite CS in T. discriminate. }
  destruct VB as [VB IC].
  (* payload and checksum *)
  pose proof (c32checksum_length _ _ CS) as EL. rewrite EQ in EL.
  destruct (payload_checksum_split _ EL) as (LL & PS & SS).
  rewrite length_map in LL, PS, SS. rewrite length_firstn, length_map in LL.
  rewrite firstn_map in PS. rewrite skipn_map in SS.
  set (n8 := (List.length DD - 8)%nat) in *.
  pose proof (decoded_digits_range C RC) as RD. fold DD in RD.
  pose proof (decoded_digits_even C) as ED. fold DD in ED.
  assert (RS : in_range 16 (firstn n8 DD) /\ in_range 16 (skipn n8 DD)).
  { apply Forall_app. rewrite firstn_skipn. exact RD. }
  destruct RS as [RP RK].
  assert (EP : Nat.even (List.length (firstn n8 DD)) = true).
  { rewrite length_firstn. replace (Nat.min n8 (List.length DD)) with n8 by lia.
    apply even_minus_8; [lia|exact ED]. }
  rewrite PS in CS.
  destruct (version_payload_digits version (firstn n8 DD) VB RP EP) as (VP & RV & EV).
  rewrite VP, c32checksum_digits in CS by assumption.
  apply Returned_inj in CS. rewrite <- CS, SS in EQ.
  apply str_inj, map_hex_at_inj in EQ;
    [|apply checksum_digits_spec|exact RK].
  exists c1, body, C, (firstn n8 DD).
  subst v. fold version.
  repeat split; try assumption; try lia.
  - apply (c32_char_facts _ IC).
  - rewrite <- Hh, PS. reflexivity.
  - rewrite EQ. symmetry. apply firstn_skipn.
Qed.

(** Encoding what a decode returned, when it is a 40-digit payload, gives
    the normal form of the address. *)
Lemma c32address_c32addressDecode (s : string) (v : Z) (h : string) :
  C32.c32addressDecode s = Returned (v, h) -> Js.length h = 40 ->
  C32.c32address v h = Returned (C32.c32normalize s).
Proof.
  intros H L.
  destruct (c32addressDecode_inv s v h H)
    as (c1 & body & C & Dp & -> & _ & VB & VC & RC & N & RP & EP & -> & DD).
  rewrite length_str, length_map in L.
  rewrite c32address_digits by (assumption || lia).
  unfold address_digits. rewrite <- DD, encoded_decoded by exact RC.
  cbn [C32.c32normalize]. rewrite VC, N. reflexivity.
Qed.

(** * Properties of address.ts *)

Open Scope string_scope.

(** ** Classification of the version byte *)

(** C4: the version switch returns (mainnet, single-sig) for 22, (mainnet,
    multi-sig) for 20, (testnet, single-sig) for 26, (testnet, multi-sig)
    for 21, and null for every other value, among them 0, 19, 23, 27 and
    255. *)
Theorem classify_table :
  classify 22 = Some (mainnet, single_sig) /\
  classify 20 = Some (mainnet, multi_sig) /\
  classify 26 = Some (testnet, single_sig) /\
  classify 21 = Some (testnet, multi_sig) /\
  (forall v : Z, In v [22; 20; 26; 21]%Z \/ classify v = None) /\
  classify 0 = None /\ classify 19 = None /\ classify 23 = None /\
  classify 27 = None /\ classify 255 = None.
Proof.
  repeat split; try reflexivity.
  intro v. unfold classify, ADDRESS_VERSION.MAINNET_SINGLE_SIG,
    ADDRESS_VERSION.MAINNET_MULTI_SIG, ADDRESS_VERSION.TESTNET_SINGLE_SIG,
    ADDRESS_VERSION.TESTNET_MULTI_SIG.
  destruct (Z.eqb_spec v 22); [left; simpl; lia|].
  destruct (Z.eqb_spec v 20); [left; simpl; lia|].
  destruct (Z.eqb_spec v 26); [left; simpl; lia|].
  destruct (Z.eqb_spec v 21); [left; simpl; lia|].
  right; reflexivity.
Qed.

Lemma classify_some (v : Z) (n : NetworkType) (t : AddressType) :
  classify v = Some (n, t) -> v = address_version n t.
Proof.
  unfold classify, ADDRESS_VERSION.MAINNET_SINGLE_SIG,
    ADDRESS_VERSION.MAINNET_MULTI_SIG, ADDRESS_VERSION.TESTNET_SINGLE_SIG,
    ADDRESS_VERSION.TESTNET_MULTI_SIG.
  destruct (Z.eqb_spec v 22); [intros [= <- <-]; assumption|].
  destruct (Z.eqb_spec v 20); [intros [= <- <-]; assumption|].
  destruct (Z.eqb_spec v 26); [intros [= <- <-]; assumption|].
  destruct (Z.eqb_spec v 21); [intros [= <- <-]; assumption|].
  discriminate.
Qed.

Lemma classify_address_version (n : NetworkType) (t : AddressType) :
  classify (address_version n t) = Some (n, t).
Proof. destruct n, t; reflexivity. Qed.

(** ** Network detection *)

Lemma startsWith_nil (s : string) : Js.startsWith s "" = true.
Proof. destruct s; reflexivity. Qed.

Lemma startsWith_empty (p : ascii) (ps : string) :
  Js.startsWith "" (String p ps) = false.
Proof. reflexivity. Qed.

Lemma startsWith_cons (c p : ascii) (s ps : string) :
  Js.startsWith (String c s) (String p ps) = Ascii.eqb c p && Js.startsWith s ps.
Proof.
  unfold Js.startsWith. cbn [String.prefix].
  destruct (ascii_dec p c) as [->|n].
  - rewrite Ascii.eqb_refl. reflexivity.
  - destruct (Ascii.eqb_spec c p) as [->|_]; [contradiction|reflexivity].
Qed.

Lemma startsWith2 (c0 c1 p0 p1 : ascii) (r : string) :
  Js.startsWith (String c0 (String c1 r)) (String p0 (String p1 "")) =
  Ascii.eqb c0 p0 && Ascii.eqb c1 p1.
Proof. rewrite !startsWith_cons, startsWith_nil, andb_true_r. reflexivity. Qed.

(** C8: the network of an address is read off its first two characters,
    case-sensitively and without decoding: mainnet exactly for SP and SM,
    testnet exactly for ST and SN, null otherwise. *)
Theorem getNetworkFromAddress_prefix :
  (forall a, getNetworkFromAddress a = NetworkOf_spec a) /\
  (forall c0 c1 r r',
     getNetworkFromAddress (String c0 (String c1 r)) =
     getNetworkFromAddress (String c0 (String c1 r'))) /\
  (forall c0, getNetworkFromAddress (String c0 "") = None) /\
  getNetworkFromAddress "" = None /\
  (forall r, getNetworkFromAddress ("SP" ++ r) = Some mainnet) /\
  (forall r, getNetworkFromAddress ("SM" ++ r) = Some mainnet) /\
  (forall r, getNetworkFromAddress ("ST" ++ r) = Some testnet) /\
  (forall r, getNetworkFromAddress ("SN" ++ r) = Some testnet) /\
  (forall r, getNetworkFromAddress ("sp" ++ r) = None) /\
  (forall r, getNetworkFromAddress ("st" ++ r) = None).
Proof.
  assert (E : forall a, getNetworkFromAddress a = NetworkOf_spec a).
  { intros [|c0 [|c1 r]].
    - reflexivity.
    - unfold getNetworkFromAddress, isMainnetAddress, isTestnetAddress.
      rewrite !startsWith_cons, !startsWith_empty, !andb_false_r. reflexivity.
    - unfold getNetworkFromAddress, isMainnetAddress, isTestnetAddress,
        NetworkOf_spec.
      rewrite !startsWith2.
      destruct (Ascii.eqb c0 "S"); simpl; reflexivity. }
  split; [exact E|].
  split; [intros; rewrite !E; reflexivity|].
  split; [intros; rewrite E; reflexivity|].
  repeat split; intros; rewrite E; reflexivity.
Qed.

(** ** Comparison of addresses *)

Lemma upper_char_eqb (c d : ascii) :
  Ascii.eqb (Js.upper_char c) (Js.upper_char d) = same_char_ignoring_case c d.
Proof.
  apply eqb_prop.
  apply (forall_ascii2
    (fun c d => Bool.eqb (Ascii.eqb (Js.upper_char c) (Js.upper_char d))
                         (same_char_ignoring_case c d))).
  vm_compute. reflexivity.
Qed.

Lemma upper_lower_char (c : ascii) :
  Js.upper_char (Js.lower_char c) = Js.upper_char c.
Proof.
  apply Ascii.eqb_eq.
  apply (forall_ascii
    (fun c => Ascii.eqb (Js.upper_char (Js.lower_char c)) (Js.upper_char c))).
  vm_compute. reflexivity.
Qed.

Lemma toUpperCase_eqb (a b : string) :
  String.eqb (Js.toUpperCase a) (Js.toUpperCase b) = equal_ignoring_case a b.
Proof.
  revert b. induction a as [|c a IH]; intros [|d b]; try reflexivity.
  cbn [Js.toUpperCase String.eqb equal_ignoring_case].
  rewrite <- upper_char_eqb, <- IH.
  destruct (Ascii.eqb (Js.upper_char c) (Js.upper_char d)); reflexivity.
Qed.

Lemma toUpperCase_toLowerCase (a : string) :
  Js.toUpperCase (Js.toLowerCase a) = Js.toUpperCase a.
Proof.
  induction a as [|c a IH]; [reflexivity|].
  cbn [Js.toLowerCase Js.toUpperCase]. rewrite upper_lower_char, IH. reflexivity.
Qed.

(** C9: [addressesEqual] is false when either address is empty, and
    otherwise, for addresses written in ASCII, is true exactly when the two
    are equal ignoring letter case; an address equals its lower-case
    form. *)
Theorem addressesEqual_ignores_case :
  (forall b, addressesEqual "" b = false) /\
  (forall a, addressesEqual a "" = false) /\
  (forall c a d b,
     is_ascii (String c a) = true -> is_ascii (String d b) = true ->
     addressesEqual (String c a) (String d b) =
     equal_ignoring_case (String c a) (String d b)) /\
  (forall c a,
     is_ascii (String c a) = true ->
     addressesEqual (String c a) (Js.toLowerCase (String c a)) = true) /\
  addressesEqual "SP2J6ZY48GV1EZ5V2V5RB9MP66SW86PYKKNRV9EJ7"
                 "sp2j6zy48gv1ez5v2v5rb9mp66sw86pykknrv9ej7" = true /\
  addressesEqual "" "SP123" = false.
Proof.
  split; [reflexivity|].
  split; [intros [|c a]; reflexivity|].
  split.
  { intros c a d b _ _. unfold addressesEqual. cbn [Js.falsy orb].
    apply toUpperCase_eqb. }
  split.
  { intros c a _. unfold addressesEqual. cbn [Js.toLowerCase Js.falsy orb].
    change (String (Js.lower_char c) (Js.toLowerCase a))
      with (Js.toLowerCase (String c a)).
    rewrite toUpperCase_toLowerCase. apply String.eqb_refl. }
  split; vm_compute; reflexivity.
Qed.

Lemma addressesEqual_ignores_case_witness :
  addressesEqual "SP2J6ZY48GV1EZ5V2V5RB9MP66SW86PYKKNRV9EJ7"
                 "sp2j6zy48gv1ez5v2v5rb9mp66sw86pykknrv9ej7" =
  equal_ignoring_case "SP2J6ZY48GV1EZ5V2V5RB9MP66SW86PYKKNRV9EJ7"
                      "sp2j6zy48gv1ez5v2v5rb9mp66sw86pykknrv9ej7" /\
  addressesEqual "SP2J6ZY48GV1EZ5V2V5RB9MP66SW86PYKKNRV9EJ7"
    (Js.toLowerCase "SP2J6ZY48GV1EZ5V2V5RB9MP66SW86PYKKNRV9EJ7") = true.
Proof.
  split.
  - apply (proj1 (proj2 (proj2 addressesEqual_ignores_case))
             "S"%char "P2J6ZY48GV1EZ5V2V5RB9MP66SW86PYKKNRV9EJ7"
             "s"%char "p2j6zy48gv1ez5v2v5rb9mp66sw86pykknrv9ej7");
      vm_compute; reflexivity.
  - apply (proj1 (proj2 (proj2 (proj2 addressesEqual_ignores_case)))
             "S"%char "P2J6ZY48GV1EZ5V2V5RB9MP66SW86PYKKNRV9EJ7").
    vm_compute. reflexivity.
Defined.

(** ** Shortening *)

Lemma slice_first (a : string) (n : nat) :
  (Z.of_nat n <= Js.length a)%Z ->
  Js.slice a 0 (Z.of_nat n) = first_chars n a.
Proof.
  intro H. unfold Js.slice, Js.relative, first_chars.
  destruct (Z.ltb_spec 0 0); [lia|].
  destruct (Z.ltb_spec (Z.of_nat n) 0); [lia|].
  pose proof (length_nonneg a).
  replace (Z.min 0 (Js.length a)) with 0%Z by lia.
  replace (Z.max (Z.min (Z.of_nat n) (Js.length a) - 0) 0) with (Z.of_nat n) by lia.
  rewrite Nat2Z.id. reflexivity.
Qed.

Lemma slice_last (a : string) (n : nat) :
  (1 <= n)%nat -> (Z.of_nat n <= Js.length a)%Z ->
  Js.slice_from a (- Z.of_nat n) = last_chars n a.
Proof.
  intros Hn H. unfold Js.slice_from, Js.slice, Js.relative, last_chars.
  destruct (Z.ltb_spec (- Z.of_nat n) 0); [|lia].
  pose proof (length_nonneg a).
  destruct (Z.ltb_spec (Js.length a) 0); [lia|].
  replace (Z.max (Z.min (Js.length a) (Js.length a) -
                  Z.max (Js.length a + - Z.of_nat n) 0) 0)
    with (Z.of_nat n) by lia.
  rewrite Nat2Z.id.
  replace (Z.to_nat (Z.max (Js.length a + - Z.of_nat n) 0))
    with (String.length a - n)%nat by (unfold Js.length in *; lia).
  reflexivity.
Qed.

(** On non-negative [startChars] and positive [endChars] the function is
    the one described: unchanged up to [startChars + endChars + 3]
    characters, else the first and last characters around "...". *)
Lemma shortenAddress_positive (a : string) (startChars endChars : nat) :
  (1 <= endChars)%nat ->
  shortenAddress a (Z.of_nat startChars) (Z.of_nat endChars) =
  if (String.length a <=? startChars + endChars + 3)%nat then a
  else first_chars startChars a ++ "..." ++ last_chars endChars a.
Proof.
  intro He. unfold shortenAddress.
  destruct (Nat.leb_spec (String.length a) (startChars + endChars + 3)) as [L|L].
  - destruct (Js.falsy a); [reflexivity|]. cbn [orb].
    destruct (Z.leb_spec (Js.length a)
                (Z.of_nat startChars + Z.of_nat endChars + 3)) as [_|G];
      [reflexivity|]. unfold Js.length in G. lia.
  - destruct a as [|c a]; [simpl in L; lia|]. cbn [Js.falsy orb].
    destruct (Z.leb_spec (Js.length (String c a))
                (Z.of_nat startChars + Z.of_nat endChars + 3)) as [G|_].
    { unfold Js.length in G. lia. }
    rewrite slice_first, slice_last; [reflexivity|assumption| |];
      unfold Js.length; lia.
Qed.

(** C7 (failing input): with [endChars = 0] the tail is [slice(-0)], the
    whole address, not its last zero characters. *)
Theorem shortenAddress_endChars_zero :
  shortenAddress "SP2J6ZY48GV1EZ5V2V5RB9MP66SW86PYKKNRV9EJ7" 5 0 =
  "SP2J6...SP2J6ZY48GV1EZ5V2V5RB9MP66SW86PYKKNRV9EJ7".
Proof. vm_compute. reflexivity. Qed.

Lemma shortenAddress_default_examples :
  shortenAddress_default "SP2J6ZY48GV1EZ5V2V5RB9MP66SW86PYKKNRV9EJ7" = "SP2J6...9EJ7" /\
  shortenAddress_default "SP123" = "SP123".
Proof. split; vm_compute; reflexivity. Qed.

(** ** Validation and parsing never throw *)

Lemma has_known_prefix_false (s : string) :
  has_known_prefix s = false ->
  negb (Js.startsWith s "SP") && negb (Js.startsWith s "ST") &&
  negb (Js.startsWith s "SM") && negb (Js.startsWith s "SN") = true.
Proof.
  unfold has_known_prefix.
  destruct (Js.startsWith s "SP"), (Js.startsWith s "ST"),
    (Js.startsWith s "SM"), (Js.startsWith s "SN"); simpl; congruence.
Qed.

Lemma has_known_prefix_true (s : string) :
  has_known_prefix s = true ->
  negb (Js.startsWith s "SP") && negb (Js.startsWith s "ST") &&
  negb (Js.startsWith s "SM") && negb (Js.startsWith s "SN") = false.
Proof.
  unfold has_known_prefix.
  destruct (Js.startsWith s "SP"), (Js.startsWith s "ST"),
    (Js.startsWith s "SM"), (Js.startsWith s "SN"); simpl; congruence.
Qed.

(** Closed form of the two functions over any decoder. *)
Lemma isValidStacksAddress_string
  (dec : string -> outcome (Z * string)) (s : string) :
  isValidStacksAddress dec (JsString s) =
  Returned (negb (Js.falsy s) && has_known_prefix s && returns (dec s)).
Proof.
  unfold isValidStacksAddress. cbn [js_not typeof].
  destruct (Js.falsy s); [reflexivity|].
  cbn [String.eqb negb orb andb].
  change (String.eqb "string" "string") with true. cbn [negb].
  destruct (has_known_prefix s) eqn:P.
  - rewrite (has_known_prefix_true s P). destruct (dec s); reflexivity.
  - rewrite (has_known_prefix_false s P). reflexivity.
Qed.

Lemma isValidStacksAddress_other
  (dec : string -> outcome (Z * string)) (v : js_value) :
  String.eqb (typeof v) "string" = false ->
  isValidStacksAddress dec v = Returned false.
Proof.
  intro H. unfold isValidStacksAddress. rewrite H.
  rewrite orb_true_r. reflexivity.
Qed.

Lemma parseStacksAddress_thrown
  (dec : string -> outcome (Z * string)) (s : string) :
  returns (dec s) = false -> parseStacksAddress dec s = Returned None.
Proof.
  unfold parseStacksAddress. destruct (dec s); [discriminate|reflexivity].
Qed.

Lemma parseStacksAddress_returned
  (dec : string -> outcome (Z * string)) (s : string) (v : Z) (h : string) :
  dec s = Returned (v, h) ->
  parseStacksAddress dec s =
  Returned match classify v with
           | Some (n, t) =>
               Some {| address := s; network := n; type := t; version := v;
                       hash160 := h; isValid := true |}
           | None => None
           end.
Proof.
  intro E. unfold parseStacksAddress. rewrite E. cbn [bind].
  destruct (classify v) as [[n t]|]; reflexivity.
Qed.

(** C6: over any decoder, validation returns false without throwing for a
    non-string, an empty string or a string with none of the prefixes SP,
    ST, SM, SN; it returns true only when the decode succeeded; neither
    validation nor parsing throws, a failing decode becoming false and
    null. *)
Theorem validation_and_parsing_never_throw
  (dec : string -> outcome (Z * string)) :
  (forall v, exists b, isValidStacksAddress dec v = Returned b) /\
  (forall s, exists r, parseStacksAddress dec s = Returned r) /\
  (forall v, String.eqb (typeof v) "string" = false ->
             isValidStacksAddress dec v = Returned false) /\
  isValidStacksAddress dec (JsString "") = Returned false /\
  (forall s, has_known_prefix s = false ->
             isValidStacksAddress dec (JsString s) = Returned false) /\
  (forall v, isValidStacksAddress dec v = Returned true ->
             exists s, v = JsString s /\ s <> "" /\ has_known_prefix s = true /\
                       returns (dec s) = true) /\
  (forall s, returns (dec s) = false ->
             isValidStacksAddress dec (JsString s) = Returned false /\
             parseStacksAddress dec s = Returned None).
Proof.
  assert (T : forall v, exists b, isValidStacksAddress dec v = Returned b).
  { intros [| |b|n| |s]; try (eexists; apply isValidStacksAddress_other; reflexivity).
    eexists. apply isValidStacksAddress_string. }
  split; [exact T|].
  split.
  { intro s. destruct (dec s) as [[v h]|e] eqn:E.
    - eexists. apply (parseStacksAddress_returned dec s v h E).
    - eexists. apply parseStacksAddress_thrown. rewrite E. reflexivity. }
  split; [apply isValidStacksAddress_other|].
  split; [reflexivity|].
  split.
  { intros s P. rewrite isValidStacksAddress_string, P, andb_false_r. reflexivity. }
  split.
  { intros [| |b|n| |s] H;
      try (rewrite isValidStacksAddress_other in H by reflexivity; discriminate).
    rewrite isValidStacksAddress_string in H. injection H as H.
    apply andb_true_iff in H as [H R]. apply andb_true_iff in H as [F P].
    exists s. repeat split; try assumption.
    intros ->. discriminate. }
  intros s R. split.
  - rewrite isValidStacksAddress_string, R, andb_false_r. reflexivity.
  - apply parseStacksAddress_thrown, R.
Qed.

(** What a parsed record says about the decode. *)
Lemma parseStacksAddress_decoded
  (dec : string -> outcome (Z * string)) (s : string) (info : AddressInfo) :
  parseStacksAddress dec s = Returned (Some info) ->
  dec s = Returned (address_version (network info) (type info), hash160 info).
Proof.
  intro H. destruct (dec s) as [[v h]|e] eqn:E.
  - rewrite (parseStacksAddress_returned dec s v h E) in H.
    destruct (classify v) as [[n t]|] eqn:C; [|discriminate].
    injection H as <-. cbn [network type hash160].
    rewrite (classify_some v n t C). reflexivity.
  - rewrite parseStacksAddress_thrown in H by (rewrite E; reflexivity).
    discriminate.
Qed.

(** C10: a record returned by parsing has [isValid = true], carries the
    input string unchanged as its address, has a version among 20, 21, 22
    and 26, and its network and type are the table's entry for that
    version. *)
Theorem parseStacksAddress_record
  (dec : string -> outcome (Z * string)) (s : string) (info : AddressInfo) :
  parseStacksAddress dec s = Returned (Some info) ->
  isValid info = true /\
  address info = s /\
  In (version info) [20; 21; 22; 26]%Z /\
  classify (version info) = Some (network info, type info) /\
  version info = address_version (network info) (type info) /\
  dec s = Returned (version info, hash160 info).
Proof.
  intro H. destruct (dec s) as [[v h]|e] eqn:E.
  - rewrite (parseStacksAddress_returned dec s v h E) in H.
    destruct (classify v) as [[n t]|] eqn:C; [|discriminate].
    injection H as <-. cbn [isValid address version network type hash160].
    pose proof (classify_some v n t C) as V.
    repeat split; try assumption.
    subst v. destruct n, t; simpl; auto.
  - rewrite parseStacksAddress_thrown in H by (rewrite E; reflexivity).
    discriminate.
Qed.

Lemma parseStacksAddress_record_witness :
  parseStacksAddress C32.c32addressDecode
    "SP2J6ZY48GV1EZ5V2V5RB9MP66SW86PYKKNRV9EJ7" =
  Returned (Some {| address := "SP2J6ZY48GV1EZ5V2V5RB9MP66SW86PYKKNRV9EJ7";
                    network := mainnet; type := single_sig; version := 22;
                    hash160 := "a46ff88886c2ef9762d970b4d2c63678835bd39d";
                    isValid := true |}) /\
  In 22%Z [20; 21; 22; 26]%Z.
Proof.
  assert (H : parseStacksAddress C32.c32addressDecode
                "SP2J6ZY48GV1EZ5V2V5RB9MP66SW86PYKKNRV9EJ7" =
              Returned (Some {| address := "SP2J6ZY48GV1EZ5V2V5RB9MP66SW86PYKKNRV9EJ7";
                    network := mainnet; type := single_sig; version := 22;
                    hash160 := "a46ff88886c2ef9762d970b4d2c63678835bd39d";
                    isValid := true |})) by (vm_compute; reflexivity).
  split; [exact H|].
  exact (proj1 (proj2 (proj2 (parseStacksAddress_record _ _ _ H)))).
Defined.

(** * Encoding and decoding addresses *)

Lemma version_in_range (v : Z) : In v [22; 20; 26; 21]%Z -> (0 <= v < 32)%Z.
Proof. cbn [In]. lia. Qed.

Lemma known_version (v : Z) :
  In v [22; 20; 26; 21]%Z -> exists n t, address_version n t = v.
Proof.
  cbn [In]. intros [<-|[<-|[<-|[<-|[]]]]].
  - exists mainnet, single_sig. reflexivity.
  - exists mainnet, multi_sig. reflexivity.
  - exists testnet, single_sig. reflexivity.
  - exists testnet, multi_sig. reflexivity.
Qed.

Lemma address_version_known (n : NetworkType) (t : AddressType) :
  In (address_version n t) [22; 20; 26; 21]%Z.
Proof. destruct n, t; cbn; auto. Qed.

Lemma known_version_prefix (v : Z) (rest : string) :
  In v [22; 20; 26; 21]%Z ->
  has_known_prefix (String "S" (String (C32.c32_at v) rest)) = true.
Proof.
  cbn [In]. intros [<-|[<-|[<-|[<-|[]]]]];
    unfold has_known_prefix; rewrite !startsWith_cons, !startsWith_nil;
    reflexivity.
Qed.

(** The hex string of a 20-byte payload. *)
Lemma payload_hex (payload : list Z) :
  List.length payload = 20%nat -> Forall (fun b => (0 <= b < 256)%Z) payload ->
  C32.bytesToHex payload = Js.str (map C32.hex_at (byte_digits payload)) /\
  in_range 16 (byte_digits payload) /\
  List.length (byte_digits payload) = 40%nat.
Proof.
  intros L R. destruct (byte_digits_spec payload R) as [BL BR].
  split; [apply bytesToHex_digits|]. split; [exact BR|]. rewrite BL, L. reflexivity.
Qed.

(** C1: for every 20-byte payload and each of the versions 22, 20, 26 and
    21, the address encoded for the version and the payload decodes to
    exactly that version and that payload. *)
Theorem encode_then_decode (payload : list Z) (v : Z) :
  List.length payload = 20%nat ->
  Forall (fun b => (0 <= b < 256)%Z) payload ->
  In v [22; 20; 26; 21]%Z ->
  exists n t a,
    address_version n t = v /\
    hash160ToAddress C32.c32address (C32.bytesToHex payload) n t = Returned a /\
    C32.c32addressDecode a = Returned (v, C32.bytesToHex payload).
Proof.
  intros L R V.
  destruct (known_version v V) as (n & t & NV).
  destruct (payload_hex payload L R) as (E & RD & LD).
  pose proof (version_in_range v V) as VB.
  exists n, t. eexists. split; [exact NV|].
  unfold hash160ToAddress. rewrite NV, E.
  split; [apply c32address_digits|apply c32addressDecode_digits]; assumption.
Qed.

Lemma encode_then_decode_witness :
  exists n t a,
    address_version n t = 22%Z /\
    hash160ToAddress C32.c32address
      (C32.bytesToHex [164; 111; 248; 136; 134; 194; 239; 151; 98; 217;
                       112; 180; 210; 198; 54; 120; 131; 91; 211; 157]%Z) n t =
      Returned a /\
    C32.c32addressDecode a =
      Returned (22%Z,
        C32.bytesToHex [164; 111; 248; 136; 134; 194; 239; 151; 98; 217;
                        112; 180; 210; 198; 54; 120; 131; 91; 211; 157]%Z).
Proof.
  apply (encode_then_decode
           [164; 111; 248; 136; 134; 194; 239; 151; 98; 217;
            112; 180; 210; 198; 54; 120; 131; 91; 211; 157]%Z 22%Z).
  - reflexivity.
  - repeat constructor; lia.
  - simpl. auto.
Defined.

(** C3: for every 20-byte payload and each of the versions 22, 20, 26 and
    21, the encoded address validates. *)
Theorem validate_encoded (payload : list Z) (v : Z) :
  List.length payload = 20%nat ->
  Forall (fun b => (0 <= b < 256)%Z) payload ->
  In v [22; 20; 26; 21]%Z ->
  exists n t a,
    address_version n t = v /\
    hash160ToAddress C32.c32address (C32.bytesToHex payload) n t = Returned a /\
    isValidStacksAddress C32.c32addressDecode (JsString a) = Returned true.
Proof.
  intros L R V.
  destruct (known_version v V) as (n & t & NV).
  destruct (payload_hex payload L R) as (E & RD & LD).
  pose proof (version_in_range v V) as VB.
  exists n, t. eexists. split; [exact NV|].
  unfold hash160ToAddress. rewrite NV, E.
  split; [apply c32address_digits; assumption|].
  rewrite isValidStacksAddress_string.
  rewrite c32addressDecode_digits by assumption.
  rewrite known_version_prefix by exact V. reflexivity.
Qed.

Lemma validate_encoded_witness :
  exists n t a,
    address_version n t = 26%Z /\
    hash160ToAddress C32.c32address
      (C32.bytesToHex [164; 111; 248; 136; 134; 194; 239; 151; 98; 217;
                       112; 180; 210; 198; 54; 120; 131; 91; 211; 157]%Z) n t =
      Returned a /\
    isValidStacksAddress C32.c32addressDecode (JsString a) = Returned true.
Proof.
  apply (validate_encoded
           [164; 111; 248; 136; 134; 194; 239; 151; 98; 217;
            112; 180; 210; 198; 54; 120; 131; 91; 211; 157]%Z 26%Z).
  - reflexivity.
  - repeat constructor; lia.
  - simpl. auto.
Defined.

(** The same for a payload given as any 40-digit hex string: the decoded
    payload is the string in lower case. *)
Lemma hash160ToAddress_roundtrip (h : string) (n : NetworkType) (t : AddressType) :
  C32.is_hash160_hex h = true ->
  exists a,
    hash160ToAddress C32.c32address h n t = Returned a /\
    C32.c32addressDecode a = Returned (address_version n t, Js.toLowerCase h) /\
    parseStacksAddress C32.c32addressDecode a =
      Returned (Some {| address := a; network := n; type := t;
                        version := address_version n t;
                        hash160 := Js.toLowerCase h; isValid := true |}).
Proof.
  intro A.
  destruct (c32address_roundtrip (address_version n t) h
              (version_in_range _ (address_version_known n t)) A)
    as (rest & E & D).
  eexists. split; [exact E|]. split; [exact D|].
  rewrite (parseStacksAddress_returned _ _ _ _ D), classify_address_version.
  reflexivity.
Qed.

(** C2 (counterexample): a valid mainnet single-sig address written with
    lower-case digits is re-encoded in upper case, and one whose payload
    is not 20 bytes cannot be re-encoded. *)
Lemma decode_then_encode_counterexample :
  (isValidStacksAddress C32.c32addressDecode
     (JsString "SP2j6zy48gv1ez5v2v5rb9mp66sw86pykknrv9ej7") = Returned true /\
   parseStacksAddress C32.c32addressDecode
     "SP2j6zy48gv1ez5v2v5rb9mp66sw86pykknrv9ej7" =
   Returned (Some {| address := "SP2j6zy48gv1ez5v2v5rb9mp66sw86pykknrv9ej7";
                     network := mainnet; type := single_sig; version := 22;
                     hash160 := "a46ff88886c2ef9762d970b4d2c63678835bd39d";
                     isValid := true |}) /\
   hash160ToAddress C32.c32address "a46ff88886c2ef9762d970b4d2c63678835bd39d"
     mainnet single_sig = Returned "SP2J6ZY48GV1EZ5V2V5RB9MP66SW86PYKKNRV9EJ7" /\
   "SP2J6ZY48GV1EZ5V2V5RB9MP66SW86PYKKNRV9EJ7" <>
   "SP2j6zy48gv1ez5v2v5rb9mp66sw86pykknrv9ej7") /\
  (isValidStacksAddress C32.c32addressDecode
     (JsString "SPA8VZRH23C5VWQCBCQ1D6JRRV7H0TVTFENS7H4") = Returned true /\
   parseStacksAddress C32.c32addressDecode
     "SPA8VZRH23C5VWQCBCQ1D6JRRV7H0TVTFENS7H4" =
   Returned (Some {| address := "SPA8VZRH23C5VWQCBCQ1D6JRRV7H0TVTFENS7H4";
                     network := mainnet; type := single_sig; version := 22;
                     hash160 := "a46ff88886c2ef9762d970b4d2c63678835bd3";
                     isValid := true |}) /\
   hash160ToAddress C32.c32address "a46ff88886c2ef9762d970b4d2c63678835bd3"
     mainnet single_sig = Thrown "Invalid argument: not a hash160 hex string").
Proof.
  split; repeat split; try (vm_compute; reflexivity).
  discriminate.
Qed.

(** C2 (amended): for a valid mainnet single-sig address with a 20-byte
    payload, decoding and encoding again gives the address in normal form
    (upper case, O read as 0, I and L as 1): the address itself exactly
    when it is written in that form. *)
Theorem decode_then_encode (s : string) (info : AddressInfo) :
  isValidStacksAddress C32.c32addressDecode (JsString s) = Returned true ->
  parseStacksAddress C32.c32addressDecode s = Returned (Some info) ->
  network info = mainnet -> type info = single_sig ->
  Js.length (hash160 info) = 40%Z ->
  hash160ToAddress C32.c32address (hash160 info) (network info) (type info) =
    Returned (C32.c32normalize s) /\
  (hash160ToAddress C32.c32address (hash160 info) (network info) (type info) =
     Returned s <-> C32.c32normalize s = s).
Proof.
  intros _ P _ _ L.
  pose proof (parseStacksAddress_decoded _ _ _ P) as D.
  assert (E : hash160ToAddress C32.c32address (hash160 info) (network info)
                (type info) = Returned (C32.c32normalize s)).
  { unfold hash160ToAddress. apply c32address_c32addressDecode; assumption. }
  split; [exact E|]. rewrite E. split.
  - intro R. apply Returned_inj in R. exact R.
  - intros ->. reflexivity.
Qed.

Lemma decode_then_encode_witness :
  hash160ToAddress C32.c32address "a46ff88886c2ef9762d970b4d2c63678835bd39d"
    mainnet single_sig =
  Returned (C32.c32normalize "SP2J6ZY48GV1EZ5V2V5RB9MP66SW86PYKKNRV9EJ7").
Proof.
  exact (proj1 (decode_then_encode
    "SP2J6ZY48GV1EZ5V2V5RB9MP66SW86PYKKNRV9EJ7"
    {| address := "SP2J6ZY48GV1EZ5V2V5RB9MP66SW86PYKKNRV9EJ7";
       network := mainnet; type := single_sig; version := 22;
       hash160 := "a46ff88886c2ef9762d970b4d2c63678835bd39d";
       isValid := true |}
    ltac:(vm_compute; reflexivity) ltac:(vm_compute; reflexivity)
    eq_refl eq_refl eq_refl)).
Defined.

(** ** Parsing what validation rejects *)

(** C5 (failing input): validation rejects the string, whose prefix is
    not one of SP, ST, SM and SN, but parsing returns a record for it, with
    [isValid = true]: parsing has no test of the prefix, and the decoder
    reads the version character in either case. *)
Theorem parse_of_invalid_failing_input :
  isValidStacksAddress C32.c32addressDecode
    (JsString "Sp2J6ZY48GV1EZ5V2V5RB9MP66SW86PYKKNRV9EJ7") = Returned false /\
  parseStacksAddress C32.c32addressDecode
    "Sp2J6ZY48GV1EZ5V2V5RB9MP66SW86PYKKNRV9EJ7" =
  Returned (Some {| address := "Sp2J6ZY48GV1EZ5V2V5RB9MP66SW86PYKKNRV9EJ7";
                    network := mainnet; type := single_sig; version := 22;
                    hash160 := "a46ff88886c2ef9762d970b4d2c63678835bd39d";
                    isValid := true |}).
Proof. split; vm_compute; reflexivity. Qed.

Lemma has_known_prefix_two (c0 c1 : ascii) (r : string) :
  has_known_prefix (String c0 (String c1 r)) =
  has_known_prefix (String c0 (String c1 "")).
Proof. unfold has_known_prefix. rewrite !startsWith2. reflexivity. Qed.

Lemma unknown_prefix_version (c : ascii) :
  has_known_prefix (String "S" (String c "")) = false ->
  is_some (classify (Js.indexOf C32.c32 (C32.normalize_char c))) =
  second_char_lower_pmtn (String "S" (String c "")).
Proof.
  intro H.
  pose proof (forall_ascii
    (fun c => implb (negb (has_known_prefix (String "S" (String c ""))))
                (Bool.eqb
                   (is_some (classify (Js.indexOf C32.c32 (C32.normalize_char c))))
                   (second_char_lower_pmtn (String "S" (String c "")))))
    eq_refl c) as F.
  cbv beta in F. rewrite H in F. cbn [negb implb] in F.
  apply eqb_prop in F. exact F.
Qed.

(** Where parsing and validation part: a string that fails validation
    parses to null, except exactly when its second character is a
    lower-case p, m, t or n and the decoder accepts it. *)
Lemma parse_of_invalid (s : string) :
  isValidStacksAddress C32.c32addressDecode (JsString s) = Returned false ->
  (parseStacksAddress C32.c32addressDecode s = Returned None <->
   second_char_lower_pmtn s && returns (C32.c32addressDecode s) = false).
Proof.
  intros V. rewrite isValidStacksAddress_string in V. apply Returned_inj in V.
  destruct (C32.c32addressDecode s) as [[v h]|e] eqn:D.
  - rewrite (parseStacksAddress_returned _ _ _ _ D).
    destruct (c32addressDecode_inv s v h D)
      as (c1 & body & _ & _ & -> & Hv & _).
    cbn [Js.falsy negb andb returns] in V |- *.
    rewrite andb_true_r in V |- *. rewrite has_known_prefix_two in V.
    pose proof (unknown_prefix_version c1 V) as U. rewrite <- Hv in U.
    cbn [second_char_lower_pmtn] in U |- *.
    destruct (classify v) as [[n t]|]; cbn [is_some] in U; rewrite <- U.
    + split; [intro Q; apply Returned_inj in Q|]; discriminate.
    + split; reflexivity.
  - rewrite (parseStacksAddress_thrown _ s) by (rewrite D; reflexivity).
    cbn [returns]. rewrite andb_false_r. split; reflexivity.
Qed.

(** * Further properties of address.ts *)

(** ** Network detection *)

Lemma getNetworkFromAddress_two (c0 c1 : ascii) (r : string) :
  getNetworkFromAddress (String c0 (String c1 r)) =
  getNetworkFromAddress (String c0 (String c1 "")).
Proof.
  unfold getNetworkFromAddress, isMainnetAddress, isTestnetAddress.
  rewrite !startsWith2. reflexivity.
Qed.

(** X1: No string is both a mainnet and a testnet address, and
    [getNetworkFromAddress] tells which of the two tests holds. *)
Theorem mainnet_testnet_exclusive (a : string) :
  isMainnetAddress a && isTestnetAddress a = false /\
  (getNetworkFromAddress a = Some mainnet <-> isMainnetAddress a = true) /\
  (getNetworkFromAddress a = Some testnet <-> isTestnetAddress a = true) /\
  (getNetworkFromAddress a = None <->
   isMainnetAddress a = false /\ isTestnetAddress a = false).
Proof.
  assert (X : isMainnetAddress a && isTestnetAddress a = false).
  { unfold isMainnetAddress, isTestnetAddress.
    destruct a as [|c0 [|c1 r]]; [reflexivity| |].
    { rewrite !startsWith_cons, !startsWith_empty, !andb_false_r. reflexivity. }
    rewrite !startsWith2.
    destruct (Ascii.eqb c0 "S"); [|reflexivity]. cbn [andb].
    destruct (Ascii.eqb_spec c1 "P") as [->|]; [reflexivity|].
    destruct (Ascii.eqb_spec c1 "M") as [->|]; reflexivity. }
  split; [exact X|].
  unfold getNetworkFromAddress in *.
  destruct (isMainnetAddress a), (isTestnetAddress a);
    try discriminate X; repeat split; try congruence; intros []; congruence.
Qed.

(** ** Valid addresses *)

Lemma known_prefix_cases (s : string) :
  has_known_prefix s = true ->
  exists c1 body,
    s = String "S" (String c1 body) /\
    (c1 = "P" \/ c1 = "T" \/ c1 = "M" \/ c1 = "N")%char.
Proof.
  unfold has_known_prefix. destruct s as [|c0 [|c1 body]]; [discriminate| |].
  { rewrite !startsWith_cons, !startsWith_empty, !andb_false_r. discriminate. }
  rewrite !startsWith2. intro H. exists c1, body.
  destruct (Ascii.eqb_spec c0 "S") as [->|]; [|discriminate].
  split; [reflexivity|]. cbn [andb] in H.
  destruct (Ascii.eqb_spec c1 "P"); [auto|].
  destruct (Ascii.eqb_spec c1 "T"); [auto|].
  destruct (Ascii.eqb_spec c1 "M"); [auto|].
  destruct (Ascii.eqb_spec c1 "N"); [auto|discriminate].
Qed.

(** What validation says: a known prefix and a successful decode. *)
Lemma valid_address_inv (s : string) :
  isValidStacksAddress C32.c32addressDecode (JsString s) = Returned true ->
  exists c1 body v h,
    s = String "S" (String c1 body) /\
    (c1 = "P" \/ c1 = "T" \/ c1 = "M" \/ c1 = "N")%char /\
    C32.c32addressDecode s = Returned (v, h) /\
    v = Js.indexOf C32.c32 c1.
Proof.
  intro V. rewrite isValidStacksAddress_string in V. apply Returned_inj in V.
  apply andb_true_iff in V as [V R]. apply andb_true_iff in V as [_ P].
  destruct (known_prefix_cases s P) as (c1 & body & -> & K).
  destruct (C32.c32addressDecode _) as [[v h]|] eqn:D; [|discriminate].
  destruct (c32addressDecode_inv _ v h D)
    as (c1' & body' & _ & _ & E & Hv & _).
  injection E as <- <-.
  exists c1, body, v, h. repeat split; try assumption.
  rewrite Hv. destruct K as [-> | [-> | [-> | ->]]]; reflexivity.
Qed.

(** X2: Every address that validates also parses; the record keeps the
    address, its network is the one the prefix shows, and its type is
    single-sig for SP and ST, multi-sig for SM and SN. *)
Theorem valid_address_parses (s : string) :
  isValidStacksAddress C32.c32addressDecode (JsString s) = Returned true ->
  exists info,
    parseStacksAddress C32.c32addressDecode s = Returned (Some info) /\
    address info = s /\ isValid info = true /\
    getNetworkFromAddress s = Some (network info) /\
    Js.startsWith s (address_prefix (network info) (type info)) = true.
Proof.
  intro V.
  destruct (valid_address_inv s V) as (c1 & body & v & h & -> & K & D & Hv).
  rewrite (parseStacksAddress_returned _ _ _ _ D), Hv.
  rewrite getNetworkFromAddress_two.
  destruct K as [-> | [-> | [-> | ->]]]; eexists; (split; [reflexivity|]);
    cbn [address isValid network type address_prefix];
    rewrite startsWith2; repeat split; reflexivity.
Qed.

Lemma valid_address_parses_witness :
  exists info,
    parseStacksAddress C32.c32addressDecode
      "ST2J6ZY48GV1EZ5V2V5RB9MP66SW86PYKKQYAC0RQ" = Returned (Some info) /\
    address info = "ST2J6ZY48GV1EZ5V2V5RB9MP66SW86PYKKQYAC0RQ" /\
    isValid info = true /\
    getNetworkFromAddress "ST2J6ZY48GV1EZ5V2V5RB9MP66SW86PYKKQYAC0RQ" =
      Some (network info) /\
    Js.startsWith "ST2J6ZY48GV1EZ5V2V5RB9MP66SW86PYKKQYAC0RQ"
      (address_prefix (network info) (type info)) = true.
Proof.
  apply (valid_address_parses "ST2J6ZY48GV1EZ5V2V5RB9MP66SW86PYKKQYAC0RQ").
  vm_compute. reflexivity.
Defined.

(** ** Addresses built from a hash *)

Lemma address_version_inj (n n' : NetworkType) (t t' : AddressType) :
  address_version n t = address_version n' t' -> n = n' /\ t = t'.
Proof. destruct n, t, n', t'; cbn; intro H; try discriminate H; split; reflexivity. Qed.

Lemma c32_at_version_prefix (n : NetworkType) (t : AddressType) (rest : string) :
  Js.startsWith (String "S" (String (C32.c32_at (address_version n t)) rest))
    (address_prefix n t) = true.
Proof. destruct n, t; cbn [address_prefix]; rewrite startsWith2; reflexivity. Qed.

(** X3: Building an address from a 40-digit hex string (either case) and
    parsing it gives back the network and type it was built with and the
    payload in lower case; the address validates and its prefix shows the
    same network. *)
Theorem parse_hash160ToAddress (h : string) (n : NetworkType) (t : AddressType) :
  C32.is_hash160_hex h = true ->
  exists a,
    hash160ToAddress C32.c32address h n t = Returned a /\
    parseStacksAddress C32.c32addressDecode a =
      Returned (Some {| address := a; network := n; type := t;
                        version := address_version n t;
                        hash160 := Js.toLowerCase h; isValid := true |}) /\
    isValidStacksAddress C32.c32addressDecode (JsString a) = Returned true /\
    getNetworkFromAddress a = Some n /\
    Js.startsWith a (address_prefix n t) = true.
Proof.
  intro A.
  destruct (c32address_roundtrip (address_version n t) h
              (version_in_range _ (address_version_known n t)) A)
    as (rest & E & D).
  eexists. split; [exact E|].
  split.
  { rewrite (parseStacksAddress_returned _ _ _ _ D), classify_address_version.
    reflexivity. }
  split.
  { rewrite isValidStacksAddress_string, D.
    rewrite known_version_prefix by apply address_version_known. reflexivity. }
  split; [|apply c32_at_version_prefix].
  rewrite getNetworkFromAddress_two. destruct n, t; reflexivity.
Qed.

Lemma parse_hash160ToAddress_witness :
  exists a,
    hash160ToAddress C32.c32address "A46FF88886C2EF9762D970B4D2C63678835BD39D"
      testnet multi_sig = Returned a /\
    parseStacksAddress C32.c32addressDecode a =
      Returned (Some {| address := a; network := testnet; type := multi_sig;
                        version := address_version testnet multi_sig;
                        hash160 := Js.toLowerCase
                                     "A46FF88886C2EF9762D970B4D2C63678835BD39D";
                        isValid := true |}) /\
    isValidStacksAddress C32.c32addressDecode (JsString a) = Returned true /\
    getNetworkFromAddress a = Some testnet /\
    Js.startsWith a (address_prefix testnet multi_sig) = true.
Proof.
  apply (parse_hash160ToAddress "A46FF88886C2EF9762D970B4D2C63678835BD39D"
           testnet multi_sig).
  reflexivity.
Defined.

(** X4: [hash160ToAddress] throws exactly when the hash is not a string of 40
    hex digits, whatever the network and type. *)
Theorem hash160ToAddress_returns (h : string) (n : NetworkType) (t : AddressType) :
  returns (hash160ToAddress C32.c32address h n t) = C32.is_hash160_hex h.
Proof.
  destruct (C32.is_hash160_hex h) eqn:A.
  - destruct (c32address_roundtrip (address_version n t) h
                (version_in_range _ (address_version_known n t)) A)
      as (rest & E & _).
    unfold hash160ToAddress. rewrite E. reflexivity.
  - unfold hash160ToAddress, C32.c32address. rewrite A. reflexivity.
Qed.

(** X5: Two 40-digit hex strings, networks and types give the same address
    exactly when the networks and the types are the same and the hex
    strings are equal up to case. *)
Theorem hash160ToAddress_same_address
  (h h' : string) (n n' : NetworkType) (t t' : AddressType) :
  C32.is_hash160_hex h = true -> C32.is_hash160_hex h' = true ->
  (hash160ToAddress C32.c32address h n t = hash160ToAddress C32.c32address h' n' t'
   <-> n = n' /\ t = t' /\ Js.toLowerCase h = Js.toLowerCase h').
Proof.
  intros A A'. split.
  - intro E.
    destruct (c32address_roundtrip (address_version n t) h
                (version_in_range _ (address_version_known n t)) A)
      as (rest & E1 & D1).
    destruct (c32address_roundtrip (address_version n' t') h'
                (version_in_range _ (address_version_known n' t')) A')
      as (rest' & E2 & D2).
    unfold hash160ToAddress in E. rewrite E1, E2 in E. apply Returned_inj in E.
    rewrite E, D2 in D1. apply Returned_inj in D1.
    assert (V : address_version n' t' = address_version n t) by congruence.
    assert (L : Js.toLowerCase h' = Js.toLowerCase h) by congruence.
    destruct (address_version_inj _ _ _ _ V) as [-> ->]. auto.
  - intros (-> & -> & L). unfold hash160ToAddress.
    rewrite (c32address_lower _ h), (c32address_lower _ h'), L. reflexivity.
Qed.

Lemma hash160ToAddress_same_address_witness :
  hash160ToAddress C32.c32address "a46ff88886c2ef9762d970b4d2c63678835bd39d"
    mainnet single_sig =
  hash160ToAddress C32.c32address "A46FF88886C2EF9762D970B4D2C63678835BD39D"
    mainnet single_sig.
Proof.
  apply (hash160ToAddress_same_address
           "a46ff88886c2ef9762d970b4d2c63678835bd39d"
           "A46FF88886C2EF9762D970B4D2C63678835BD39D"
           mainnet mainnet single_sig single_sig eq_refl eq_refl).
  repeat split; reflexivity.
Defined.

(** X6: Parsing an address built by [hash160ToAddress] and building again from
    the parsed hash, network and type gives the same address. *)
Theorem hash160ToAddress_parse_again
  (h : string) (n : NetworkType) (t : AddressType) (a : string) :
  hash160ToAddress C32.c32address h n t = Returned a ->
  exists info,
    parseStacksAddress C32.c32addressDecode a = Returned (Some info) /\
    hash160ToAddress C32.c32address (hash160 info) (network info) (type info) =
      Returned a.
Proof.
  intro E.
  assert (A : C32.is_hash160_hex h = true).
  { destruct (C32.is_hash160_hex h) eqn:A; [reflexivity|].
    unfold hash160ToAddress, C32.c32address in E. rewrite A in E. discriminate. }
  destruct (c32address_roundtrip (address_version n t) h
              (version_in_range _ (address_version_known n t)) A)
    as (rest & E1 & D).
  unfold hash160ToAddress in E. rewrite E1 in E. apply Returned_inj in E. subst a.
  eexists. split.
  - rewrite (parseStacksAddress_returned _ _ _ _ D), classify_address_version.
    reflexivity.
  - cbn [hash160 network type]. unfold hash160ToAddress.
    rewrite <- c32address_lower. exact E1.
Qed.

Lemma hash160ToAddress_parse_again_witness :
  exists info,
    parseStacksAddress C32.c32addressDecode "SP000000000000000000002Q6VF78" =
      Returned (Some info) /\
    hash160ToAddress C32.c32address (hash160 info) (network info) (type info) =
      Returned "SP000000000000000000002Q6VF78".
Proof.
  apply (hash160ToAddress_parse_again
           "0000000000000000000000000000000000000000" mainnet single_sig).
  vm_compute. reflexivity.
Defined.

(** ** The shape of an address *)

Lemma pow2_lt (a b : Z) : (0 <= b)%Z -> (2 ^ a < 2 ^ b)%Z -> (a < b)%Z.
Proof.
  intros Hb L. destruct (Z.lt_ge_cases a b) as [G|G]; [exact G|].
  pose proof (Z.pow_le_mono_r 2 b a ltac:(lia) G). lia.
Qed.

Lemma pow16 (x : Z) : (0 <= x)%Z -> (16 ^ x = 2 ^ (4 * x))%Z.
Proof. intro H. change 16%Z with (2 ^ 4)%Z. rewrite <- Z.pow_mul_r by lia. reflexivity. Qed.

Lemma pow32 (x : Z) : (0 <= x)%Z -> (32 ^ x = 2 ^ (5 * x))%Z.
Proof. intro H. change 32%Z with (2 ^ 5)%Z. rewrite <- Z.pow_mul_r by lia. reflexivity. Qed.

Lemma even_pad_length (ds : list Z) :
  (List.length (even_pad ds) <= List.length ds + 1)%nat.
Proof. unfold even_pad. destruct (Nat.odd _); cbn [List.length]; lia. Qed.

(** The c32 digits of 24 bytes: between 24 and 39 of them. *)
Lemma encoded_digits_length_bounds (H : list Z) :
  in_range 16 H -> List.length H = 48%nat ->
  (24 <= List.length (encoded_digits H) <= 39)%nat.
Proof.
  intros R L.
  assert (EH : Nat.even (List.length H) = true) by (rewrite L; reflexivity).
  pose proof (split_pairs H R) as SP.
  assert (LH : (List.length H = 2 * lead_pairs H + List.length (strip_pairs H))%nat).
  { rewrite SP at 1. rewrite length_app, repeat_length. reflexivity. }
  destruct (enc_digits_be H R) as [VE RE].
  set (En := rev (enc_digits 0 (rev H))) in *.
  pose proof (strip0_in_range 32 En RE) as RS.
  pose proof (strip0_stripped En) as SS.
  pose proof (val_be_strip0 32 En) as VS. rewrite VE in VS.
  pose proof (val_be_bound 32 ltac:(lia) _ RS) as BS. rewrite VS in BS.
  pose proof (strip_pairs_range H R) as RP.
  pose proof (val_be_bound 16 ltac:(lia) _ RP) as BP.
  rewrite strip_pairs_value in BP by exact R.
  unfold encoded_digits. fold En. rewrite length_app, repeat_length.
  set (k := lead_pairs H) in *. set (S := strip0 En) in *.
  set (N := val_be 16 H) in *.
  split.
  - (* at least 24 digits *)
    rewrite strip_pairs_even_pad in LH by exact EH.
    pose proof (even_pad_length (strip0 H)) as PL.
    pose proof (strip0_stripped H) as ST.
    pose proof (strip0_in_range 16 H R) as RT.
    pose proof (val_be_strip0 16 H) as VT. fold N in VT.
    destruct (strip0 H) as [|x T'] eqn:T.
    + change (even_pad []) with (@nil Z) in LH. cbn [List.length] in LH. lia.
    + pose proof (val_be_lower 16 ltac:(lia) x T' RT ST) as Lo. rewrite VT in Lo.
      cbn [List.length] in PL.
      assert (K : (46 - 2 * Z.of_nat k <= Z.of_nat (List.length T'))%Z) by lia.
      assert (K0 : (0 <= 46 - 2 * Z.of_nat k)%Z).
      { assert (1 <= List.length (even_pad (x :: T')))%nat
          by (unfold even_pad; destruct (Nat.odd _); cbn [List.length]; lia).
        lia. }
      pose proof (Z.pow_le_mono_r 16 _ _ ltac:(lia) K) as M.
      rewrite (pow16 (46 - 2 * Z.of_nat k)) in M by lia.
      rewrite pow32 in BS by lia.
      assert (X : (2 ^ (4 * (46 - 2 * Z.of_nat k)) < 2 ^ (5 * Z.of_nat (List.length S)))%Z)
        by lia.
      apply pow2_lt in X; lia.
  - (* at most 39 digits *)
    destruct S as [|d S'] eqn:ES; [cbn [List.length]; lia|].
    pose proof (val_be_lower 32 ltac:(lia) d S' RS SS) as Lo. rewrite VS in Lo.
    rewrite pow32 in Lo by lia. rewrite pow16 in BP by lia.
    assert (X : (2 ^ (5 * Z.of_nat (List.length S')) <
                 2 ^ (4 * Z.of_nat (List.length (strip_pairs H))))%Z) by lia.
    apply pow2_lt in X; [|lia]. cbn [List.length]. lia.
Qed.

(** X7: An address built by [hash160ToAddress] has 26 to 41 characters, all
    of the c32 alphabet, and is its own normal form. *)
Theorem hash160ToAddress_shape
  (h : string) (n : NetworkType) (t : AddressType) (a : string) :
  hash160ToAddress C32.c32address h n t = Returned a ->
  (26 <= Js.length a <= 41)%Z /\
  C32.is_c32_string a = true /\
  C32.c32normalize a = a.
Proof.
  intro E.
  assert (A : C32.is_hash160_hex h = true).
  { destruct (C32.is_hash160_hex h) eqn:A; [reflexivity|].
    unfold hash160ToAddress, C32.c32address in E. rewrite A in E. discriminate. }
  unfold C32.is_hash160_hex in A.
  apply andb_true_iff in A as [A1 A2]. apply Z.eqb_eq in A2.
  destruct (hex_digits_of_string h A1) as (D & R & L & EL).
  assert (L40 : List.length D = 40%nat) by lia.
  pose proof (version_in_range _ (address_version_known n t)) as VB.
  unfold hash160ToAddress in E.
  rewrite c32address_lower, EL, c32address_digits in E by assumption.
  apply Returned_inj in E. subst a.
  set (v := address_version n t) in *.
  destruct (address_digits_spec v D R L40) as [RA _].
  destruct (c32_at_facts v VB) as (_ & IC & NV & _).
  split; [|split].
  - destruct (checksum_digits_spec (version_digits v ++ D)) as [CL CR].
    pose proof (encoded_digits_length_bounds
                  (D ++ checksum_digits (version_digits v ++ D))
                  ltac:(apply Forall_app; split; assumption)
                  ltac:(rewrite length_app, CL, L40; reflexivity)) as B.
    fold (address_digits v D) in B.
    unfold Js.length. cbn [String.length].
    pose proof (length_str (map C32.c32_at (address_digits v D))) as LS.
    unfold Js.length in LS. rewrite length_map in LS. lia.
  - unfold C32.is_c32_string. rewrite <- !str_cons, chars_str.
    cbn [forallb]. rewrite IC, c32_digits_are_c32 by exact RA. reflexivity.
  - cbn [C32.c32normalize]. rewrite NV, c32normalize_str, c32_digits_normal by exact RA.
    reflexivity.
Qed.

Lemma hash160ToAddress_shape_witness :
  (26 <= Js.length "SP000000000000000000002Q6VF78" <= 41)%Z /\
  C32.is_c32_string "SP000000000000000000002Q6VF78" = true /\
  C32.c32normalize "SP000000000000000000002Q6VF78" = "SP000000000000000000002Q6VF78".
Proof.
  apply (hash160ToAddress_shape
           "0000000000000000000000000000000000000000" mainnet single_sig).
  vm_compute. reflexivity.
Defined.

(** ** Shortening, on non-negative [startChars] and positive [endChars] *)

Lemma string_length_app (a b : string) :
  String.length (a ++ b) = (String.length a + String.length b)%nat.
Proof. induction a as [|c a IH]; [reflexivity|]. cbn. rewrite IH. reflexivity. Qed.

Lemma string_length_str (l : list ascii) : String.length (Js.str l) = List.length l.
Proof. induction l as [|c l IH]; [reflexivity|]. simpl. f_equal. exact IH. Qed.

Lemma substring_length (n m : nat) (a : string) :
  (n + m <= String.length a)%nat -> String.length (String.substring n m a) = m.
Proof.
  rewrite <- (str_chars a). rewrite substring_str, !string_length_str.
  intro H. rewrite length_firstn, length_skipn. lia.
Qed.

(** X8: The result is the address itself when it has at most
    [startChars + endChars + 3] characters; otherwise it is the first
    [startChars] characters, three dots and the last [endChars] characters,
    [startChars + endChars + 3] characters in all.  It is never longer than
    the address. *)
Theorem shortenAddress_spec (a : string) (startChars endChars : nat) :
  (1 <= endChars)%nat ->
  ((String.length a <= startChars + endChars + 3)%nat ->
   shortenAddress a (Z.of_nat startChars) (Z.of_nat endChars) = a) /\
  ((startChars + endChars + 3 < String.length a)%nat ->
   shortenAddress a (Z.of_nat startChars) (Z.of_nat endChars) =
     first_chars startChars a ++ "..." ++ last_chars endChars a /\
   String.length (shortenAddress a (Z.of_nat startChars) (Z.of_nat endChars)) =
     (startChars + endChars + 3)%nat) /\
  (String.length (shortenAddress a (Z.of_nat startChars) (Z.of_nat endChars)) <=
   String.length a)%nat.
Proof.
  intro He. rewrite (shortenAddress_positive a startChars endChars He).
  destruct (Nat.leb_spec (String.length a) (startChars + endChars + 3)) as [L|L].
  - split; [reflexivity|]. split; [lia|apply Nat.le_refl].
  - assert (E : String.length (first_chars startChars a ++ "..." ++
                               last_chars endChars a) =
                (startChars + endChars + 3)%nat).
    { rewrite !string_length_app. unfold first_chars, last_chars.
      rewrite !substring_length by lia. cbn [String.length]. lia. }
    split; [lia|]. split; [split; [reflexivity|exact E]|]. rewrite E. lia.
Qed.

Lemma shortenAddress_spec_witness :
  shortenAddress "SP2J6ZY48GV1EZ5V2V5RB9MP66SW86PYKKNRV9EJ7" 8 6 =
    first_chars 8 "SP2J6ZY48GV1EZ5V2V5RB9MP66SW86PYKKNRV9EJ7" ++ "..." ++
    last_chars 6 "SP2J6ZY48GV1EZ5V2V5RB9MP66SW86PYKKNRV9EJ7" /\
  String.length (shortenAddress "SP2J6ZY48GV1EZ5V2V5RB9MP66SW86PYKKNRV9EJ7" 8 6) =
    17%nat.
Proof.
  apply (proj1 (proj2 (shortenAddress_spec
    "SP2J6ZY48GV1EZ5V2V5RB9MP66SW86PYKKNRV9EJ7" 8 6 ltac:(lia)))).
  cbn. lia.
Defined.

(** X9: Shortening a shortened address changes nothing. *)
Theorem shortenAddress_idempotent (a : string) (startChars endChars : nat) :
  (1 <= endChars)%nat ->
  shortenAddress (shortenAddress a (Z.of_nat startChars) (Z.of_nat endChars))
    (Z.of_nat startChars) (Z.of_nat endChars) =
  shortenAddress a (Z.of_nat startChars) (Z.of_nat endChars).
Proof.
  intro He.
  rewrite (shortenAddress_positive
             (shortenAddress a (Z.of_nat startChars) (Z.of_nat endChars))
             startChars endChars He).
  rewrite (shortenAddress_positive a startChars endChars He).
  destruct (Nat.leb_spec (String.length a) (startChars + endChars + 3)) as [L|L].
  - destruct (Nat.leb_spec (String.length a) (startChars + endChars + 3));
      [reflexivity|lia].
  - assert (E : String.length (first_chars startChars a ++ "..." ++
                               last_chars endChars a) =
                (startChars + endChars + 3)%nat).
    { rewrite !string_length_app. unfold first_chars, last_chars.
      rewrite !substring_length by lia. cbn [String.length]. lia. }
    rewrite E.
    destruct (Nat.leb_spec (startChars + endChars + 3) (startChars + endChars + 3));
      [reflexivity|lia].
Qed.

Lemma shortenAddress_idempotent_witness :
  shortenAddress (shortenAddress "SP2J6ZY48GV1EZ5V2V5RB9MP66SW86PYKKNRV9EJ7" 5 4) 5 4 =
  shortenAddress "SP2J6ZY48GV1EZ5V2V5RB9MP66SW86PYKKNRV9EJ7" 5 4.
Proof.
  apply (shortenAddress_idempotent "SP2J6ZY48GV1EZ5V2V5RB9MP66SW86PYKKNRV9EJ7" 5 4).
  lia.
Defined.

(** ** Comparing addresses *)

(** X10: [addressesEqual] is symmetric and transitive, and holds between an
    address and itself unless the address is empty. *)
Theorem addressesEqual_equivalence :
  (forall a, addressesEqual a a = negb (Js.falsy a)) /\
  (forall a b, addressesEqual a b = addressesEqual b a) /\
  (forall a b c, addressesEqual a b = true -> addressesEqual b c = true ->
                 addressesEqual a c = true).
Proof.
  split; [|split].
  - intro a. unfold addressesEqual. destruct (Js.falsy a); [reflexivity|].
    cbn [orb negb]. apply String.eqb_refl.
  - intros a b. unfold addressesEqual.
    rewrite (orb_comm (Js.falsy a)), (String.eqb_sym (Js.toUpperCase a)).
    reflexivity.
  - intros a b c. unfold addressesEqual.
    destruct (Js.falsy a), (Js.falsy b), (Js.falsy c); cbn [orb];
      try discriminate.
    intros H1 H2. apply String.eqb_eq in H1, H2. rewrite H1, H2.
    apply String.eqb_refl.
Qed.

Lemma upper_char_idem (c : ascii) : Js.upper_char (Js.upper_char c) = Js.upper_char c.
Proof.
  apply Ascii.eqb_eq.
  apply (forall_ascii
    (fun c => Ascii.eqb (Js.upper_char (Js.upper_char c)) (Js.upper_char c))).
  vm_compute. reflexivity.
Qed.

Lemma c32normalize_toUpperCase (s : string) :
  C32.c32normalize (Js.toUpperCase s) = C32.c32normalize s.
Proof.
  induction s as [|c s IH]; [reflexivity|].
  cbn [Js.toUpperCase C32.c32normalize]. rewrite IH. f_equal.
  unfold C32.normalize_char. rewrite upper_char_idem. reflexivity.
Qed.

Lemma length_toUpperCase (s : string) : Js.length (Js.toUpperCase s) = Js.length s.
Proof.
  unfold Js.length. f_equal.
  induction s as [|c s IH]; [reflexivity|]. cbn. f_equal. exact IH.
Qed.

Lemma length_c32normalize (s : string) : Js.length (C32.c32normalize s) = Js.length s.
Proof.
  unfold Js.length. f_equal.
  induction s as [|c s IH]; [reflexivity|]. cbn. f_equal. exact IH.
Qed.

(** The decoder reads what follows the first character through its normal
    form only. *)
Lemma c32addressDecode_normal (c : ascii) (r r' : string) :
  C32.c32normalize r = C32.c32normalize r' -> Js.length r = Js.length r' ->
  C32.c32addressDecode (String c r) = C32.c32addressDecode (String c r').
Proof.
  intros N L. unfold C32.c32addressDecode.
  assert (E : forall x, Js.length (String c x) = (Js.length x + 1)%Z).
  { intro x. unfold Js.length. cbn [String.length]. lia. }
  rewrite !E, L.
  change (Js.at_ (String c r) 0) with (Some c).
  change (Js.at_ (String c r') 0) with (Some c).
  rewrite !slice_from_1. unfold C32.c32checkDecode. rewrite N. reflexivity.
Qed.

(** X11: Two valid addresses that [addressesEqual] holds of decode to the same
    version and payload, and parse to the same network, type and hash. *)
Theorem addressesEqual_same_parse (a b : string) :
  addressesEqual a b = true ->
  isValidStacksAddress C32.c32addressDecode (JsString a) = Returned true ->
  isValidStacksAddress C32.c32addressDecode (JsString b) = Returned true ->
  C32.c32addressDecode a = C32.c32addressDecode b /\
  exists ia ib,
    parseStacksAddress C32.c32addressDecode a = Returned (Some ia) /\
    parseStacksAddress C32.c32addressDecode b = Returned (Some ib) /\
    network ia = network ib /\ type ia = type ib /\
    version ia = version ib /\ hash160 ia = hash160 ib.
Proof.
  intros Q Va Vb. unfold addressesEqual in Q.
  destruct (Js.falsy a || Js.falsy b); [discriminate|]. apply String.eqb_eq in Q.
  destruct (valid_address_inv a Va) as (c1 & r & v & h & -> & K & D & Hv).
  destruct (valid_address_inv b Vb) as (c1' & r' & v' & h' & -> & K' & D' & Hv').
  cbn [Js.toUpperCase] in Q. injection Q as Q1 Q2.
  assert (C : c1 = c1').
  { destruct K as [-> | [-> | [-> | ->]]], K' as [-> | [-> | [-> | ->]]];
      try reflexivity; discriminate Q1. }
  subst c1'.
  assert (E : C32.c32addressDecode (String "S" (String c1 r)) =
              C32.c32addressDecode (String "S" (String c1 r'))).
  { apply c32addressDecode_normal.
    - rewrite <- (c32normalize_toUpperCase (String c1 r)),
        <- (c32normalize_toUpperCase (String c1 r')).
      cbn [Js.toUpperCase]. rewrite Q2. reflexivity.
    - rewrite <- (length_toUpperCase (String c1 r)),
        <- (length_toUpperCase (String c1 r')).
      cbn [Js.toUpperCase]. rewrite Q2. reflexivity. }
  split; [exact E|].
  rewrite D' in E. rewrite D in E. apply Returned_inj in E.
  assert (v = v') by congruence. assert (h = h') by congruence. subst v' h'.
  rewrite (parseStacksAddress_returned _ _ _ _ D),
    (parseStacksAddress_returned _ _ _ _ D'), Hv.
  destruct K as [-> | [-> | [-> | ->]]]; do 2 eexists;
    (split; [reflexivity|]); (split; [reflexivity|]);
    repeat split; reflexivity.
Qed.

Lemma addressesEqual_same_parse_witness :
  C32.c32addressDecode "SP2J6ZY48GV1EZ5V2V5RB9MP66SW86PYKKNRV9EJ7" =
  C32.c32addressDecode "SP2j6zy48gv1ez5v2v5rb9mp66sw86pykknrv9ej7".
Proof.
  exact (proj1 (addressesEqual_same_parse
    "SP2J6ZY48GV1EZ5V2V5RB9MP66SW86PYKKNRV9EJ7"
    "SP2j6zy48gv1ez5v2v5rb9mp66sw86pykknrv9ej7"
    ltac:(vm_compute; reflexivity) ltac:(vm_compute; reflexivity)
    ltac:(vm_compute; reflexivity))).
Defined.

(** X12: The normal form of a valid address (upper case, O read as 0, I and L
    as 1) is valid too and decodes to the same version and payload. *)
Theorem normalized_address_valid (s : string) :
  isValidStacksAddress C32.c32addressDecode (JsString s) = Returned true ->
  isValidStacksAddress C32.c32addressDecode (JsString (C32.c32normalize s)) =
    Returned true /\
  C32.c32addressDecode (C32.c32normalize s) = C32.c32addressDecode s.
Proof.
  intro V.
  destruct (valid_address_inv s V) as (c1 & r & v & h & -> & K & D & Hv).
  assert (N : C32.c32normalize (String "S" (String c1 r)) =
              String "S" (String c1 (C32.c32normalize r))).
  { destruct K as [-> | [-> | [-> | ->]]]; reflexivity. }
  assert (E : C32.c32addressDecode (C32.c32normalize (String "S" (String c1 r))) =
              C32.c32addressDecode (String "S" (String c1 r))).
  { rewrite N. apply c32addressDecode_normal.
    - cbn [C32.c32normalize]. rewrite c32normalize_idem.
      destruct K as [-> | [-> | [-> | ->]]]; reflexivity.
    - unfold Js.length. cbn [String.length].
      pose proof (length_c32normalize r) as L. unfold Js.length in L. lia. }
  split; [|exact E].
  rewrite isValidStacksAddress_string, E, D. rewrite N.
  rewrite has_known_prefix_two.
  destruct K as [-> | [-> | [-> | ->]]]; reflexivity.
Qed.

Lemma normalized_address_valid_witness :
  isValidStacksAddress C32.c32addressDecode
    (JsString (C32.c32normalize "SP2j6zy48gv1ez5v2v5rb9mp66sw86pykknrv9ej7")) =
    Returned true /\
  C32.c32addressDecode
    (C32.c32normalize "SP2j6zy48gv1ez5v2v5rb9mp66sw86pykknrv9ej7") =
  C32.c32addressDecode "SP2j6zy48gv1ez5v2v5rb9mp66sw86pykknrv9ej7".
Proof.
  apply (normalized_address_valid "SP2j6zy48gv1ez5v2v5rb9mp66sw86pykknrv9ej7").
  vm_compute. reflexivity.
Defined.

(** ** Building the address again from a parsed record *)

(** X13: Whatever parses, of any of the four kinds, carries a lower-case hex
    string of even length as its hash.  Building an address from the
    record's hash, network and type succeeds exactly when that string has
    40 digits, and then gives the normal form of the parsed string. *)
Theorem parsed_address_rebuilds (s : string) (info : AddressInfo) :
  parseStacksAddress C32.c32addressDecode s = Returned (Some info) ->
  C32.is_hex_string (hash160 info) = true /\
  Js.toLowerCase (hash160 info) = hash160 info /\
  Z.even (Js.length (hash160 info)) = true /\
  returns (hash160ToAddress C32.c32address (hash160 info) (network info)
             (type info)) = (Js.length (hash160 info) =? 40)%Z /\
  ((Js.length (hash160 info) = 40)%Z ->
   hash160ToAddress C32.c32address (hash160 info) (network info) (type info) =
     Returned (C32.c32normalize s)).
Proof.
  intro P. pose proof (parseStacksAddress_decoded _ _ _ P) as D.
  destruct (c32addressDecode_inv _ _ _ D)
    as (c1 & body & C & Dp & _ & _ & _ & _ & _ & _ & RP & EP & HD & _).
  assert (X : C32.is_hex_string (hash160 info) = true).
  { rewrite HD. unfold C32.is_hex_string. rewrite chars_str.
    apply hex_digits_are_hex, RP. }
  assert (B : forall L, (Js.length (hash160 info) = 40)%Z ->
              hash160ToAddress C32.c32address (hash160 info) (network info)
                (type info) = L -> L = Returned (C32.c32normalize s)).
  { intros L E <-. unfold hash160ToAddress.
    apply c32address_c32addressDecode; assumption. }
  split; [exact X|]. split.
  { rewrite HD, toLowerCase_str, hex_digits_lower by exact RP. reflexivity. }
  split.
  { rewrite HD, length_str, length_map, Z.even_spec.
    apply Nat.even_spec in EP. destruct EP as [k ->]. exists (Z.of_nat k). lia. }
  split.
  - destruct (Z.eqb_spec (Js.length (hash160 info)) 40) as [E|E].
    + rewrite (B _ E eq_refl). reflexivity.
    + unfold hash160ToAddress, C32.c32address, C32.is_hash160_hex.
      rewrite X. apply Z.eqb_neq in E. rewrite E. reflexivity.
  - intro E. exact (B _ E eq_refl).
Qed.

Lemma parsed_address_rebuilds_witness :
  hash160ToAddress C32.c32address "a46ff88886c2ef9762d970b4d2c63678835bd39d"
    testnet single_sig =
  Returned (C32.c32normalize "ST2J6ZY48GV1EZ5V2V5RB9MP66SW86PYKKQYAC0RQ").
Proof.
  exact (proj2 (proj2 (proj2 (proj2 (parsed_address_rebuilds
    "ST2J6ZY48GV1EZ5V2V5RB9MP66SW86PYKKQYAC0RQ"
    {| address := "ST2J6ZY48GV1EZ5V2V5RB9MP66SW86PYKKQYAC0RQ";
       network := testnet; type := single_sig; version := 26;
       hash160 := "a46ff88886c2ef9762d970b4d2c63678835bd39d";
       isValid := true |}
    ltac:(vm_compute; reflexivity))))) eq_refl).
Defined.

(** * Test vectors of the string utilities *)

(** tests/memo.test.ts *)
Example memo_tests :
  Memo.encodeMemo "hello" false = "68656c6c6f" /\
  Js.length (Memo.encodeMemo "hi" true) = (Memo.MAX_MEMO_LENGTH * 2)%Z /\
  Memo.encodeMemo "" false = "" /\
  Memo.decodeMemo "68656c6c6f" = Some "hello" /\
  Memo.decodeMemo "0x68656c6c6f" = Some "hello" /\
  Memo.decodeMemo "68656c6c6f0000000000" = Some "hello" /\
  Memo.decodeMemo "" = Some "" /\
  Memo.decodeMemo (Memo.encodeMemo "Payment for services" false) =
    Some "Payment for services" /\
  Memo.isValidMemo (Text.repeat "a" 34) = true /\
  Memo.isValidMemo (Text.repeat "a" 50) = false /\
  Memo.getMemoByteLength "hello" = 5%Z /\
  Memo.truncateMemo "hello" true = "hello" /\
  Memo.truncateMemo (Text.repeat "a" 50) true = Text.repeat "a" 31 ++ "..." /\
  Memo.createPrefixedMemo Memo.INVOICE "12345" = "INV:12345" /\
  Memo.parsePrefixedMemo "INV:12345" =
    {| Memo.prefix := Some Memo.INVOICE; Memo.content := "12345" |} /\
  Memo.parsePrefixedMemo "just a message" =
    {| Memo.prefix := None; Memo.content := "just a message" |}.
Proof. vm_compute. repeat split; reflexivity. Qed.

(** tests/bns.test.ts *)
Example bns_tests :
  Bns.parseBnsName "satoshi.btc" =
    {| Bns.name := "satoshi"; Bns.namespace := "btc"; Bns.isValid := true;
       Bns.error := None |} /\
  Bns.isValid (Bns.parseBnsName "satoshi") = false /\
  Bns.isValid (Bns.parseBnsName "satoshi.nakamoto.btc") = false /\
  Bns.isValid (Bns.parseBnsName "") = false /\
  map Bns.isValidBnsName ["satoshi"; "my-name"; "name123"; "a"; "1"] =
    [true; true; true; true; true] /\
  map Bns.isValidBnsName [""; "-invalid"; "invalid-"; "UPPER"] =
    [false; false; false; false] /\
  map Bns.isValidBnsNamespace ["btc"; "stx"; "id"; ""; "has-hyphen"] =
    [true; true; true; false; false] /\
  map Bns.isValidFullBnsName ["satoshi.btc"; "my-name.stx"; "satoshi"; ".btc"] =
    [true; true; false; false] /\
  Bns.constructBnsName "satoshi" "btc" = "satoshi.btc" /\
  Bns.constructBnsName "MyName" "STX" = "myname.stx" /\
  map Bns.isKnownNamespace ["btc"; "stx"; "id"; "unknown"] =
    [true; true; true; false] /\
  Bns.estimateNamePrice "abc" "btc" = Returned (Bns.Price 200000000) /\
  Bns.estimateNamePrice "satoshinakamoto" "btc" = Returned (Bns.Price 2000000).
Proof. vm_compute. repeat split; reflexivity. Qed.

(** README.md, and a contract of the list of deployed contracts *)
Example contract_examples :
  Contracts.isValidContractName "my-token" = true /\
  Contracts.isValidContractName "123invalid" = false /\
  Contracts.toClarityPrincipal "SP2J6ZY48GV1EZ5V2V5RB9MP66SW86PYKKNRV9EJ7" None =
    "'SP2J6ZY48GV1EZ5V2V5RB9MP66SW86PYKKNRV9EJ7" /\
  Api.parseContractId
    "SP2PEBKJ2W1ZDDF2QQ6Y4FXKZEDPT9J9R2NKD9WJB.stacks-utils-utils-address-v1" =
    Some {| Api.address := "SP2PEBKJ2W1ZDDF2QQ6Y4FXKZEDPT9J9R2NKD9WJB";
            Api.contractName := "stacks-utils-utils-address-v1" |} /\
  isValidStacksAddress C32.c32addressDecode
    (JsString "SP2PEBKJ2W1ZDDF2QQ6Y4FXKZEDPT9J9R2NKD9WJB") = Returned true /\
  Contracts.isValidContractName "stacks-utils-utils-address-v1" = true /\
  Format.formatTxId_default "0x1234567890abcdef1234567890abcdef12" =
    "0x12345678...abcdef12" /\
  Format.padHex "0xff" 4 = "0x00ff".
Proof. vm_compute. repeat split; reflexivity. Qed.

(** The tests of the stacking utilities *)
Example pox_address_tests :
  map Stacking.isValidPoxBtcAddress
    ["1A1zP1eP5QGefi2DMPTfTL5SLmv7DivfNa"; "3J98t1WpEZ73CNmQviecrnyiWrnqRhWNLy";
     "bc1qar0srrr7xfkvy5l643lydnw9re59gtzzwf5mdq"; ""; "invalid";
     "SP2J6ZY48GV1EZ5V2V5RB9MP66SW86PYKKNRV9EJ7"] =
    [true; true; true; false; false; false].
Proof. vm_compute. reflexivity. Qed.

(** * Properties of the string utilities *)

(** ** Splitting at a character *)

Lemma split_length (sep : ascii) (s : string) :
  List.length (Text.split sep s) = S (count_char sep s).
Proof.
  induction s as [|c r IH]; [reflexivity|].
  cbn [Text.split count_char]. destruct (Ascii.eqb c sep).
  - cbn [List.length]. rewrite IH. reflexivity.
  - destruct (Text.split sep r) as [|piece pieces]; [discriminate IH|].
    cbn [List.length] in IH |- *. rewrite IH. reflexivity.
Qed.

Lemma split_no_sep (sep : ascii) (s : string) :
  count_char sep s = O -> Text.split sep s = [s].
Proof.
  induction s as [|c r IH]; [reflexivity|].
  cbn [Text.split count_char]. destruct (Ascii.eqb c sep); [discriminate|].
  intro H. rewrite IH by exact H. reflexivity.
Qed.

Lemma split_app (sep : ascii) (a r : string) :
  count_char sep a = O ->
  Text.split sep (a ++ String sep r) = a :: Text.split sep r.
Proof.
  induction a as [|c a IH].
  - intros _. cbn [append Text.split]. rewrite Ascii.eqb_refl. reflexivity.
  - cbn [append Text.split count_char]. destruct (Ascii.eqb c sep); [discriminate|].
    intro H. rewrite IH by exact H. reflexivity.
Qed.

Lemma count_char_app (sep : ascii) (a b : string) :
  count_char sep (a ++ b) = (count_char sep a + count_char sep b)%nat.
Proof.
  induction a as [|c a IH]; [reflexivity|].
  cbn [append count_char]. rewrite IH. lia.
Qed.

Lemma split_one (sep : ascii) (s q : string) :
  Text.split sep s = [q] -> s = q /\ count_char sep q = O.
Proof.
  intro H. pose proof (split_length sep s) as L. rewrite H in L.
  cbn [List.length] in L. assert (C : count_char sep s = O) by lia.
  rewrite (split_no_sep sep s C) in H. injection H as <-. split; [reflexivity|exact C].
Qed.

Lemma split_two (sep : ascii) (s p q : string) :
  Text.split sep s = [p; q] ->
  s = p ++ String sep q /\ count_char sep p = O /\ count_char sep q = O.
Proof.
  revert p. induction s as [|c r IH]; intros p H; [discriminate H|].
  cbn [Text.split] in H. destruct (Ascii.eqb_spec c sep) as [->|N].
  - injection H as <- H. destruct (split_one sep r q H) as [-> C].
    split; [reflexivity|split; [reflexivity|exact C]].
  - destruct (Text.split sep r) as [|piece pieces]; [discriminate H|].
    injection H as <- ->. destruct (IH piece eq_refl) as (-> & C1 & C2).
    repeat split; [|exact C2]. cbn [count_char].
    destruct (Ascii.eqb_spec c sep) as [E|_]; [contradiction|exact C1].
Qed.

Lemma has_dot_count (s : string) :
  has_dot s = negb (Nat.eqb (count_char "." s) 0).
Proof.
  unfold has_dot. induction s as [|c r IH]; [reflexivity|].
  change (Js.chars (String c r)) with (c :: Js.chars r).
  cbn [existsb count_char]. rewrite IH, (Ascii.eqb_sym "." c).
  destruct (Ascii.eqb c "."); [reflexivity|].
  cbn [orb Nat.add]. reflexivity.
Qed.

Lemma no_dot_count (s : string) : has_dot s = false <-> count_char "." s = O.
Proof.
  rewrite has_dot_count. destruct (count_char "." s); cbn; split; congruence.
Qed.

(** ** Contract identifiers *)

Lemma parseContractId_build (a n : string) :
  Api.parseContractId (Api.buildContractId a n) =
  if has_dot a || has_dot n then None
  else Some {| Api.address := a; Api.contractName := n |}.
Proof.
  unfold Api.parseContractId, Api.buildContractId.
  change (a ++ "." ++ n) with (a ++ String "." n).
  rewrite split_length, count_char_app. cbn [count_char].
  change (Ascii.eqb "." ".") with true. cbv iota.
  rewrite !has_dot_count.
  destruct (count_char "." a) as [|ka] eqn:Ca.
  - destruct (count_char "." n) as [|kn] eqn:Cn.
    + cbn [Nat.add Nat.eqb negb orb].
      rewrite (split_app "." a n Ca), (split_no_sep "." n Cn). reflexivity.
    + cbn [Nat.add Nat.eqb negb orb]. reflexivity.
  - cbn [Nat.add Nat.eqb negb orb].
    replace (ka + S (count_char "." n))%nat with (S (ka + count_char "." n)) by lia.
    reflexivity.
Qed.

(** X14: Splitting what [buildContractId] joined gives back the address and the
    contract name when neither has a dot in it, and null when one has. *)
Theorem parseContractId_buildContractId (a n : string) :
  Api.parseContractId (Api.buildContractId a n) =
  if has_dot a || has_dot n then None
  else Some {| Api.address := a; Api.contractName := n |}.
Proof. exact (parseContractId_build a n). Qed.

(** X15: A contract identifier parses exactly when it has one dot in it; the
    parts are then what is before and after the dot, and joining them gives
    the identifier back. *)
Theorem parseContractId_parts (contractId : string) :
  (Api.parseContractId contractId = None <-> count_char "." contractId <> 1%nat) /\
  (forall r, Api.parseContractId contractId = Some r ->
     Api.buildContractId (Api.address r) (Api.contractName r) = contractId /\
     has_dot (Api.address r) = false /\ has_dot (Api.contractName r) = false).
Proof.
  unfold Api.parseContractId. pose proof (split_length "." contractId) as L.
  destruct (Text.split "." contractId) as [|p [|q [|x l]]] eqn:S;
    cbn [List.length Nat.eqb negb] in L |- *.
  - discriminate L.
  - split; [split; [intros _; lia|reflexivity]|discriminate].
  - split; [split; [discriminate|intro H; lia]|].
    intros r [= <-]. cbn [Api.address Api.contractName nth].
    destruct (split_two "." contractId p q S) as (-> & C1 & C2).
    rewrite !no_dot_count. repeat split; assumption.
  - split; [split; [intros _; lia|reflexivity]|discriminate].
Qed.

(** ** Matching by derivatives *)

Lemma matches_Empty (s : string) : Regex.matches Regex.Empty s = false.
Proof. induction s as [|c s IH]; [reflexivity|exact IH]. Qed.

Lemma matches_Alt (a b : Regex.regex) (s : string) :
  Regex.matches (Regex.Alt a b) s = Regex.matches a s || Regex.matches b s.
Proof.
  revert a b. induction s as [|c s IH]; intros a b; [reflexivity|].
  cbn [Regex.matches Regex.deriv]. apply IH.
Qed.

(** A string matches [r1 r2] when it splits into a part that matches [r1]
    and a part that matches [r2]. *)
Lemma matches_Seq (a b : Regex.regex) (s : string) :
  Regex.matches (Regex.Seq a b) s = true <->
  exists s1 s2, s = s1 ++ s2 /\ Regex.matches a s1 = true /\
                Regex.matches b s2 = true.
Proof.
  revert a b. induction s as [|c s IH]; intros a b.
  - cbn [Regex.matches Regex.nullable]. rewrite andb_true_iff. split.
    + intros [H1 H2]. exists "", "". repeat split; assumption.
    + intros (s1 & s2 & E & H1 & H2).
      destruct s1; [|discriminate E]. destruct s2; [|discriminate E].
      split; assumption.
  - cbn [Regex.matches Regex.deriv]. rewrite matches_Alt, orb_true_iff, IH. split.
    + intros [(s1 & s2 & -> & H1 & H2) | H].
      * exists (String c s1), s2. repeat split; assumption.
      * destruct (Regex.nullable a) eqn:N;
          [|rewrite matches_Empty in H; discriminate H].
        exists "", (String c s). repeat split; assumption.
    + intros (s1 & s2 & E & H1 & H2). destruct s1 as [|c1 s1].
      * right. cbn [append] in E. subst s2. cbn [Regex.matches] in H1, H2.
        rewrite H1. exact H2.
      * left. cbn [append] in E. injection E as <- ->.
        exists s1, s2. repeat split; assumption.
Qed.

Lemma matches_Class (p : ascii -> bool) (s : string) :
  Regex.matches (Regex.Class p) s =
  match s with
  | String c EmptyString => p c
  | _ => false
  end.
Proof.
  destruct s as [|c [|d s]]; [reflexivity| |].
  - cbn [Regex.matches Regex.deriv]. destruct (p c); reflexivity.
  - cbn [Regex.matches Regex.deriv]. destruct (p c); cbn [Regex.deriv];
      apply matches_Empty.
Qed.

Lemma matches_Seq_Eps (r : Regex.regex) (s : string) :
  Regex.matches (Regex.Seq Regex.Eps r) s = Regex.matches r s.
Proof.
  destruct (Regex.matches r s) eqn:M.
  - apply matches_Seq. exists "", s. repeat split. exact M.
  - destruct (Regex.matches (Regex.Seq Regex.Eps r) s) eqn:Q; [|reflexivity].
    apply matches_Seq in Q. destruct Q as (s1 & s2 & -> & H1 & H2).
    destruct s1 as [|c s1]; [cbn [append] in M; congruence|].
    cbn [Regex.matches Regex.deriv] in H1. rewrite matches_Empty in H1.
    discriminate H1.
Qed.

Lemma matches_Seq_Empty (r : Regex.regex) (s : string) :
  Regex.matches (Regex.Seq Regex.Empty r) s = false.
Proof.
  destruct (Regex.matches (Regex.Seq Regex.Empty r) s) eqn:Q; [|reflexivity].
  apply matches_Seq in Q. destruct Q as (s1 & s2 & _ & H1 & _).
  rewrite matches_Empty in H1. discriminate H1.
Qed.

Lemma matches_Star_Class (p : ascii -> bool) (s : string) :
  Regex.matches (Regex.Star (Regex.Class p)) s = forallb p (Js.chars s).
Proof.
  induction s as [|c s IH]; [reflexivity|].
  change (Js.chars (String c s)) with (c :: Js.chars s).
  cbn [Regex.matches Regex.deriv forallb]. destruct (p c).
  - rewrite matches_Seq_Eps. exact IH.
  - apply matches_Seq_Empty.
Qed.

Lemma matches_Seq_Class (p : ascii -> bool) (r : Regex.regex) (s : string) :
  Regex.matches (Regex.Seq (Regex.Class p) r) s =
  match s with
  | EmptyString => false
  | String c s' => p c && Regex.matches r s'
  end.
Proof.
  destruct s as [|c s]; [reflexivity|].
  cbn [Regex.matches Regex.deriv Regex.nullable].
  rewrite matches_Alt, matches_Empty, orb_false_r.
  destruct (p c); [apply matches_Seq_Eps|apply matches_Seq_Empty].
Qed.

(** ** Contract names *)

Lemma test_name_regex (s : string) :
  Regex.test Contracts.name_regex s =
  match s with
  | EmptyString => false
  | String c r =>
      Contracts.letter c && forallb Contracts.letter_digit_hyphen (Js.chars r)
  end.
Proof.
  unfold Regex.test, Contracts.name_regex. rewrite matches_Seq_Class.
  destruct s as [|c r]; [reflexivity|]. rewrite matches_Star_Class. reflexivity.
Qed.

Lemma letter_is_name_char (c : ascii) :
  Contracts.letter c = true -> Contracts.letter_digit_hyphen c = true.
Proof.
  unfold Contracts.letter, Contracts.letter_digit_hyphen.
  intro H. rewrite <- orb_assoc, H. reflexivity.
Qed.

Lemma name_chars_no_dot (l : list ascii) :
  forallb Contracts.letter_digit_hyphen l = true ->
  existsb (Ascii.eqb ".") l = false.
Proof.
  induction l as [|c l IH]; [reflexivity|].
  cbn [forallb existsb]. intro H. apply andb_true_iff in H as [H1 H2].
  rewrite (IH H2), orb_false_r. destruct (Ascii.eqb_spec "."%char c) as [<-|]; [|reflexivity].
  vm_compute in H1. discriminate H1.
Qed.

Lemma isValidContractName_eq (name : string) :
  Contracts.isValidContractName name =
    match name with
    | EmptyString => false
    | String c r =>
        Contracts.letter c &&
        forallb Contracts.letter_digit_hyphen (Js.chars r) &&
        (Js.length name <=? 128)%Z
    end.
Proof.
  unfold Contracts.isValidContractName. rewrite test_name_regex.
  destruct name as [|c r]; reflexivity.
Qed.

Lemma isValidContractName_name (name : string) :
  Contracts.isValidContractName name = true ->
  forallb Contracts.letter_digit_hyphen (Js.chars name) = true /\
  has_dot name = false.
Proof.
  rewrite isValidContractName_eq. destruct name as [|c r]; [discriminate|].
  intro H. apply andb_true_iff in H as [H _]. apply andb_true_iff in H as [H1 H2].
  assert (A : forallb Contracts.letter_digit_hyphen (Js.chars (String c r)) = true).
  { change (Js.chars (String c r)) with (c :: Js.chars r). cbn [forallb].
    rewrite (letter_is_name_char c H1), H2. reflexivity. }
  split; [exact A|]. unfold has_dot. apply name_chars_no_dot, A.
Qed.

(** X16: A contract name is valid exactly when it has between 1 and 128
    characters, begins with a letter and goes on with letters, digits and
    hyphens; a function name is valid under the same rule.  A valid name has
    no dot in it. *)
Theorem isValidContractName_spec (name : string) :
  Contracts.isValidContractName name =
    match name with
    | EmptyString => false
    | String c r =>
        Contracts.letter c &&
        forallb Contracts.letter_digit_hyphen (Js.chars r) &&
        (Js.length name <=? 128)%Z
    end /\
  Contracts.isValidFunctionName name = Contracts.isValidContractName name /\
  (Contracts.isValidContractName name = true ->
   forallb Contracts.letter_digit_hyphen (Js.chars name) = true /\
   has_dot name = false).
Proof.
  split; [apply isValidContractName_eq|]. split; [reflexivity|].
  apply isValidContractName_name.
Qed.

(** ** Contract identifiers of valid addresses *)

Lemma normal_digits_no_dot (body : string) :
  forall C, in_range 32 C ->
  C32.c32normalize body = Js.str (map C32.c32_at C) ->
  existsb (Ascii.eqb ".") (Js.chars body) = false.
Proof.
  induction body as [|c r IH]; intros C R E; [reflexivity|].
  destruct C as [|d C]; [discriminate E|].
  cbn [C32.c32normalize map] in E. rewrite str_cons in E. injection E as E1 E2.
  apply Forall_cons_iff in R as [Rd RC].
  change (Js.chars (String c r)) with (c :: Js.chars r). cbn [existsb].
  rewrite (IH C RC E2), orb_false_r.
  destruct (Ascii.eqb_spec "."%char c) as [<-|]; [|reflexivity].
  destruct (c32_at_facts d Rd) as (_ & F & _). rewrite <- E1 in F.
  vm_compute in F. discriminate F.
Qed.

Lemma valid_address_no_dot (s : string) :
  isValidStacksAddress C32.c32addressDecode (JsString s) = Returned true ->
  has_dot s = false.
Proof.
  intro V. destruct (valid_address_inv s V) as (c1 & body & v & h & -> & K & D & _).
  destruct (c32addressDecode_inv _ _ _ D)
    as (c1' & body' & C & Dp & E & _ & _ & _ & RC & N & _).
  injection E as <- <-. unfold has_dot.
  change (Js.chars (String "S" (String c1 body))) with ("S"%char :: c1 :: Js.chars body).
  cbn [existsb]. rewrite (normal_digits_no_dot body C RC N).
  destruct K as [-> | [-> | [-> | ->]]]; reflexivity.
Qed.

(** X17: The identifier built from a valid address and a valid contract name
    parses back to that address and that name, and the principal literal
    of the two is the identifier after a quote. *)
Theorem contract_id_of_valid_parts (a n : string) :
  isValidStacksAddress C32.c32addressDecode (JsString a) = Returned true ->
  Contracts.isValidContractName n = true ->
  Api.parseContractId (Api.buildContractId a n) =
    Some {| Api.address := a; Api.contractName := n |} /\
  Contracts.toClarityPrincipal a (Some n) = "'" ++ Api.buildContractId a n.
Proof.
  intros Va Vn. split.
  - rewrite parseContractId_build, (valid_address_no_dot a Va).
    destruct (isValidContractName_name n Vn) as [_ ->]. reflexivity.
  - unfold Contracts.toClarityPrincipal, Api.buildContractId.
    destruct n as [|c r]; [discriminate Vn|]. reflexivity.
Qed.

Lemma contract_id_of_valid_parts_witness :
  Api.parseContractId
    (Api.buildContractId "SP2J6ZY48GV1EZ5V2V5RB9MP66SW86PYKKNRV9EJ7" "my-token") =
    Some {| Api.address := "SP2J6ZY48GV1EZ5V2V5RB9MP66SW86PYKKNRV9EJ7";
            Api.contractName := "my-token" |} /\
  Contracts.toClarityPrincipal "SP2J6ZY48GV1EZ5V2V5RB9MP66SW86PYKKNRV9EJ7"
    (Some "my-token") =
  "'" ++ Api.buildContractId "SP2J6ZY48GV1EZ5V2V5RB9MP66SW86PYKKNRV9EJ7" "my-token".
Proof.
  apply (contract_id_of_valid_parts
           "SP2J6ZY48GV1EZ5V2V5RB9MP66SW86PYKKNRV9EJ7" "my-token").
  - vm_compute. reflexivity.
  - vm_compute. reflexivity.
Defined.

(** ** Prefixed memos *)

Lemma startsWith_app (p c : string) : Js.startsWith (p ++ c) p = true.
Proof.
  induction p as [|x p IH]; [apply startsWith_nil|].
  cbn [append]. rewrite startsWith_cons, Ascii.eqb_refl. exact IH.
Qed.

Lemma substring_app (p c : string) :
  String.substring (String.length p) (String.length c) (p ++ c) = c.
Proof.
  induction p as [|x p IH]; [apply substring_full|].
  cbn [append String.length String.substring]. exact IH.
Qed.

Lemma slice_from_app (p c : string) : Js.slice_from (p ++ c) (Js.length p) = c.
Proof.
  unfold Js.slice_from, Js.slice, Js.relative, Js.length.
  rewrite string_length_app.
  destruct (Z.ltb_spec (Z.of_nat (String.length p)) 0) as [G|_]; [lia|].
  destruct (Z.ltb_spec (Z.of_nat (String.length p + String.length c)) 0) as [G|_];
    [lia|].
  replace (Z.to_nat (Z.min (Z.of_nat (String.length p))
                       (Z.of_nat (String.length p + String.length c))))
    with (String.length p) by lia.
  replace (Z.to_nat (Z.max
             (Z.min (Z.of_nat (String.length p + String.length c))
                    (Z.of_nat (String.length p + String.length c)) -
              Z.min (Z.of_nat (String.length p))
                    (Z.of_nat (String.length p + String.length c))) 0))
    with (String.length c) by lia.
  apply substring_app.
Qed.

Lemma startsWith_begins (s p : string) :
  Js.startsWith s p = true -> exists rest, s = p ++ rest.
Proof.
  revert s. induction p as [|x p IH]; intros s H.
  - exists s. reflexivity.
  - destruct s as [|c s]; [rewrite startsWith_empty in H; discriminate H|].
    rewrite startsWith_cons in H. apply andb_true_iff in H as [E H].
    apply Ascii.eqb_eq in E. subst x. destruct (IH s H) as [rest ->].
    exists rest. reflexivity.
Qed.

Lemma parse_loop_spec (es : list (Memo.MemoPrefix * string)) (memo : string) :
  match Memo.prefix (Memo.parse_loop es memo) with
  | Some key =>
      exists p, In (key, p) es /\
                memo = p ++ Memo.content (Memo.parse_loop es memo)
  | None =>
      Memo.content (Memo.parse_loop es memo) = memo /\
      forall key p, In (key, p) es -> Js.startsWith memo p = false
  end.
Proof.
  induction es as [|[key p] es IH].
  - cbn. split; [reflexivity|]. intros ? ? [].
  - cbn [Memo.parse_loop]. destruct (Js.startsWith memo p) eqn:S.
    + cbn [Memo.prefix Memo.content]. exists p. split; [left; reflexivity|].
      destruct (startsWith_begins memo p S) as [rest ->].
      rewrite slice_from_app. reflexivity.
    + destruct (Memo.prefix (Memo.parse_loop es memo)) as [k|].
      * destruct IH as (q & I & E). exists q. split; [right; exact I|exact E].
      * destruct IH as [E F]. split; [exact E|].
        intros k q [[= <- <-]|I]; [exact S|exact (F k q I)].
Qed.

Lemma entries_prefix (key : Memo.MemoPrefix) (p : string) :
  In (key, p) Memo.entries <-> p = Memo.MEMO_PREFIXES key.
Proof.
  unfold Memo.entries. cbn [map In]. split.
  - intros [H|[H|[H|[H|[H|[H|[]]]]]]]; injection H as <- <-; reflexivity.
  - intros ->. destruct key; cbn [Memo.MEMO_PREFIXES]; tauto.
Qed.

Lemma prefixes_apart (k k' : Memo.MemoPrefix) (c c' : string) :
  Memo.MEMO_PREFIXES k ++ c = Memo.MEMO_PREFIXES k' ++ c' -> k = k' /\ c = c'.
Proof.
  destruct k, k'; cbn [Memo.MEMO_PREFIXES append]; intro H;
    first [ discriminate H
          | split; [reflexivity|]; congruence ].
Qed.

Lemma parsePrefixedMemo_any (memo : string) :
  match Memo.prefix (Memo.parsePrefixedMemo memo) with
  | Some key =>
      memo = Memo.MEMO_PREFIXES key ++ Memo.content (Memo.parsePrefixedMemo memo)
  | None =>
      Memo.content (Memo.parsePrefixedMemo memo) = memo /\
      forall key, Js.startsWith memo (Memo.MEMO_PREFIXES key) = false
  end.
Proof.
  unfold Memo.parsePrefixedMemo.
  pose proof (parse_loop_spec Memo.entries memo) as H.
  destruct (Memo.prefix (Memo.parse_loop Memo.entries memo)) as [k|].
  - destruct H as (p & I & E). apply entries_prefix in I. subst p. exact E.
  - destruct H as [E F]. split; [exact E|].
    intro key. apply (F key). apply entries_prefix. reflexivity.
Qed.

Lemma parsePrefixedMemo_prefixed (key : Memo.MemoPrefix) (content : string) :
  Memo.parsePrefixedMemo (Memo.MEMO_PREFIXES key ++ content) =
  {| Memo.prefix := Some key; Memo.content := content |}.
Proof.
  pose proof (parsePrefixedMemo_any (Memo.MEMO_PREFIXES key ++ content)) as G.
  destruct (Memo.parsePrefixedMemo (Memo.MEMO_PREFIXES key ++ content)) as [[k|] c];
    cbn [Memo.prefix Memo.content] in G.
  - apply prefixes_apart in G as [<- <-]. reflexivity.
  - destruct G as [_ F]. specialize (F key). rewrite startsWith_app in F.
    discriminate F.
Qed.

(** X18: A memo that begins with one of the six prefixes parses to that
    prefix's key and the rest of the memo, so that the prefix followed by
    the content is the memo; any other memo parses to a null prefix and
    the memo itself.  A prefix followed by any content parses to its key and
    that content. *)
Theorem parsePrefixedMemo_spec :
  (forall key content,
     Memo.parsePrefixedMemo (Memo.MEMO_PREFIXES key ++ content) =
     {| Memo.prefix := Some key; Memo.content := content |}) /\
  (forall memo,
     match Memo.prefix (Memo.parsePrefixedMemo memo) with
     | Some key =>
         memo = Memo.MEMO_PREFIXES key ++ Memo.content (Memo.parsePrefixedMemo memo)
     | None =>
         Memo.content (Memo.parsePrefixedMemo memo) = memo /\
         forall key, Js.startsWith memo (Memo.MEMO_PREFIXES key) = false
     end).
Proof.
  split; [exact parsePrefixedMemo_prefixed|exact parsePrefixedMemo_any].
Qed.

(** ** Truncating a memo *)

Lemma chars_app (a b : string) : Js.chars (a ++ b) = (Js.chars a ++ Js.chars b)%list.
Proof.
  induction a as [|c a IH]; [reflexivity|].
  cbn [append]. change (Js.chars (String c (a ++ b))) with (c :: Js.chars (a ++ b)).
  rewrite IH. reflexivity.
Qed.

Lemma byte_length_app (a b : string) :
  Memo.byte_length (a ++ b) = (Memo.byte_length a + Memo.byte_length b)%Z.
Proof.
  unfold Memo.byte_length, Memo.encode.
  rewrite chars_app, flat_map_app, length_app. lia.
Qed.

Lemma byte_length_nonneg (s : string) : (0 <= Memo.byte_length s)%Z.
Proof. unfold Memo.byte_length. lia. Qed.

Lemma first_chars_str (k : nat) (L : list ascii) :
  first_chars k (Js.str L) = Js.str (firstn k L).
Proof. unfold first_chars. rewrite substring_str. reflexivity. Qed.

Lemma first_chars_again (k j : nat) (s : string) :
  (k <= j)%nat -> first_chars k (first_chars j s) = first_chars k s.
Proof.
  intro H. rewrite <- (str_chars s). rewrite !first_chars_str, firstn_firstn.
  replace (Nat.min k j) with k by lia. reflexivity.
Qed.

Lemma first_chars_all (s : string) : first_chars (String.length s) s = s.
Proof. apply substring_full. Qed.

Lemma first_chars_length (k : nat) (s : string) :
  (k <= String.length s)%nat -> String.length (first_chars k s) = k.
Proof. intro H. unfold first_chars. apply substring_length. lia. Qed.

Lemma first_chars_begins (k : nat) (s : string) : begins s (first_chars k s).
Proof.
  rewrite <- (str_chars s). rewrite first_chars_str.
  exists (Js.str (skipn k (Js.chars s))).
  rewrite <- str_app, firstn_skipn. reflexivity.
Qed.

Lemma slice_drop_last (s : string) :
  (0 < String.length s)%nat ->
  Js.slice s 0 (-1) = first_chars (String.length s - 1) s.
Proof.
  intro H. unfold Js.slice, Js.relative, Js.length, first_chars.
  destruct (Z.ltb_spec 0 0) as [G|_]; [lia|].
  destruct (Z.ltb_spec (-1) 0) as [_|G]; [|lia].
  replace (Z.to_nat (Z.min 0 (Z.of_nat (String.length s)))) with 0%nat by lia.
  replace (Z.to_nat (Z.max (Z.max (Z.of_nat (String.length s) + -1) 0 -
                            Z.min 0 (Z.of_nat (String.length s))) 0))
    with (String.length s - 1)%nat by lia.
  reflexivity.
Qed.

(** The loop ends with the longest beginning of the text that fits. *)
Lemma truncate_loop_spec (maxLength : Z) :
  (0 <= maxLength)%Z ->
  forall turns s, (String.length s <= turns)%nat ->
  exists k, (k <= String.length s)%nat /\
    Memo.truncate_loop turns s maxLength = first_chars k s /\
    (Memo.byte_length (first_chars k s) <= maxLength)%Z /\
    ((k < String.length s)%nat ->
     (Memo.byte_length (first_chars (S k) s) > maxLength)%Z).
Proof.
  intros M. induction turns as [|turns IH]; intros s L.
  - destruct s as [|c s]; [|cbn [String.length] in L; lia].
    exists 0%nat. cbn [Memo.truncate_loop String.length].
    repeat split; [lia|exact M|lia].
  - cbn [Memo.truncate_loop].
    destruct (Z.gtb_spec (Memo.byte_length s) maxLength) as [B|B].
    + destruct (Z.gtb_spec (Js.length s) 0) as [P|P]; cbn [andb].
      * unfold Js.length in P. assert (P' : (0 < String.length s)%nat) by lia.
        rewrite (slice_drop_last s P').
        assert (L' : (String.length (first_chars (String.length s - 1) s) <= turns)%nat)
          by (rewrite first_chars_length; lia).
        destruct (IH _ L') as (k & K & E & F & G).
        rewrite first_chars_length in K, G by lia.
        rewrite first_chars_again in E, F by lia.
        exists k. split; [lia|]. split; [exact E|]. split; [exact F|].
        intros _. destruct (Nat.eq_dec k (String.length s - 1)) as [->|N].
        -- replace (S (String.length s - 1)) with (String.length s) by lia.
           rewrite first_chars_all. lia.
        -- rewrite <- (first_chars_again (S k) (String.length s - 1)) by lia.
           apply G. lia.
      * unfold Js.length in P. destruct s as [|c s]; [|cbn [String.length] in P; lia].
        exists 0%nat. cbn [String.length]. repeat split; [lia|exact M|lia].
    + cbn [andb]. exists (String.length s). rewrite first_chars_all.
      repeat split; [lia|lia|lia].
Qed.

Lemma ascii_byte_length (l : list ascii) :
  forallb (fun c => (Text.code c <? 128)%Z) l = true ->
  List.length (flat_map Memo.utf8_char l) = List.length l.
Proof.
  induction l as [|c l IH]; [reflexivity|].
  cbn [forallb flat_map]. intro H. apply andb_true_iff in H as [H1 H2].
  unfold Memo.utf8_char at 1. rewrite H1. cbn [app List.length].
  rewrite (IH H2). reflexivity.
Qed.

Lemma ascii_first_chars (k : nat) (s : string) :
  is_ascii s = true -> (k <= String.length s)%nat ->
  Memo.byte_length (first_chars k s) = Z.of_nat k.
Proof.
  unfold is_ascii, Memo.byte_length, Memo.encode. intros A K.
  pose proof (str_chars s) as E. remember (Js.chars s) as L eqn:HL. clear HL.
  subst s. rewrite string_length_str in K.
  rewrite first_chars_str, chars_str, ascii_byte_length.
  - rewrite length_firstn. lia.
  - rewrite <- (firstn_skipn k L), forallb_app in A.
    apply andb_true_iff in A as [A _]. exact A.
Qed.

Lemma truncateMemo_facts (message : string) (ellipsis : bool) :
  Memo.isValidMemo (Memo.truncateMemo message ellipsis) = true /\
  (Memo.isValidMemo message = true ->
   Memo.truncateMemo message ellipsis = message) /\
  (Memo.isValidMemo message = false ->
   exists k, (k < String.length message)%nat /\
     Memo.truncateMemo message ellipsis =
       (if ellipsis then first_chars k message ++ "..."
        else first_chars k message) /\
     (Memo.byte_length (first_chars k message) <=
        (if ellipsis then 31 else 34))%Z /\
     (Memo.byte_length (first_chars (S k) message) >
        (if ellipsis then 31 else 34))%Z /\
     (is_ascii message = true -> k = if ellipsis then 31%nat else 34%nat)).
Proof.
  unfold Memo.isValidMemo at 2 3. unfold Memo.truncateMemo, Memo.MAX_MEMO_LENGTH.
  destruct message as [|c r]; [repeat split; discriminate|].
  cbn [Js.falsy].
  destruct (Z.leb_spec (Memo.byte_length (String c r)) 34) as [B|B].
  - split; [|split; [reflexivity|discriminate]].
    unfold Memo.isValidMemo, Memo.MAX_MEMO_LENGTH. cbn [Js.falsy].
    apply Z.leb_le, B.
  - set (maxLength := if ellipsis then (34 - 3)%Z else 34%Z).
    assert (M : (0 <= maxLength)%Z) by (unfold maxLength; destruct ellipsis; lia).
    destruct (truncate_loop_spec maxLength M (String.length (String c r))
                (String c r) (Nat.le_refl _)) as (k & K & E & F & G).
    assert (K' : (k < String.length (String c r))%nat).
    { destruct (Nat.eq_dec k (String.length (String c r))) as [->|N]; [|lia].
      rewrite first_chars_all in F. unfold maxLength in F. destruct ellipsis; lia. }
    specialize (G K'). rewrite E.
    assert (V : Memo.isValidMemo
                  (if ellipsis then first_chars k (String c r) ++ "..."
                   else first_chars k (String c r)) = true).
    { unfold Memo.isValidMemo, Memo.MAX_MEMO_LENGTH.
      destruct (Js.falsy _); [reflexivity|]. apply Z.leb_le.
      unfold maxLength in F. destruct ellipsis; [|exact F].
      rewrite byte_length_app. change (Memo.byte_length "...") with 3%Z. lia. }
    split; [exact V|]. split; [discriminate|]. intros _. exists k.
    split; [exact K'|]. split; [reflexivity|].
    unfold maxLength in F, G.
    split; [destruct ellipsis; exact F|]. split; [destruct ellipsis; exact G|].
    intro A. rewrite ascii_first_chars in F, G by (assumption || lia).
    destruct ellipsis; lia.
Qed.

(** X19: A truncated memo always fits in a memo.  A message that fits is left
    as it is; of a message that does not, the longest beginning that fits
    in 31 bytes is kept and followed by three dots, or the longest that
    fits in 34 bytes without them.  For text in ASCII that is the first 31,
    or 34, characters. *)
Theorem truncateMemo_spec (message : string) (ellipsis : bool) :
  Memo.isValidMemo (Memo.truncateMemo message ellipsis) = true /\
  (Memo.isValidMemo message = true ->
   Memo.truncateMemo message ellipsis = message) /\
  (Memo.isValidMemo message = false ->
   exists k, (k < String.length message)%nat /\
     Memo.truncateMemo message ellipsis =
       (if ellipsis then first_chars k message ++ "..."
        else first_chars k message) /\
     (Memo.byte_length (first_chars k message) <=
        (if ellipsis then 31 else 34))%Z /\
     (Memo.byte_length (first_chars (S k) message) >
        (if ellipsis then 31 else 34))%Z /\
     (is_ascii message = true -> k = if ellipsis then 31%nat else 34%nat)).
Proof. exact (truncateMemo_facts message ellipsis). Qed.

(** ** Making a prefixed memo and parsing it *)

Lemma byte_length_le (s : string) : (Memo.byte_length s <= 2 * Js.length s)%Z.
Proof.
  unfold Memo.byte_length, Memo.encode, Js.length.
  induction s as [|c s IH]; [cbn; lia|].
  change (Js.chars (String c s)) with (c :: Js.chars s).
  cbn [flat_map String.length]. rewrite length_app.
  assert (H : (List.length (Memo.utf8_char c) <= 2)%nat).
  { unfold Memo.utf8_char. destruct (Text.code c <? 128)%Z; cbn; lia. }
  lia.
Qed.

Lemma first_chars_length_le (k : nat) (s : string) :
  (String.length (first_chars k s) <= k)%nat.
Proof.
  rewrite <- (str_chars s). rewrite first_chars_str, string_length_str.
  apply firstn_le_length.
Qed.

Lemma first_chars_app (k : nat) (p c : string) :
  (String.length p <= k)%nat ->
  first_chars k (p ++ c) = p ++ first_chars (k - String.length p) c.
Proof.
  revert k. induction p as [|x p IH]; intros k H.
  - cbn [append String.length]. rewrite Nat.sub_0_r. reflexivity.
  - destruct k as [|k]; [cbn [String.length] in H; lia|].
    cbn [String.length] in H |- *. cbn [append]. unfold first_chars in *.
    cbn [String.substring Nat.sub]. rewrite IH by lia. reflexivity.
Qed.

Lemma string_app_nil (s : string) : s ++ "" = s.
Proof. induction s as [|c s IH]; [reflexivity|]. cbn [append]. rewrite IH. reflexivity. Qed.

Lemma prefix_length (key : Memo.MemoPrefix) :
  (String.length (Memo.MEMO_PREFIXES key) <= 4)%nat.
Proof. destruct key; cbn; lia. Qed.

(** X20: A prefixed memo is always a valid memo, and parses to the key it was
    made with and a beginning of the content it was made with: all of the
    content when the prefix and the content together fit in a memo. *)
Theorem createPrefixedMemo_parses (key : Memo.MemoPrefix) (content : string) :
  Memo.isValidMemo (Memo.createPrefixedMemo key content) = true /\
  exists kept,
    begins content kept /\
    Memo.createPrefixedMemo key content = Memo.MEMO_PREFIXES key ++ kept /\
    Memo.parsePrefixedMemo (Memo.createPrefixedMemo key content) =
      {| Memo.prefix := Some key; Memo.content := kept |} /\
    (Memo.isValidMemo (Memo.MEMO_PREFIXES key ++ content) = true ->
     kept = content).
Proof.
  unfold Memo.createPrefixedMemo.
  destruct (truncateMemo_facts (Memo.MEMO_PREFIXES key ++ content) false)
    as (V & I & T).
  split; [exact V|].
  destruct (Memo.isValidMemo (Memo.MEMO_PREFIXES key ++ content)) eqn:Q.
  - exists content. rewrite (I eq_refl).
    split; [exists ""; symmetry; apply string_app_nil|].
    split; [reflexivity|]. split; [apply parsePrefixedMemo_prefixed|reflexivity].
  - destruct (T eq_refl) as (k & K & E & F & G & _).
    pose proof (prefix_length key) as P.
    assert (L : (String.length (Memo.MEMO_PREFIXES key) <= k)%nat).
    { destruct (Nat.le_gt_cases (String.length (Memo.MEMO_PREFIXES key)) k) as [H|H];
        [exact H|].
      pose proof (byte_length_le
        (first_chars (S k) (Memo.MEMO_PREFIXES key ++ content))) as B.
      pose proof (first_chars_length_le (S k)
        (Memo.MEMO_PREFIXES key ++ content)) as B'.
      unfold Js.length in B. lia. }
    rewrite E, (first_chars_app k _ content L).
    exists (first_chars (k - String.length (Memo.MEMO_PREFIXES key)) content).
    split; [apply first_chars_begins|]. split; [reflexivity|].
    split; [apply parsePrefixedMemo_prefixed|discriminate].
Qed.

(** ** The hex digits of a memo *)

Lemma utf8_char_range (c : ascii) :
  Forall (fun b => 0 <= b < 256)%Z (Memo.utf8_char c).
Proof.
  pose proof (forall_ascii
    (fun c => forallb (fun b => (0 <=? b)%Z && (b <? 256)%Z) (Memo.utf8_char c))
    eq_refl c) as H.
  cbv beta in H. rewrite forallb_forall in H. apply Forall_forall.
  intros b I. specialize (H b I). apply andb_true_iff in H as [H1 H2].
  bool_facts. lia.
Qed.

Lemma encode_range (s : string) : Forall (fun b => 0 <= b < 256)%Z (Memo.encode s).
Proof.
  unfold Memo.encode. induction (Js.chars s) as [|c l IH]; [constructor|].
  cbn [flat_map]. apply Forall_app. split; [apply utf8_char_range|exact IH].
Qed.

Lemma byte_hex_digits (b : Z) :
  (0 <= b < 256)%Z ->
  Memo.byte_hex b = Js.str [C32.hex_at (b / 16); C32.hex_at (b mod 16)].
Proof.
  intro H. apply String.eqb_eq.
  apply (forall_below
    (fun b => String.eqb (Memo.byte_hex b)
                (Js.str [C32.hex_at (b / 16); C32.hex_at (b mod 16)]))
    256 eq_refl b H).
Qed.

Lemma concat_cons (x : string) (xs : list string) :
  String.concat "" (x :: xs) = x ++ String.concat "" xs.
Proof.
  destruct xs as [|y xs]; [cbn [String.concat]; symmetry; apply string_app_nil|].
  reflexivity.
Qed.

Lemma concat_byte_hex (bs : list Z) :
  Forall (fun b => 0 <= b < 256)%Z bs ->
  String.concat "" (map Memo.byte_hex bs) = C32.bytesToHex bs.
Proof.
  induction 1 as [|b bs Hb _ IH]; [reflexivity|].
  cbn [map]. rewrite concat_cons, IH, (byte_hex_digits b Hb). reflexivity.
Qed.

Lemma repeat_zero_str (n : nat) :
  Text.repeat "0" n = Js.str (List.repeat "0"%char n).
Proof.
  induction n as [|n IH]; [reflexivity|].
  cbn [Text.repeat List.repeat]. rewrite str_cons, IH. reflexivity.
Qed.

Lemma repeat_zeros_str (n : nat) :
  Text.repeat "00" n = Js.str (List.repeat "0"%char (2 * n)).
Proof.
  induction n as [|n IH]; [reflexivity|].
  replace (2 * S n)%nat with (S (S (2 * n))) by lia.
  cbn [Text.repeat List.repeat]. rewrite !str_cons, IH. reflexivity.
Qed.

Lemma firstn_Forall {A : Type} (P : A -> Prop) (n : nat) (l : list A) :
  Forall P l -> Forall P (firstn n l).
Proof.
  intro H. rewrite <- (firstn_skipn n l) in H. apply Forall_app in H. apply H.
Qed.

Lemma firstn_encode (s : string) :
  (if (Z.of_nat (List.length (Memo.encode s)) >? Memo.MAX_MEMO_LENGTH)%Z
   then firstn (Z.to_nat Memo.MAX_MEMO_LENGTH) (Memo.encode s)
   else Memo.encode s) = firstn 34 (Memo.encode s).
Proof.
  unfold Memo.MAX_MEMO_LENGTH.
  destruct (Z.gtb_spec (Z.of_nat (List.length (Memo.encode s))) 34) as [G|G];
    [reflexivity|].
  symmetry. apply firstn_all2. lia.
Qed.

Lemma encodeMemo_hex (c : ascii) (r : string) (padToLength : bool) :
  Memo.encodeMemo (String c r) padToLength =
  Js.str (map C32.hex_at (byte_digits (firstn 34 (Memo.encode (String c r)))) ++
          if padToLength
          then List.repeat "0"%char
                 (68 - 2 * List.length (firstn 34 (Memo.encode (String c r))))
          else [])%list.
Proof.
  unfold Memo.encodeMemo. cbn [Js.falsy]. rewrite firstn_encode.
  assert (R : Forall (fun b => 0 <= b < 256)%Z (firstn 34 (Memo.encode (String c r)))).
  { apply firstn_Forall, encode_range. }
  rewrite (concat_byte_hex _ R), bytesToHex_digits.
  destruct padToLength; [|rewrite app_nil_r; reflexivity].
  unfold Text.padEnd, Memo.MAX_MEMO_LENGTH.
  rewrite length_str, length_map, repeat_zero_str, <- str_app.
  destruct (byte_digits_spec _ R) as [L _]. rewrite L.
  do 3 f_equal. lia.
Qed.

(** X21: An encoded memo is a string of lower-case hex digits.  With padding it
    has 68 digits, whatever the message; without, two for every byte of
    the message up to 34 bytes.  The padded memo is the unpadded one
    followed by zeros. *)
Theorem encodeMemo_shape (message : string) :
  C32.is_hex_string (Memo.encodeMemo message true) = true /\
  Js.toLowerCase (Memo.encodeMemo message true) = Memo.encodeMemo message true /\
  Js.length (Memo.encodeMemo message true) = 68%Z /\
  Js.length (Memo.encodeMemo message false) =
    (2 * Z.min (Memo.getMemoByteLength message) 34)%Z /\
  Memo.encodeMemo message true =
    Text.padEnd (Memo.encodeMemo message false) 68 "0".
Proof.
  destruct message as [|c r].
  { vm_compute. repeat split; reflexivity. }
  rewrite !encodeMemo_hex.
  set (bs := firstn 34 (Memo.encode (String c r))).
  assert (R : Forall (fun b => 0 <= b < 256)%Z bs).
  { apply firstn_Forall, encode_range. }
  destruct (byte_digits_spec _ R) as [L RD].
  assert (LB : List.length bs = Nat.min 34 (List.length (Memo.encode (String c r))))
    by apply length_firstn.
  assert (Z : Forall (fun d => 0 <= d < 16)%Z (List.repeat 0%Z (68 - 2 * List.length bs))).
  { apply Forall_forall. intros d I. apply repeat_spec in I. lia. }
  assert (E : List.repeat "0"%char (68 - 2 * List.length bs) =
              map C32.hex_at (List.repeat 0%Z (68 - 2 * List.length bs))).
  { rewrite map_repeat. reflexivity. }
  rewrite E, <- map_app.
  assert (RA : in_range 16 (byte_digits bs ++ List.repeat 0%Z (68 - 2 * List.length bs))).
  { apply Forall_app. split; assumption. }
  split.
  { unfold C32.is_hex_string. rewrite chars_str. apply hex_digits_are_hex, RA. }
  split.
  { rewrite toLowerCase_str, hex_digits_lower by exact RA. reflexivity. }
  split.
  { rewrite length_str, length_map, length_app, repeat_length, L. lia. }
  split.
  { rewrite app_nil_r, length_str, length_map, L.
    unfold Memo.getMemoByteLength, Memo.byte_length. cbn [Js.falsy]. lia. }
  unfold Text.padEnd. rewrite app_nil_r, length_str, length_map, L.
  rewrite repeat_zero_str, <- str_app, map_app, <- E. do 3 f_equal. lia.
Qed.

(** ** Decoding an encoded memo *)

Lemma parseInt16_byte (b : Z) :
  (0 <= b < 256)%Z ->
  Memo.parseInt16 (Js.str [C32.hex_at (b / 16); C32.hex_at (b mod 16)]) = Some b.
Proof.
  intro H.
  pose proof (forall_below
    (fun b => match Memo.parseInt16
                      (Js.str [C32.hex_at (b / 16); C32.hex_at (b mod 16)]) with
              | Some v => (v =? b)%Z
              | None => false
              end) 256 eq_refl b H) as F.
  cbv beta in F.
  destruct (Memo.parseInt16 _) as [v|]; [|discriminate F].
  apply Z.eqb_eq in F. subst v. reflexivity.
Qed.

Lemma decode_loop_zeros (k : nat) (acc : list (option Z)) :
  Memo.decode_loop (List.repeat "0"%char k) acc = acc.
Proof.
  destruct k as [|k]; [reflexivity|].
  cbn [List.repeat Memo.decode_loop].
  assert (B : Memo.parseInt16 (Js.str (firstn 2 ("0"%char :: List.repeat "0"%char k)))
              = Some 0%Z).
  { destruct k as [|k]; reflexivity. }
  rewrite B. cbn [Memo.nonzero Z.eqb negb].
  change ("0"%char :: List.repeat "0"%char k) with (List.repeat "0"%char (S k)).
  rewrite repeat_zero_str, repeat_length, String.eqb_refl. reflexivity.
Qed.

Lemma zero_digits_bytes (bs : list Z) :
  Forall (fun b => 0 <= b < 256)%Z bs ->
  forall tail n,
  (map C32.hex_at (byte_digits bs) ++ tail)%list = List.repeat "0"%char n ->
  Forall (fun b => b = 0%Z) bs.
Proof.
  induction 1 as [|b bs Hb _ IH]; intros tail n E; [constructor|].
  cbn [byte_digits flat_map app map] in E. fold (byte_digits bs) in E.
  destruct n as [|[|n]]; try discriminate E.
  cbn [List.repeat] in E. injection E as E1 E2 E3.
  assert (H1 : (0 <= b / 16 < 16)%Z) by (Z.div_mod_to_equations; lia).
  assert (H2 : (0 <= b mod 16 < 16)%Z) by (Z.div_mod_to_equations; lia).
  destruct (hex_at_facts _ H1) as (_ & _ & _ & _ & Z1).
  destruct (hex_at_facts _ H2) as (_ & _ & _ & _ & Z2).
  rewrite E1, Ascii.eqb_refl in Z1. rewrite E2, Ascii.eqb_refl in Z2.
  symmetry in Z1, Z2. apply Z.eqb_eq in Z1, Z2.
  constructor; [Z.div_mod_to_equations; lia|exact (IH tail n E3)].
Qed.

Lemma last_zero (bs : list Z) (d : Z) :
  bs <> [] -> Forall (fun b => b = 0%Z) bs -> List.last bs d = 0%Z.
Proof.
  induction bs as [|b bs IH]; [congruence|]. intros _ F.
  apply Forall_cons_iff in F as [-> F].
  destruct bs as [|b' bs]; [reflexivity|].
  change (List.last (0%Z :: b' :: bs) d) with (List.last (b' :: bs) d).
  apply IH; [discriminate|exact F].
Qed.

(** The loop reads back the bytes of a hex string that is followed by any
    number of zeros, when the last byte is not zero. *)
Lemma decode_loop_bytes (k : nat) (bs : list Z) :
  Forall (fun b => 0 <= b < 256)%Z bs -> List.last bs 1%Z <> 0%Z ->
  forall acc,
  Memo.decode_loop (map C32.hex_at (byte_digits bs) ++ List.repeat "0"%char k) acc =
  (acc ++ map Some bs)%list.
Proof.
  induction 1 as [|b bs Hb R IH]; intros La acc.
  - cbn [byte_digits flat_map map app]. rewrite decode_loop_zeros, app_nil_r.
    reflexivity.
  - assert (La' : List.last bs 1%Z <> 0%Z).
    { destruct bs as [|b' bs]; [cbn; lia|exact La]. }
    cbn [byte_digits flat_map app map]. fold (byte_digits bs).
    cbn [Memo.decode_loop firstn]. rewrite (parseInt16_byte b Hb).
    rewrite (IH La' (acc ++ [Some b])%list), <- app_assoc. cbn [app map].
    destruct (Z.eqb_spec b 0) as [->|N]; cbn [Memo.nonzero negb].
    + rewrite (proj2 (Z.eqb_eq 0 0) eq_refl). cbn [negb].
      destruct (String.eqb_spec
        (Js.str (C32.hex_at (0 / 16) :: C32.hex_at (0 mod 16)
                 :: (map C32.hex_at (byte_digits bs) ++ List.repeat "0"%char k)%list))
        (Text.repeat "0"
           (List.length
              (C32.hex_at (0 / 16) :: C32.hex_at (0 mod 16)
               :: (map C32.hex_at (byte_digits bs) ++ List.repeat "0"%char k)%list))))
        as [E|_]; [|reflexivity].
      exfalso. rewrite repeat_zero_str in E. apply str_inj in E.
      destruct bs as [|b' bs]; [cbn in La; lia|].
      apply La. apply last_zero; [discriminate|].
      apply (zero_digits_bytes (0%Z :: b' :: bs) (Forall_cons _ Hb R) _ _ E).
    + destruct (Z.eqb_spec b 0) as [E|_]; [contradiction|]. reflexivity.
Qed.

Lemma ascii_encode (l : list ascii) :
  forallb (fun c => (Text.code c <? 128)%Z) l = true ->
  flat_map Memo.utf8_char l = map Text.code l.
Proof.
  induction l as [|c l IH]; [reflexivity|].
  cbn [forallb flat_map map]. intro H. apply andb_true_iff in H as [H1 H2].
  unfold Memo.utf8_char at 1. rewrite H1, (IH H2). reflexivity.
Qed.

Lemma decode_codes (l : list ascii) :
  forallb (fun c => (Text.code c <? 128)%Z) l = true ->
  Memo.decode (map Memo.to_uint8 (map Some (map Text.code l))) = Some (Js.str l).
Proof.
  intro A. unfold Memo.decode.
  assert (E : map Memo.to_uint8 (map Some (map Text.code l)) = map Text.code l).
  { rewrite map_map. cbn [Memo.to_uint8]. induction l as [|c l IH]; [reflexivity|].
    cbn [map forallb] in *. apply andb_true_iff in A as [A1 A2].
    rewrite (IH A2). f_equal. unfold Text.code in *. apply Z.mod_small.
    apply Z.ltb_lt in A1. lia. }
  rewrite E.
  assert (B : forallb (fun b => (b <? 128)%Z) (map Text.code l) = true).
  { clear E. induction l as [|c l IH]; [reflexivity|].
    cbn [map forallb] in *. apply andb_true_iff in A as [A1 A2].
    rewrite A1, (IH A2). reflexivity. }
  rewrite B, map_map. do 2 f_equal.
  rewrite <- (map_id l) at 2. apply map_ext. intro c. unfold Text.code.
  rewrite Nat2Z.id. apply ascii_nat_embedding.
Qed.

Lemma last_code (l : list ascii) (d : ascii) :
  l <> [] -> List.last (map Text.code l) 1%Z = Text.code (List.last l d).
Proof.
  induction l as [|c l IH]; [congruence|]. intros _.
  destruct l as [|c' l]; [reflexivity|].
  change (List.last (map Text.code (c :: c' :: l)) 1%Z)
    with (List.last (map Text.code (c' :: l)) 1%Z).
  change (List.last (c :: c' :: l) d) with (List.last (c' :: l) d).
  apply IH. discriminate.
Qed.

Lemma hex_char_not_x (c : ascii) :
  C32.is_hex_char c = true -> Ascii.eqb c "x" = false.
Proof.
  intro H. destruct (Ascii.eqb_spec c "x") as [->|]; [|reflexivity].
  vm_compute in H. discriminate H.
Qed.

(** X22: A message in ASCII of at most 34 characters that has no white space
    at either end and does not end in the character of code 0 is read back
    from its memo, padded or not. *)
Theorem decodeMemo_encodeMemo (message : string) (padToLength : bool) :
  is_ascii message = true ->
  (Js.length message <= 34)%Z ->
  Text.trim message = message ->
  ends_in_nul message = false ->
  Memo.decodeMemo (Memo.encodeMemo message padToLength) = Some message.
Proof.
  intros A L T N. destruct message as [|c r].
  { destruct padToLength; vm_compute; reflexivity. }
  rewrite encodeMemo_hex. unfold is_ascii in A.
  assert (E : Memo.encode (String c r) = map Text.code (Js.chars (String c r))).
  { unfold Memo.encode. apply ascii_encode, A. }
  assert (F : firstn 34 (Memo.encode (String c r)) =
              map Text.code (Js.chars (String c r))).
  { rewrite E. apply firstn_all2. rewrite length_map.
    pose proof (length_str (Js.chars (String c r))) as Q. rewrite str_chars in Q.
    lia. }
  rewrite F. set (l := Js.chars (String c r)) in *.
  assert (R : Forall (fun b => 0 <= b < 256)%Z (map Text.code l)).
  { rewrite <- E. apply encode_range. }
  assert (NE : l <> []) by (unfold l; discriminate).
  assert (La : List.last (map Text.code l) 1%Z <> 0%Z).
  { rewrite (last_code l " "%char NE). unfold ends_in_nul in N. fold l in N.
    intro Q. destruct (Ascii.eqb_spec (List.last l " "%char) zero) as [|D];
      [discriminate N|].
    apply D. rewrite <- (ascii_nat_embedding (List.last l " "%char)).
    unfold Text.code in Q. replace (nat_of_ascii (List.last l " "%char)) with 0%nat by lia.
    reflexivity. }
  set (pad := if padToLength
              then List.repeat "0"%char (68 - 2 * List.length (map Text.code l))
              else []).
  assert (P : exists k, pad = List.repeat "0"%char k).
  { unfold pad. destruct padToLength; [eexists; reflexivity|exists 0%nat; reflexivity]. }
  destruct P as [k ->].
  unfold Memo.decodeMemo.
  assert (H : exists h1 h2 rest,
    Js.str (map C32.hex_at (byte_digits (map Text.code l)) ++ List.repeat "0"%char k)
    = String h1 (String h2 rest) /\ C32.is_hex_char h2 = true).
  { destruct l as [|x l']; [congruence|]. cbn [map byte_digits flat_map app].
    rewrite !str_cons. do 3 eexists. split; [reflexivity|].
    apply Forall_cons_iff in R as [Rx _].
    apply hex_at_facts. Z.div_mod_to_equations. lia. }
  destruct H as (h1 & h2 & rest & H & X).
  assert (S0 : Js.startsWith
    (Js.str (map C32.hex_at (byte_digits (map Text.code l)) ++ List.repeat "0"%char k))
    "0x" = false).
  { rewrite H, !startsWith_cons, (hex_char_not_x h2 X).
    cbn [andb]. apply andb_false_r. }
  rewrite S0. rewrite H at 1. cbn [Js.falsy].
  rewrite chars_str, (decode_loop_bytes k _ R La []). cbn [app].
  rewrite (decode_codes l A). unfold l. rewrite str_chars, T. reflexivity.
Qed.

Lemma decodeMemo_encodeMemo_witness :
  Memo.decodeMemo (Memo.encodeMemo "Payment for services" true) =
  Some "Payment for services".
Proof.
  apply (decodeMemo_encodeMemo "Payment for services" true).
  - vm_compute. reflexivity.
  - vm_compute. discriminate.
  - vm_compute. reflexivity.
  - vm_compute. reflexivity.
Defined.

(** ** Names and namespaces *)

Lemma lower_digit_facts (c : ascii) :
  Bns.lower_digit c = true ->
  Js.lower_char c = c /\ Text.is_space c = false /\
  Ascii.eqb c "." = false /\ Ascii.eqb c "-" = false.
Proof.
  intro H.
  pose proof (forall_ascii
    (fun c => implb (Bns.lower_digit c)
                (Ascii.eqb (Js.lower_char c) c && negb (Text.is_space c) &&
                 negb (Ascii.eqb c ".") && negb (Ascii.eqb c "-")))
    eq_refl c) as F.
  cbv beta in F. rewrite H in F. cbn [implb] in F.
  repeat (apply andb_true_iff in F; destruct F as [F ?]).
  apply Ascii.eqb_eq in F.
  repeat split; try assumption; apply negb_true_iff; assumption.
Qed.

Lemma lower_digit_hyphen_split (c : ascii) :
  Bns.lower_digit_hyphen c = Bns.lower_digit c || Ascii.eqb c "-".
Proof. reflexivity. Qed.

Lemma lower_digit_no_hyphen (c : ascii) :
  Bns.lower_digit c = Bns.lower_digit_hyphen c && negb (Ascii.eqb c "-").
Proof.
  rewrite lower_digit_hyphen_split. destruct (Bns.lower_digit c) eqn:H.
  - destruct (lower_digit_facts c H) as (_ & _ & _ & ->). reflexivity.
  - destruct (Ascii.eqb c "-"); reflexivity.
Qed.

Lemma lower_digit_hyphen_facts (c : ascii) :
  Bns.lower_digit_hyphen c = true ->
  Js.lower_char c = c /\ Ascii.eqb c "." = false.
Proof.
  rewrite lower_digit_hyphen_split. intro H. apply orb_true_iff in H as [H|H].
  - destruct (lower_digit_facts c H) as (A & _ & B & _). split; assumption.
  - apply Ascii.eqb_eq in H. subst c. split; reflexivity.
Qed.

(** The shape the name expression asks for: a letter or digit at either
    end, and letters, digits and hyphens between. *)
Lemma test_name_regex_shape (s : string) :
  Regex.test Bns.name_regex s = true <->
  exists c, (s = String c "" /\ Bns.lower_digit c = true) \/
  exists mid z,
    s = String c (mid ++ String z "") /\ Bns.lower_digit c = true /\
    forallb Bns.lower_digit_hyphen (Js.chars mid) = true /\
    Bns.lower_digit z = true.
Proof.
  unfold Regex.test, Bns.name_regex.
  rewrite matches_Alt, orb_true_iff, matches_Seq_Class, matches_Class. split.
  - intros [H|H].
    + destruct s as [|c s]; [discriminate H|].
      apply andb_true_iff in H as [H1 H2]. apply matches_Seq in H2.
      destruct H2 as (s1 & s2 & -> & M1 & M2).
      rewrite matches_Star_Class in M1. rewrite matches_Class in M2.
      destruct s2 as [|z [|? ?]]; try discriminate M2.
      exists c. right. exists s1, z. repeat split; assumption.
    + destruct s as [|c [|? ?]]; try discriminate H.
      exists c. left. split; [reflexivity|exact H].
  - intros [c [[-> H]|(mid & z & -> & H1 & H2 & H3)]].
    + right. exact H.
    + left. rewrite H1. cbn [andb]. apply matches_Seq.
      exists mid, (String z ""). split; [reflexivity|].
      rewrite matches_Star_Class, matches_Class. split; assumption.
Qed.

Lemma string_snoc (c : ascii) (s : string) :
  exists a z, String c s = a ++ String z "".
Proof.
  revert c. induction s as [|d s IH]; intro c.
  - exists "", c. reflexivity.
  - destruct (IH d) as (a & z & E). exists (String c a), z.
    cbn [append]. rewrite <- E. reflexivity.
Qed.

Lemma last_chars_snoc (a : string) (z d : ascii) :
  List.last (Js.chars (a ++ String z "")) d = z.
Proof.
  rewrite chars_app. change (Js.chars (String z "")) with [z]. apply last_last.
Qed.

Lemma forallb_chars_snoc (p : ascii -> bool) (a : string) (z : ascii) :
  forallb p (Js.chars (a ++ String z "")) = forallb p (Js.chars a) && p z.
Proof.
  rewrite chars_app, forallb_app. change (Js.chars (String z "")) with [z].
  cbn [forallb]. rewrite andb_true_r. reflexivity.
Qed.

Lemma test_name_regex_hyphens (s : string) :
  Regex.test Bns.name_regex s =
  negb (Js.falsy s) && forallb Bns.lower_digit_hyphen (Js.chars s) &&
  negb (begins_with_hyphen s) && negb (ends_with_hyphen s).
Proof.
  apply eq_iff_eq_true. rewrite test_name_regex_shape.
  unfold begins_with_hyphen, ends_with_hyphen. split.
  - intros [c [[-> H]|(mid & z & -> & H1 & H2 & H3)]].
    + rewrite startsWith_cons, startsWith_nil, andb_true_r.
      change (Js.chars (String c "")) with [c]. cbn [Js.falsy negb forallb List.last andb].
      rewrite lower_digit_no_hyphen in H. apply andb_true_iff in H as [-> ->].
      reflexivity.
    + rewrite startsWith_cons, startsWith_nil, andb_true_r.
      change (String c (mid ++ String z "")) with (String c mid ++ String z "").
      rewrite last_chars_snoc, forallb_chars_snoc.
      change (Js.chars (String c mid)) with (c :: Js.chars mid).
      cbn [Js.falsy negb forallb andb append]. rewrite H2.
      rewrite lower_digit_no_hyphen in H1, H3.
      apply andb_true_iff in H1 as [-> ->]. apply andb_true_iff in H3 as [-> ->].
      reflexivity.
  - intro H. repeat (apply andb_true_iff in H; destruct H as [H ?]).
    destruct s as [|c s]; [discriminate H|]. exists c.
    rewrite startsWith_cons, startsWith_nil, andb_true_r in *.
    destruct s as [|d s].
    + left. split; [reflexivity|].
      change (Js.chars (String c "")) with [c] in *. cbn [forallb] in *.
      rewrite lower_digit_no_hyphen.
      match goal with Q : _ && true = true |- _ =>
        rewrite andb_true_r in Q; rewrite Q end.
      assumption.
    + right. destruct (string_snoc d s) as (mid & z & E). rewrite E in *.
      exists mid, z. split; [reflexivity|].
      change (String c (mid ++ String z "")) with (String c mid ++ String z "") in *.
      rewrite last_chars_snoc, forallb_chars_snoc in *.
      change (Js.chars (String c mid)) with (c :: Js.chars mid) in *.
      cbn [forallb] in *.
      match goal with Q : _ && _ && _ = true |- _ =>
        apply andb_true_iff in Q; destruct Q as [Q Qz];
        apply andb_true_iff in Q; destruct Q as [Qc Qm] end.
      rewrite !lower_digit_no_hyphen, Qc, Qz. repeat split; assumption.
Qed.

Lemma test_namespace_regex (s : string) :
  Regex.test Bns.namespace_regex s =
  negb (Js.falsy s) && forallb Bns.lower_digit (Js.chars s).
Proof.
  unfold Regex.test, Bns.namespace_regex, Regex.Plus. rewrite matches_Seq_Class.
  destruct s as [|c r]; [reflexivity|]. rewrite matches_Star_Class. reflexivity.
Qed.

Lemma isValidBnsName_eq (name : string) :
  Bns.isValidBnsName name =
  (1 <=? Js.length name)%Z && (Js.length name <=? 48)%Z &&
  forallb Bns.lower_digit_hyphen (Js.chars name) &&
  negb (begins_with_hyphen name) && negb (ends_with_hyphen name).
Proof.
  unfold Bns.isValidBnsName, Bns.MAX_NAME_LENGTH. rewrite test_name_regex_hyphens.
  destruct name as [|c r]; [reflexivity|].
  cbn [Js.falsy typeof orb negb andb].
  change (String.eqb "string" "string") with true. cbn [negb].
  assert (P : (1 <= Js.length (String c r))%Z).
  { unfold Js.length. cbn [String.length]. lia. }
  destruct (Z.gtb_spec (Js.length (String c r)) 48) as [G|G].
  - destruct (Z.leb_spec (Js.length (String c r)) 48) as [G'|_]; [lia|].
    rewrite andb_false_r. reflexivity.
  - destruct (Z.ltb_spec (Js.length (String c r)) 1) as [G'|_]; [lia|].
    destruct (Z.leb_spec 1 (Js.length (String c r))) as [_|G']; [|lia].
    destruct (Z.leb_spec (Js.length (String c r)) 48) as [_|G']; [|lia].
    reflexivity.
Qed.

Lemma isValidBnsNamespace_eq (namespace : string) :
  Bns.isValidBnsNamespace namespace =
  (1 <=? Js.length namespace)%Z && (Js.length namespace <=? 20)%Z &&
  forallb Bns.lower_digit (Js.chars namespace).
Proof.
  unfold Bns.isValidBnsNamespace, Bns.MAX_NAMESPACE_LENGTH.
  rewrite test_namespace_regex.
  destruct namespace as [|c r]; [reflexivity|].
  cbn [Js.falsy typeof orb negb andb].
  change (String.eqb "string" "string") with true. cbn [negb].
  assert (P : (1 <= Js.length (String c r))%Z).
  { unfold Js.length. cbn [String.length]. lia. }
  destruct (Z.gtb_spec (Js.length (String c r)) 20) as [G|G].
  - destruct (Z.leb_spec (Js.length (String c r)) 20) as [G'|_]; [lia|].
    rewrite andb_false_r. reflexivity.
  - destruct (Z.ltb_spec (Js.length (String c r)) 1) as [G'|_]; [lia|].
    destruct (Z.leb_spec 1 (Js.length (String c r))) as [_|G']; [|lia].
    destruct (Z.leb_spec (Js.length (String c r)) 20) as [_|G']; [|lia].
    reflexivity.
Qed.

(** X23: A name is valid exactly when it has between 1 and 48 characters, all
    of them lower-case letters, digits and hyphens, and neither begins nor
    ends with a hyphen.  A namespace is valid exactly when it has between 1
    and 20 characters, all of them lower-case letters and digits. *)
Theorem isValidBnsName_spec (name namespace : string) :
  Bns.isValidBnsName name =
    (1 <=? Js.length name)%Z && (Js.length name <=? 48)%Z &&
    forallb Bns.lower_digit_hyphen (Js.chars name) &&
    negb (begins_with_hyphen name) && negb (ends_with_hyphen name) /\
  Bns.isValidBnsNamespace namespace =
    (1 <=? Js.length namespace)%Z && (Js.length namespace <=? 20)%Z &&
    forallb Bns.lower_digit (Js.chars namespace).
Proof.
  split; [apply isValidBnsName_eq|apply isValidBnsNamespace_eq].
Qed.

(** ** Parsing a full name *)

Lemma valid_name_chars (n : string) :
  Bns.isValidBnsName n = true ->
  forallb Bns.lower_digit_hyphen (Js.chars n) = true /\
  exists c r, n = String c r /\ Bns.lower_digit c = true.
Proof.
  rewrite isValidBnsName_eq. intro H.
  repeat (apply andb_true_iff in H; destruct H as [H ?]).
  split; [assumption|].
  destruct n as [|c r]; [discriminate H|]. exists c, r. split; [reflexivity|].
  unfold begins_with_hyphen in *.
  rewrite startsWith_cons, startsWith_nil, andb_true_r in *.
  change (Js.chars (String c r)) with (c :: Js.chars r) in *. cbn [forallb] in *.
  rewrite lower_digit_no_hyphen.
  match goal with Q : _ && _ = true |- _ =>
    apply andb_true_iff in Q; destruct Q as [Q _]; rewrite Q end.
  assumption.
Qed.

Lemma valid_namespace_chars (ns : string) :
  Bns.isValidBnsNamespace ns = true ->
  forallb Bns.lower_digit (Js.chars ns) = true /\ ns <> "".
Proof.
  rewrite isValidBnsNamespace_eq. intro H.
  repeat (apply andb_true_iff in H; destruct H as [H ?]).
  split; [assumption|]. intros ->. discriminate H.
Qed.

Lemma lower_digit_is_hyphen_class (l : list ascii) :
  forallb Bns.lower_digit l = true -> forallb Bns.lower_digit_hyphen l = true.
Proof.
  induction l as [|c l IH]; [reflexivity|]. cbn [forallb]. intro H.
  apply andb_true_iff in H as [H1 H2].
  rewrite lower_digit_hyphen_split, H1, (IH H2). reflexivity.
Qed.

Lemma toLowerCase_fixed (s : string) :
  forallb Bns.lower_digit_hyphen (Js.chars s) = true -> Js.toLowerCase s = s.
Proof.
  induction s as [|c s IH]; [reflexivity|].
  change (Js.chars (String c s)) with (c :: Js.chars s). cbn [forallb Js.toLowerCase].
  intro H. apply andb_true_iff in H as [H1 H2].
  destruct (lower_digit_hyphen_facts c H1) as [-> _]. rewrite (IH H2). reflexivity.
Qed.

Lemma no_dot_in_name (s : string) :
  forallb Bns.lower_digit_hyphen (Js.chars s) = true -> count_char "." s = O.
Proof.
  induction s as [|c s IH]; [reflexivity|].
  change (Js.chars (String c s)) with (c :: Js.chars s). cbn [forallb count_char].
  intro H. apply andb_true_iff in H as [H1 H2].
  destruct (lower_digit_hyphen_facts c H1) as [_ ->]. rewrite (IH H2). reflexivity.
Qed.

Lemma toLowerCase_app (a b : string) :
  Js.toLowerCase (a ++ b) = Js.toLowerCase a ++ Js.toLowerCase b.
Proof.
  induction a as [|c a IH]; [reflexivity|].
  cbn [append Js.toLowerCase]. rewrite IH. reflexivity.
Qed.

Lemma trimEnd_fixed (s : string) :
  forallb Bns.lower_digit (Js.chars s) = true -> Text.trimEnd s = s.
Proof.
  induction s as [|c s IH]; [reflexivity|].
  change (Js.chars (String c s)) with (c :: Js.chars s). cbn [forallb Text.trimEnd].
  intro H. apply andb_true_iff in H as [H1 H2]. rewrite (IH H2).
  destruct (lower_digit_facts c H1) as (_ & -> & _). destruct s; reflexivity.
Qed.

Lemma trimEnd_app (a s : string) :
  s <> "" -> Text.trimEnd s = s -> Text.trimEnd (a ++ s) = a ++ s.
Proof.
  intros N T. induction a as [|c a IH]; [exact T|].
  cbn [append Text.trimEnd]. rewrite IH.
  destruct (a ++ s) eqn:E; [|reflexivity].
  destruct a; [cbn [append] in E; congruence|discriminate E].
Qed.

Lemma string_app_assoc (a b c : string) : a ++ b ++ c = (a ++ b) ++ c.
Proof.
  induction a as [|x a IH]; [reflexivity|]. cbn [append]. rewrite IH. reflexivity.
Qed.

Lemma parse_of_valid_parts (n ns : string) :
  Bns.isValidBnsName n = true -> Bns.isValidBnsNamespace ns = true ->
  Text.trim (Js.toLowerCase (n ++ "." ++ ns)) = n ++ "." ++ ns /\
  Bns.parseBnsName (n ++ "." ++ ns) =
  {| Bns.name := n; Bns.namespace := ns; Bns.isValid := true;
     Bns.error := None |}.
Proof.
  intros Vn Vs.
  destruct (valid_name_chars n Vn) as (Cn & c & r & En & Lc).
  destruct (valid_namespace_chars ns Vs) as (Cs & Ns).
  pose proof (lower_digit_is_hyphen_class _ Cs) as Cs'.
  assert (T : Text.trim (Js.toLowerCase (n ++ "." ++ ns)) = n ++ "." ++ ns).
  { rewrite !toLowerCase_app, (toLowerCase_fixed n Cn), (toLowerCase_fixed ns Cs').
    change (Js.toLowerCase ".") with ".".
    assert (S : Text.trimStart (n ++ "." ++ ns) = n ++ "." ++ ns).
    { rewrite En. cbn [append Text.trimStart].
      destruct (lower_digit_facts c Lc) as (_ & -> & _). reflexivity. }
    unfold Text.trim. rewrite S, string_app_assoc.
    apply trimEnd_app; [exact Ns|apply trimEnd_fixed, Cs]. }
  split; [exact T|].
  unfold Bns.parseBnsName. rewrite T. rewrite En at 1. cbn [append Js.falsy].
  cbn [typeof orb negb]. change (String.eqb "string" "string") with true.
  cbn [negb]. change (n ++ "." ++ ns) with (n ++ String "." ns).
  rewrite (split_app "." n ns (no_dot_in_name n Cn)),
    (split_no_sep "." ns (no_dot_in_name ns Cs')).
  cbn [List.length Nat.eqb negb nth]. rewrite Vn, Vs. reflexivity.
Qed.

(** X24: The full name constructed from a name and a namespace that are valid
    once in lower case parses as valid, to that name and that namespace in
    lower case. *)
Theorem parseBnsName_constructBnsName (n ns : string) :
  Bns.isValidBnsName (Js.toLowerCase n) = true ->
  Bns.isValidBnsNamespace (Js.toLowerCase ns) = true ->
  Bns.parseBnsName (Bns.constructBnsName n ns) =
    {| Bns.name := Js.toLowerCase n; Bns.namespace := Js.toLowerCase ns;
       Bns.isValid := true; Bns.error := None |} /\
  Bns.isValidFullBnsName (Bns.constructBnsName n ns) = true.
Proof.
  intros Vn Vs. unfold Bns.isValidFullBnsName, Bns.constructBnsName.
  destruct (parse_of_valid_parts _ _ Vn Vs) as [_ ->]. split; reflexivity.
Qed.

Lemma parseBnsName_constructBnsName_witness :
  Bns.parseBnsName (Bns.constructBnsName "MyName" "STX") =
    {| Bns.name := "myname"; Bns.namespace := "stx";
       Bns.isValid := true; Bns.error := None |} /\
  Bns.isValidFullBnsName (Bns.constructBnsName "MyName" "STX") = true.
Proof.
  apply (parseBnsName_constructBnsName "MyName" "STX").
  - vm_compute. reflexivity.
  - vm_compute. reflexivity.
Defined.

(** X25: A full name that parses as valid is, in lower case and without the
    white space around it, the parsed name, a dot and the parsed namespace;
    the two parts are valid, there is no error message, and the name
    constructed from the parts parses to the same record. *)
Theorem parseBnsName_valid (fullName : string) :
  Bns.isValid (Bns.parseBnsName fullName) = true ->
  let parsed := Bns.parseBnsName fullName in
  Bns.isValidBnsName (Bns.name parsed) = true /\
  Bns.isValidBnsNamespace (Bns.namespace parsed) = true /\
  Bns.error parsed = None /\
  Text.trim (Js.toLowerCase fullName) =
    Bns.name parsed ++ "." ++ Bns.namespace parsed /\
  Bns.constructBnsName (Bns.name parsed) (Bns.namespace parsed) =
    Text.trim (Js.toLowerCase fullName) /\
  Bns.parseBnsName (Bns.constructBnsName (Bns.name parsed) (Bns.namespace parsed)) =
    parsed.
Proof.
  cbv zeta. unfold Bns.parseBnsName.
  destruct (Js.falsy fullName || negb (String.eqb (typeof (JsString fullName)) "string"));
    [discriminate|].
  destruct (Text.split "." (Text.trim (Js.toLowerCase fullName)))
    as [|p [|q [|x l]]] eqn:S; cbn [List.length Nat.eqb negb nth];
    try discriminate.
  destruct (Bns.isValidBnsName p) eqn:Vp; cbn [negb]; [|discriminate].
  destruct (Bns.isValidBnsNamespace q) eqn:Vq; cbn [negb]; [|discriminate].
  intros _. cbn [Bns.name Bns.namespace Bns.error].
  destruct (split_two "." _ p q S) as (E & _ & _).
  destruct (valid_name_chars p Vp) as (Cp & _).
  destruct (valid_namespace_chars q Vq) as (Cq & _).
  assert (K : Bns.constructBnsName p q = p ++ "." ++ q).
  { unfold Bns.constructBnsName.
    rewrite (toLowerCase_fixed p Cp),
      (toLowerCase_fixed q (lower_digit_is_hyphen_class _ Cq)). reflexivity. }
  rewrite K. repeat split; try assumption; try (symmetry; assumption).
  destruct (parse_of_valid_parts p q Vp Vq) as [_ P].
  unfold Bns.parseBnsName in P. exact P.
Qed.

Lemma parseBnsName_valid_witness :
  Text.trim (Js.toLowerCase "  Satoshi.BTC ") = "satoshi" ++ "." ++ "btc".
Proof.
  exact (proj1 (proj2 (proj2 (proj2
    (parseBnsName_valid "  Satoshi.BTC " ltac:(vm_compute; reflexivity)))))).
Defined.

(** ** Known namespaces and prices *)

(** X26: Every known namespace, in whatever case it is written, is a valid
    namespace once in lower case. *)
Theorem known_namespace_valid (namespace : string) :
  Bns.isKnownNamespace namespace = true ->
  Bns.isValidBnsNamespace (Js.toLowerCase namespace) = true /\
  In (Js.toLowerCase namespace) Bns.NAMESPACES.
Proof.
  unfold Bns.isKnownNamespace. intro H. apply existsb_exists in H.
  destruct H as (k & I & E). apply String.eqb_eq in E. rewrite E.
  split; [|exact I]. unfold Bns.NAMESPACES in I. cbn [In] in I.
  destruct I as [<-|[<-|[<-|[<-|[<-|[]]]]]]; vm_compute; reflexivity.
Qed.

Lemma known_namespace_valid_witness :
  Bns.isValidBnsNamespace (Js.toLowerCase "BTC") = true /\
  In (Js.toLowerCase "BTC") Bns.NAMESPACES.
Proof.
  apply (known_namespace_valid "BTC"). vm_compute. reflexivity.
Defined.

Lemma lower_char_twice (c : ascii) : Js.lower_char (Js.lower_char c) = Js.lower_char c.
Proof.
  apply Ascii.eqb_eq.
  apply (forall_ascii
    (fun c => Ascii.eqb (Js.lower_char (Js.lower_char c)) (Js.lower_char c))).
  vm_compute. reflexivity.
Qed.

Lemma toLowerCase_twice (s : string) :
  Js.toLowerCase (Js.toLowerCase s) = Js.toLowerCase s.
Proof.
  induction s as [|c s IH]; [reflexivity|].
  cbn [Js.toLowerCase]. rewrite lower_char_twice, IH. reflexivity.
Qed.

(** Of the property names every object inherits, a string in lower case
    can only be one of the two that have no upper-case letter. *)
Lemma inherited_lower_keys (s : string) :
  existsb (String.eqb (Js.toLowerCase s)) Bns.object_prototype_keys =
  String.eqb (Js.toLowerCase s) "constructor" ||
  String.eqb (Js.toLowerCase s) "__proto__".
Proof.
  assert (U : forall k, String.eqb (Js.toLowerCase k) k = false ->
                        String.eqb (Js.toLowerCase s) k = false).
  { intros k H. destruct (String.eqb_spec (Js.toLowerCase s) k) as [E|]; [|reflexivity].
    rewrite <- E, toLowerCase_twice, String.eqb_refl in H. discriminate H. }
  unfold Bns.object_prototype_keys. cbn [existsb].
  rewrite (U "__defineGetter__" eq_refl), (U "__defineSetter__" eq_refl),
    (U "hasOwnProperty" eq_refl), (U "__lookupGetter__" eq_refl),
    (U "__lookupSetter__" eq_refl), (U "isPrototypeOf" eq_refl),
    (U "propertyIsEnumerable" eq_refl), (U "toString" eq_refl),
    (U "valueOf" eq_refl), (U "toLocaleString" eq_refl).
  cbn [orb]. rewrite orb_false_r. reflexivity.
Qed.

Lemma base_price (ns : string) :
  String.eqb (Js.toLowerCase ns) "constructor" ||
  String.eqb (Js.toLowerCase ns) "__proto__" = false ->
  exists b,
    (1000000 <= b <= 10000000)%Z /\
    forall n, Bns.estimateNamePrice n ns =
      Returned (Bns.Price
        (if (Js.length n <=? 3)%Z then b * 100
         else if (Js.length n <=? 5)%Z then b * 10
         else if (Js.length n <=? 8)%Z then b * 5 else b)%Z).
Proof.
  intro H. rewrite <- inherited_lower_keys in H.
  unfold Bns.estimateNamePrice, Bns.basePrices. rewrite H.
  destruct (String.eqb (Js.toLowerCase ns) "btc");
    [exists 2000000%Z; split; [lia|]; intro n; cbn [Z.eqb];
     destruct (Js.length n <=? 3)%Z, (Js.length n <=? 5)%Z, (Js.length n <=? 8)%Z;
     reflexivity|].
  destruct (String.eqb (Js.toLowerCase ns) "stx");
    [exists 2000000%Z; split; [lia|]; intro n; cbn [Z.eqb];
     destruct (Js.length n <=? 3)%Z, (Js.length n <=? 5)%Z, (Js.length n <=? 8)%Z;
     reflexivity|].
  destruct (String.eqb (Js.toLowerCase ns) "id");
    [exists 1000000%Z; split; [lia|]; intro n; cbn [Z.eqb];
     destruct (Js.length n <=? 3)%Z, (Js.length n <=? 5)%Z, (Js.length n <=? 8)%Z;
     reflexivity|].
  destruct (String.eqb (Js.toLowerCase ns) "app");
    [exists 5000000%Z; split; [lia|]; intro n; cbn [Z.eqb];
     destruct (Js.length n <=? 3)%Z, (Js.length n <=? 5)%Z, (Js.length n <=? 8)%Z;
     reflexivity|].
  exists 10000000%Z. split; [lia|]. intro n.
  destruct (Js.length n <=? 3)%Z, (Js.length n <=? 5)%Z, (Js.length n <=? 8)%Z;
    reflexivity.
Qed.

(** X27: Unless the namespace in lower case is [constructor] or [__proto__], the
    estimate is a price of at least 1000000 micro-STX, and a name that is
    no shorter than another never costs more than it.  For those two
    namespaces the table lookup finds an inherited property that is no
    price: the call throws for a name of up to 8 characters and returns
    that property for a longer one. *)
Theorem estimateNamePrice_spec (namespace : string) :
  (String.eqb (Js.toLowerCase namespace) "constructor" ||
   String.eqb (Js.toLowerCase namespace) "__proto__" = false ->
   forall n1 n2, (Js.length n1 <= Js.length n2)%Z ->
   exists p1 p2,
     Bns.estimateNamePrice n1 namespace = Returned (Bns.Price p1) /\
     Bns.estimateNamePrice n2 namespace = Returned (Bns.Price p2) /\
     (1000000 <= p2 <= p1)%Z /\ (p1 <= 1000000000)%Z) /\
  (String.eqb (Js.toLowerCase namespace) "constructor" ||
   String.eqb (Js.toLowerCase namespace) "__proto__" = true ->
   forall n,
     if (Js.length n <=? 8)%Z
     then returns (Bns.estimateNamePrice n namespace) = false
     else Bns.estimateNamePrice n namespace = Returned Bns.Inherited).
Proof.
  split.
  - intros H n1 n2 L. destruct (base_price namespace H) as (b & B & E).
    rewrite (E n1), (E n2). do 2 eexists. split; [reflexivity|].
    split; [reflexivity|].
    destruct (Z.leb_spec (Js.length n1) 3), (Z.leb_spec (Js.length n1) 5),
      (Z.leb_spec (Js.length n1) 8), (Z.leb_spec (Js.length n2) 3),
      (Z.leb_spec (Js.length n2) 5), (Z.leb_spec (Js.length n2) 8); lia.
  - intros H n. rewrite <- inherited_lower_keys in H.
    unfold Bns.estimateNamePrice, Bns.basePrices.
    assert (K : forall k, existsb (String.eqb k) Bns.object_prototype_keys = false ->
                          String.eqb (Js.toLowerCase namespace) k = false).
    { intros k F. destruct (String.eqb_spec (Js.toLowerCase namespace) k) as [E|];
        [|reflexivity]. rewrite E in H. congruence. }
    rewrite (K "btc" eq_refl), (K "stx" eq_refl), (K "id" eq_refl),
      (K "app" eq_refl), H.
    destruct (Z.leb_spec (Js.length n) 8) as [L|L].
    + destruct (Js.length n <=? 3)%Z; [reflexivity|].
      destruct (Js.length n <=? 5)%Z; reflexivity.
    + destruct (Z.leb_spec (Js.length n) 3); [lia|].
      destruct (Z.leb_spec (Js.length n) 5); [lia|]. reflexivity.
Qed.

(** ** Transaction ids and hex strings *)

Lemma cleaned_without_0x (s : string) :
  (if Js.startsWith s "0x" then Js.slice_from s 2 else s) = without_0x s.
Proof.
  destruct s as [|c0 [|c1 rest]].
  - reflexivity.
  - rewrite startsWith_cons, startsWith_empty, andb_false_r. reflexivity.
  - rewrite !startsWith_cons, startsWith_nil, andb_true_r. unfold without_0x.
    destruct (Ascii.eqb_spec c0 "0") as [->|N0]; [|reflexivity].
    destruct (Ascii.eqb_spec c1 "x") as [->|N1]; [|reflexivity].
    cbn [andb]. change (String "0" (String "x" rest)) with ("0x" ++ rest).
    change 2%Z with (Js.length "0x"). apply slice_from_app.
Qed.

(** X28: With a length of at least 1, a transaction id of at most
    [2 * length + 3] characters after its [0x] is returned as it is; a
    longer one is returned as [0x], the first [length] characters after the
    [0x], three dots and the last [length] characters, [2 * length + 5]
    characters in all. *)
Theorem formatTxId_spec (txId : string) (length : nat) :
  (1 <= length)%nat ->
  ((String.length (without_0x txId) <= 2 * length + 3)%nat ->
   Format.formatTxId txId (Z.of_nat length) = txId) /\
  ((2 * length + 3 < String.length (without_0x txId))%nat ->
   Format.formatTxId txId (Z.of_nat length) =
     "0x" ++ first_chars length (without_0x txId) ++ "..." ++
     last_chars length (without_0x txId) /\
   String.length (Format.formatTxId txId (Z.of_nat length)) =
     (2 * length + 5)%nat).
Proof.
  intro H. unfold Format.formatTxId. rewrite cleaned_without_0x.
  destruct (Z.leb_spec (Js.length (without_0x txId))
              (Z.of_nat length * 2 + 3)) as [L|L]; unfold Js.length in L.
  - split; [|intro; lia]. intros _. destruct txId; reflexivity.
  - split; [intro; lia|]. intros _.
    assert (N : Js.falsy txId = false).
    { destruct txId; [cbn in L; lia|reflexivity]. }
    rewrite N, slice_first, slice_last by (unfold Js.length; lia).
    split; [reflexivity|].
    change ("0x" ++ first_chars length (without_0x txId) ++ "..." ++
            last_chars length (without_0x txId))
      with (String "0" (String "x" (first_chars length (without_0x txId) ++ "..." ++
            last_chars length (without_0x txId)))).
    cbn [String.length]. rewrite !string_length_app. unfold first_chars, last_chars.
    rewrite !substring_length by lia. cbn [String.length]. lia.
Qed.

Lemma formatTxId_spec_witness :
  Format.formatTxId "0x0123456789abcdef0123456789abcdef" 4 =
    "0x" ++ first_chars 4 (without_0x "0x0123456789abcdef0123456789abcdef") ++
    "..." ++ last_chars 4 (without_0x "0x0123456789abcdef0123456789abcdef") /\
  String.length (Format.formatTxId "0x0123456789abcdef0123456789abcdef" 4) = 13%nat.
Proof.
  apply (proj2 (formatTxId_spec "0x0123456789abcdef0123456789abcdef" 4 ltac:(lia))).
  cbn. lia.
Defined.

Lemma repeat_length_str (c : ascii) (n : nat) :
  String.length (Text.repeat (String c "") n) = n.
Proof. induction n as [|n IH]; [reflexivity|]. cbn. rewrite IH. reflexivity. Qed.

Lemma padStart_length (s : string) (n : Z) (c : ascii) :
  Js.length (Text.padStart s n c) = Z.max (Js.length s) n.
Proof.
  unfold Text.padStart, Js.length. rewrite string_length_app, repeat_length_str.
  unfold Js.length. lia.
Qed.

Lemma padStart_long (s : string) (n : Z) (c : ascii) :
  (n <= Js.length s)%Z -> Text.padStart s n c = s.
Proof.
  intro H. unfold Text.padStart.
  replace (Z.to_nat (n - Js.length s)) with 0%nat by lia. reflexivity.
Qed.

(** X29: A padded hex string begins with [0x] and has 2 characters more than
    the larger of the wanted length and the length of the string after
    its [0x].  Padding a padded string to the same length changes
    nothing, and padding to length 0 is what [toClarityBuff] does. *)
Theorem padHex_spec (hex : string) (length : Z) :
  Format.padHex hex length =
    "0x" ++ Text.padStart (without_0x hex) length "0" /\
  Js.length (Format.padHex hex length) =
    (2 + Z.max (Js.length (without_0x hex)) length)%Z /\
  Format.padHex (Format.padHex hex length) length = Format.padHex hex length /\
  Contracts.toClarityBuff hex = Format.padHex hex 0 /\
  Contracts.toClarityBuff (Contracts.toClarityBuff hex) = Contracts.toClarityBuff hex.
Proof.
  assert (E : forall h n, Format.padHex h n =
                          "0x" ++ Text.padStart (without_0x h) n "0").
  { intros h n. unfold Format.padHex. rewrite cleaned_without_0x. reflexivity. }
  assert (B : forall h, Contracts.toClarityBuff h = "0x" ++ without_0x h).
  { intro h. unfold Contracts.toClarityBuff. rewrite cleaned_without_0x. reflexivity. }
  split; [apply E|]. split.
  { rewrite E.
    change ("0x" ++ Text.padStart (without_0x hex) length "0")
      with (String "0" (String "x" (Text.padStart (without_0x hex) length "0"))).
    pose proof (padStart_length (without_0x hex) length "0") as P.
    unfold Js.length in *. cbn [String.length]. lia. }
  split.
  { rewrite (E hex), E.
    change (without_0x ("0x" ++ Text.padStart (without_0x hex) length "0"))
      with (Text.padStart (without_0x hex) length "0").
    rewrite (padStart_long (Text.padStart (without_0x hex) length "0"));
      [reflexivity|]. rewrite padStart_length. lia. }
  split.
  { rewrite B, E, padStart_long; [reflexivity|apply length_nonneg]. }
  rewrite (B hex), B. reflexivity.
Qed.

(** ** Bitcoin reward addresses *)

Lemma matches_Eps (s : string) : Regex.matches Regex.Eps s = Js.falsy s.
Proof. destruct s as [|c s]; [reflexivity|]. apply matches_Empty. Qed.

Lemma matches_AtMost (p : ascii -> bool) (n : nat) :
  forall s,
  Regex.matches (Regex.AtMost n (Regex.Class p)) s =
  (String.length s <=? n)%nat && forallb p (Js.chars s).
Proof.
  induction n as [|n IH]; intro s.
  - cbn [Regex.AtMost]. rewrite matches_Eps. destruct s; reflexivity.
  - cbn [Regex.AtMost]. rewrite matches_Alt, matches_Eps, matches_Seq_Class.
    destruct s as [|c s]; [reflexivity|]. rewrite IH.
    change (Js.chars (String c s)) with (c :: Js.chars s).
    cbn [Js.falsy orb String.length Nat.leb forallb].
    destruct (p c), (String.length s <=? n)%nat; reflexivity.
Qed.

Lemma matches_Counted (p : ascii -> bool) (extra lo : nat) :
  forall s,
  Regex.matches (Regex.Counted lo extra (Regex.Class p)) s =
  (lo <=? String.length s)%nat && (String.length s <=? lo + extra)%nat &&
  forallb p (Js.chars s).
Proof.
  induction lo as [|lo IH]; intro s.
  - cbn [Regex.Counted Nat.leb Nat.add andb]. apply matches_AtMost.
  - cbn [Regex.Counted]. rewrite matches_Seq_Class.
    destruct s as [|c s]; [reflexivity|]. rewrite IH.
    change (Js.chars (String c s)) with (c :: Js.chars s).
    cbn [String.length Nat.leb Nat.add forallb].
    destruct (p c), (lo <=? String.length s)%nat,
      (String.length s <=? lo + extra)%nat; reflexivity.
Qed.

Lemma matches_Lit (w : string) (r : Regex.regex) :
  forall s,
  Regex.matches (Regex.Lit w r) s = true <->
  exists body, s = w ++ body /\ Regex.matches r body = true.
Proof.
  induction w as [|c w IH]; intro s.
  - cbn [Regex.Lit append]. split.
    + intro H. exists s. split; [reflexivity|exact H].
    + intros (body & -> & H). exact H.
  - cbn [Regex.Lit append]. rewrite matches_Seq_Class. split.
    + destruct s as [|x s]; [discriminate|]. intro H.
      apply andb_true_iff in H as [E H]. apply Ascii.eqb_eq in E. subst x.
      apply IH in H. destruct H as (body & -> & H). exists body.
      split; [reflexivity|exact H].
    + intros (body & -> & H). rewrite Ascii.eqb_refl. apply IH.
      exists body. split; [reflexivity|exact H].
Qed.

Lemma test_lead (w : string) (lo hi : nat) (p : ascii -> bool) (s : string) :
  (lo <= hi)%nat ->
  Regex.test (Regex.Lit w (Regex.Repeat lo hi (Regex.Class p))) s = true <->
  exists body, s = w ++ body /\
    (lo <= String.length body <= hi)%nat /\ forallb p (Js.chars body) = true.
Proof.
  intro L. unfold Regex.test, Regex.Repeat. rewrite matches_Lit.
  split; intros (body & E & H); exists body; (split; [exact E|]).
  - rewrite matches_Counted in H.
    apply andb_true_iff in H as [H H3]. apply andb_true_iff in H as [H1 H2].
    apply Nat.leb_le in H1, H2. split; [lia|exact H3].
  - rewrite matches_Counted. destruct H as [[H1 H2] H3]. rewrite H3.
    rewrite (proj2 (Nat.leb_le _ _) H1).
    rewrite (proj2 (Nat.leb_le (String.length body) (lo + (hi - lo))));
      [reflexivity|lia].
Qed.

Lemma no_known_prefix (c : ascii) (s : string) :
  Ascii.eqb c "S" = false -> has_known_prefix (String c s) = false.
Proof.
  intro H. unfold has_known_prefix. rewrite !startsWith_cons, H. reflexivity.
Qed.

Lemma pox_shape (btcAddress : string) :
  Stacking.isValidPoxBtcAddress btcAddress = true <->
  exists body,
    (btcAddress = "1" ++ body /\ (25 <= String.length body <= 34)%nat /\
     forallb Stacking.base58 (Js.chars body) = true) \/
    (btcAddress = "3" ++ body /\ (25 <= String.length body <= 34)%nat /\
     forallb Stacking.base58 (Js.chars body) = true) \/
    (btcAddress = "bc1q" ++ body /\ (38 <= String.length body <= 58)%nat /\
     forallb Stacking.lower_digit (Js.chars body) = true) \/
    (btcAddress = "bc1p" ++ body /\ (58 <= String.length body <= 58)%nat /\
     forallb Stacking.lower_digit (Js.chars body) = true).
Proof.
  unfold Stacking.isValidPoxBtcAddress.
  pose proof (test_lead "1" 25 34 Stacking.base58 btcAddress ltac:(lia)) as T1.
  pose proof (test_lead "3" 25 34 Stacking.base58 btcAddress ltac:(lia)) as T2.
  pose proof (test_lead "bc1q" 38 58 Stacking.lower_digit btcAddress ltac:(lia)) as T3.
  pose proof (test_lead "bc1p" 58 58 Stacking.lower_digit btcAddress ltac:(lia)) as T4.
  fold Stacking.p2pkh in T1. fold Stacking.p2sh in T2.
  fold Stacking.bech32 in T3. fold Stacking.bech32m in T4.
  destruct btcAddress as [|c r].
  { cbn [Js.falsy orb]. split; [discriminate|].
    intros (body & [[E _]|[[E _]|[[E _]|[E _]]]]); discriminate E. }
  cbn [Js.falsy typeof orb]. change (String.eqb "string" "string") with true.
  cbn [negb]. split.
  - intro H.
    destruct (Regex.test Stacking.p2pkh (String c r)).
    { destruct (proj1 T1 eq_refl) as (body & P). exists body. left. exact P. }
    destruct (Regex.test Stacking.p2sh (String c r)).
    { destruct (proj1 T2 eq_refl) as (body & P). exists body. right. left. exact P. }
    destruct (Regex.test Stacking.bech32 (String c r)).
    { destruct (proj1 T3 eq_refl) as (body & P). exists body. do 2 right. left.
      exact P. }
    destruct (Regex.test Stacking.bech32m (String c r)); [|discriminate H].
    destruct (proj1 T4 eq_refl) as (body & P). exists body. do 3 right. exact P.
  - intros (body & [P|[P|[P|P]]]).
    + rewrite (proj2 T1 (ex_intro _ body P)). reflexivity.
    + rewrite (proj2 T2 (ex_intro _ body P)).
      destruct (Regex.test Stacking.p2pkh (String c r)); reflexivity.
    + rewrite (proj2 T3 (ex_intro _ body P)).
      destruct (Regex.test Stacking.p2pkh (String c r)),
        (Regex.test Stacking.p2sh (String c r)); reflexivity.
    + rewrite (proj2 T4 (ex_intro _ body P)).
      destruct (Regex.test Stacking.p2pkh (String c r)),
        (Regex.test Stacking.p2sh (String c r)),
        (Regex.test Stacking.bech32 (String c r)); reflexivity.
Qed.

(** X30: A Bitcoin address is accepted for rewards exactly when it is a 1 or a
    3 followed by 25 to 34 base-58 characters, or [bc1q] followed by 38 to
    58 lower-case letters and digits, or [bc1p] followed by 58 of them.  An
    accepted address has 26 to 62 characters, and is never a valid Stacks
    address: no network is read off it. *)
Theorem isValidPoxBtcAddress_spec (btcAddress : string) :
  (Stacking.isValidPoxBtcAddress btcAddress = true <->
   exists body,
     (btcAddress = "1" ++ body /\ (25 <= String.length body <= 34)%nat /\
      forallb Stacking.base58 (Js.chars body) = true) \/
     (btcAddress = "3" ++ body /\ (25 <= String.length body <= 34)%nat /\
      forallb Stacking.base58 (Js.chars body) = true) \/
     (btcAddress = "bc1q" ++ body /\ (38 <= String.length body <= 58)%nat /\
      forallb Stacking.lower_digit (Js.chars body) = true) \/
     (btcAddress = "bc1p" ++ body /\ (58 <= String.length body <= 58)%nat /\
      forallb Stacking.lower_digit (Js.chars body) = true)) /\
  (Stacking.isValidPoxBtcAddress btcAddress = true ->
   (26 <= String.length btcAddress <= 62)%nat /\
   isValidStacksAddress C32.c32addressDecode (JsString btcAddress) =
     Returned false /\
   getNetworkFromAddress btcAddress = None).
Proof.
  split; [apply pox_shape|]. intro V. apply pox_shape in V.
  destruct V as (body & [(-> & L & _)|[(-> & L & _)|[(-> & L & _)|(-> & L & _)]]]);
    rewrite isValidStacksAddress_string;
    cbn [append]; rewrite no_known_prefix by reflexivity;
    (split; [cbn [String.length]; lia|]);
    (split; [rewrite andb_false_r; reflexivity|]);
    unfold getNetworkFromAddress, isMainnetAddress, isTestnetAddress;
    rewrite !startsWith_cons; reflexivity.
Qed.
